(** * CourseVault desktop shell: process supervisor and control channel

    A shallow embedding of the Electron main process ([electron/main.ts])
    and of the log classifier of the renderer ([src/components/StatusBar.tsx]).

    - the module-level variables of [main.ts] ([pythonProcess],
      [isQuitting], [transcriptionWorkers]) are fields of state records, and
      the settings [store] is a finite map; every operation takes the state
      it reads and returns the state it leaves;
    - what the operating system, the clock and the file system answer is an
      explicit argument of the operation that asks;
    - what an operation does to the outside (console, renderer channel, shell,
      spawned and killed processes) is the list of effects it returns. *)

From Stdlib Require Import ZArith QArith Lia String Ascii List.
From Stdlib Require Import DecimalString DecimalNat DecimalZ.
From stdpp Require Import base option list gmap strings.

Set Warnings "-register-all".

Local Open Scope string_scope.
Local Open Scope list_scope.

(** ** JavaScript strings

    Strings are sequences of code units below 256; the operations are the
    ones [main.ts] and [StatusBar.tsx] call on them. *)

Fixpoint startsWith (p s : string) : bool :=
  match p, s with
  | EmptyString, _ => true
  | String a p', String b s' => if Ascii.eqb a b then startsWith p' s' else false
  | String _ _, EmptyString => false
  end.

(** [hay.includes(needle)] *)
Fixpoint includes (needle hay : string) : bool :=
  if startsWith needle hay then true
  else match hay with
       | EmptyString => false
       | String _ hay' => includes needle hay'
       end.

(** White space removed by [String.prototype.trim], within code units < 256:
    TAB, LF, VT, FF, CR, SPACE and NBSP. *)
Definition is_white (c : ascii) : bool :=
  let n := nat_of_ascii c in
  ((9 <=? n)%nat && (n <=? 13)%nat) || (n =? 32)%nat || (n =? 160)%nat.

Fixpoint trimStart (s : string) : string :=
  match s with
  | EmptyString => EmptyString
  | String c s' => if is_white c then trimStart s' else s
  end.

(** Drops the trailing white space: a character is kept when it is not white
    or when something is kept after it. *)
Fixpoint trimEnd (s : string) : string :=
  match s with
  | EmptyString => EmptyString
  | String c s' =>
      match trimEnd s' with
      | EmptyString => if is_white c then EmptyString else String c EmptyString
      | rest => String c rest
      end
  end.

Definition trim (s : string) : string := trimEnd (trimStart s).

(** [s.split('\n')] *)
Fixpoint split_lines_aux (cur : string) (s : string) : list string :=
  match s with
  | EmptyString => [String.rev cur]
  | String c s' =>
      if Ascii.eqb c "010"%char then String.rev cur :: split_lines_aux EmptyString s'
      else split_lines_aux (String c cur) s'
  end.

Definition split_lines (s : string) : list string := split_lines_aux EmptyString s.

(** A string is truthy when it is not empty. *)
Definition truthy_string (s : string) : bool :=
  match s with EmptyString => false | _ => true end.

(** [String(n)] and template interpolation of an integer. *)
Definition string_of_nat (n : nat) : string := NilEmpty.string_of_uint (Nat.to_uint n).
Definition string_of_Z (z : Z) : string := NilEmpty.string_of_int (Z.to_int z).

(** The exit code handed to a close handler is [null] when a signal ended
    the process. *)
Definition string_of_code (code : option Z) : string :=
  match code with Some z => string_of_Z z | None => "null" end.

(** ** Values crossing the control channel

    The renderer sends [value: unknown]; finite numbers are rationals. *)

Inductive number :=
| Finite (q : Q)
| NaN
| Infinity (negative : bool).

Inductive Value :=
| VUndefined
| VNull
| VBool (b : bool)
| VNumber (n : number)
| VString (s : string)
| VArray (items : list Value)
| VObject (fields : list (string * Value)).

Definition Number_isInteger (n : number) : bool :=
  match n with
  | Finite q => (Qnum q mod Z.pos (Qden q) =? 0)%Z
  | _ => false
  end.

Definition number_le (a b : number) : bool :=
  match a, b with
  | NaN, _ | _, NaN => false
  | Infinity true, _ => true
  | _, Infinity false => true
  | Infinity false, _ => false
  | _, Infinity true => false
  | Finite x, Finite y => Qle_bool x y
  end.

Definition num (z : Z) : number := Finite (inject_Z z).

(** *** The zod combinators used by [settingsSchema]

    A schema maps an input to the parsed output, or to [None] when
    [safeParse] reports failure. *)

Definition Schema := Value -> option Value.

Definition z_string : Schema := fun v =>
  match v with VString _ => Some v | _ => None end.

(** [z.number()] accepts every number but [NaN] (zod 3). *)
Definition z_number : Schema := fun v =>
  match v with
  | VNumber NaN => None
  | VNumber _ => Some v
  | _ => None
  end.

Definition z_boolean : Schema := fun v =>
  match v with VBool _ => Some v | _ => None end.

(** [z.number().int().min(lo).max(hi)] *)
Definition z_int_range (lo hi : Z) : Schema := fun v =>
  match z_number v with
  | Some (VNumber n) =>
      if Number_isInteger n && number_le (num lo) n && number_le n (num hi)
      then Some v else None
  | _ => None
  end.

(** [z.enum(options)] *)
Definition z_enum (options : list string) : Schema := fun v =>
  match v with
  | VString s => if existsb (String.eqb s) options then Some v else None
  | _ => None
  end.

(** [inner.nullable()] *)
Definition z_nullable (inner : Schema) : Schema := fun v =>
  match v with VNull => Some VNull | _ => inner v end.

(** [z.array(inner)]: every element is parsed, in order. *)
Fixpoint parse_all (inner : Schema) (items : list Value) : option (list Value) :=
  match items with
  | [] => Some []
  | x :: rest =>
      match inner x, parse_all inner rest with
      | Some y, Some ys => Some (y :: ys)
      | _, _ => None
      end
  end.

Definition z_array (inner : Schema) : Schema := fun v =>
  match v with
  | VArray items => option_map VArray (parse_all inner items)
  | _ => None
  end.

(** Property read on an object: [undefined] when the key is absent. *)
Fixpoint get_field (k : string) (fields : list (string * Value)) : Value :=
  match fields with
  | [] => VUndefined
  | (k', v) :: rest => if String.eqb k k' then v else get_field k rest
  end.

(** [z.object(shape)]: the keys of the shape are parsed and the unknown keys
    are stripped; the output lists the keys in the order of the shape. *)
Fixpoint parse_shape (shape : list (string * Schema)) (fields : list (string * Value))
  : option (list (string * Value)) :=
  match shape with
  | [] => Some []
  | (k, sch) :: rest =>
      match sch (get_field k fields), parse_shape rest fields with
      | Some y, Some ys => Some ((k, y) :: ys)
      | _, _ => None
      end
  end.

Definition z_object (shape : list (string * Schema)) : Schema := fun v =>
  match v with
  | VObject fields => option_map VObject (parse_shape shape fields)
  | _ => None
  end.

(** The nine options of [settingsSchema], keyed by their discriminator. *)
Definition settingsSchema : list (string * Schema) :=
  [ ("transcriptsPath", z_string);
    ("sourceDirectories", z_array z_string);
    ("serverPort", z_int_range 1024 65535);
    ("theme", z_enum ["dark"; "light"]);
    ("llmBackend", z_nullable (z_enum ["ollama"; "lmstudio"; "openai"]));
    ("whisperModel", z_string);
    ("gpuAcceleration", z_boolean);
    ("parallelWorkers", z_int_range 1 8);
    ("windowBounds", z_object [("width", z_number); ("height", z_number)]) ].

Fixpoint union_option (key : string) (options : list (string * Schema)) : option Schema :=
  match options with
  | [] => None
  | (k, sch) :: rest => if String.eqb key k then Some sch else union_option key rest
  end.

(** [settingsSchema.safeParse({ key, value })]: the discriminator selects the
    option, whose value schema parses [value]; [Some data] is
    [result.data.value] of a successful parse. *)
Definition safeParse (key : string) (value : Value) : option Value :=
  match union_option key settingsSchema with
  | Some sch => sch value
  | None => None
  end.

(** *** The [set-settings] handler *)

(** A [ChildProcess] object returned by [spawn]: [obj] is the identity of the
    object ([===] compares it), [pid] is [None] when the operating system
    created no process. *)
Record ChildProcess := {
  obj : nat;
  pid : option positive;
  args : list string
}.

(** What the main process does to the outside. *)
Inductive Effect :=
| ConsoleLog (msg : string)
| ConsoleWarn (msg : string)
| ConsoleError (msg : string)
| ShellOpenExternal (url : string)
| Spawn (command : string) (child : ChildProcess)
| Taskkill (p : positive)                 (* taskkill /pid p /T /F *)
| KillSignal (child : nat) (sig : string) (* child.kill(sig) *)
| SetTimeout (ms : N)
| Send (channel : string) (payload : Value). (* mainWindow.webContents.send *)

(** [electron-store] keeps its content in a JSON file: [store.set] writes
    the file and every read parses it. What is read back is the JSON image of
    what was set: [NaN] and the infinities become [null], [undefined] is
    dropped from an object and becomes [null] in an array. The maps below
    are the content of the file as it is read. *)
Fixpoint json_image (v : Value) : Value :=
  match v with
  | VNumber (Finite q) => VNumber (Finite q)
  | VNumber _ => VNull
  | VArray items =>
      VArray (map (fun x => match x with
                            | VUndefined => VNull
                            | _ => json_image x
                            end) items)
  | VObject fields =>
      VObject (flat_map (fun kv => let '(k, x) := kv in
                                   match x with
                                   | VUndefined => []
                                   | _ => [(k, json_image x)]
                                   end) fields)
  | _ => v
  end.

(** A value as a JSON file holds it: no [undefined], no [NaN], no infinity. *)
Fixpoint is_json (v : Value) : bool :=
  match v with
  | VUndefined => false
  | VNumber (Finite _) => true
  | VNumber _ => false
  | VArray items => forallb is_json items
  | VObject fields => forallb (fun kv => is_json (snd kv)) fields
  | _ => true
  end.

Definition set_settings (store : gmap string Value) (key : string) (value : Value)
  : bool * gmap string Value * list Effect :=
  match safeParse key value with
  | None => (false, store, [ConsoleWarn ("Rejected invalid setting: " ++ key)])
  | Some data => (true, <[key := json_image data]> store, [])
  end.

(** ** External links

    [URL] keeps the two properties of a parsed URL the shell looks at. *)

Record URL := {
  protocol : string;
  hostname : string
}.

(** The [open-external] handler; [URL_new url] is [new URL(url)], [None]
    when the constructor throws. *)
Definition open_external (URL_new : string -> option URL) (url : string) : list Effect :=
  match URL_new url with
  | Some parsed =>
      if String.eqb (protocol parsed) "https:" || String.eqb (protocol parsed) "http:"
      then [ShellOpenExternal url]
      else [ConsoleWarn ("Blocked open-external with unsafe protocol: " ++ protocol parsed)]
  | None => [ConsoleWarn ("Blocked open-external with invalid URL: " ++ url)]
  end.

(** The handler given to [mainWindow.webContents.setWindowOpenHandler]. *)
Inductive WindowOpenAction := ActionDeny | ActionAllow.

Definition windowOpenHandler (url : string) : WindowOpenAction * list Effect :=
  (ActionDeny, [ShellOpenExternal url]).

(** *** The URL constructor of the platform

    A model of the WHATWG URL parser for absolute URLs written in plain
    ASCII: the scheme, and for the schemes with an authority the host name,
    refused when it holds a forbidden code point, when the bracket of an IPv6
    literal is not closed or when the port is no number up to 65535.
    Percent-decoding, IDNA, the numeric forms of IPv4 addresses and the
    inside of an IPv6 literal are not modelled; the general theorems on
    [open_external] hold for every parser. *)

Definition is_alpha (c : ascii) : bool :=
  let n := nat_of_ascii c in
  ((65 <=? n)%nat && (n <=? 90)%nat) || ((97 <=? n)%nat && (n <=? 122)%nat).

Definition is_digit (c : ascii) : bool :=
  let n := nat_of_ascii c in (48 <=? n)%nat && (n <=? 57)%nat.

Definition to_lower (c : ascii) : ascii :=
  let n := nat_of_ascii c in
  if (65 <=? n)%nat && (n <=? 90)%nat then ascii_of_nat (n + 32) else c.

Fixpoint toLowerCase (s : string) : string :=
  match s with
  | EmptyString => EmptyString
  | String c s' => String (to_lower c) (toLowerCase s')
  end.

Definition is_scheme_char (c : ascii) : bool :=
  is_alpha c || is_digit c || Ascii.eqb c "+" || Ascii.eqb c "-" || Ascii.eqb c ".".

(** C0 control or space, stripped at both ends of the input. *)
Definition is_c0_or_space (c : ascii) : bool := (nat_of_ascii c <=? 32)%nat.

Fixpoint strip_leading (s : string) : string :=
  match s with
  | EmptyString => EmptyString
  | String c s' => if is_c0_or_space c then strip_leading s' else s
  end.

Fixpoint strip_trailing (s : string) : string :=
  match s with
  | EmptyString => EmptyString
  | String c s' =>
      match strip_trailing s' with
      | EmptyString => if is_c0_or_space c then EmptyString else String c EmptyString
      | rest => String c rest
      end
  end.

(** ASCII tab and newline are removed wherever they stand. *)
Fixpoint remove_tab_newline (s : string) : string :=
  match s with
  | EmptyString => EmptyString
  | String c s' =>
      if Ascii.eqb c "009" || Ascii.eqb c "010" || Ascii.eqb c "013"
      then remove_tab_newline s' else String c (remove_tab_newline s')
  end.

(** Scheme state: scheme characters up to the colon; the lowered scheme and
    what follows the colon. *)
Fixpoint scan_scheme (acc : string) (s : string) : option (string * string) :=
  match s with
  | EmptyString => None
  | String c s' =>
      if Ascii.eqb c ":" then Some (String.rev acc, s')
      else if is_scheme_char c then scan_scheme (String (to_lower c) acc) s'
      else None
  end.

Definition parse_scheme (s : string) : option (string * string) :=
  match s with
  | String c _ => if is_alpha c then scan_scheme EmptyString s else None
  | EmptyString => None
  end.

Definition is_slash (c : ascii) : bool := Ascii.eqb c "/" || Ascii.eqb c "\".

Fixpoint skip_slashes (s : string) : string :=
  match s with
  | String c s' => if is_slash c then skip_slashes s' else s
  | EmptyString => EmptyString
  end.

(** The authority ends at the first slash, question mark or hash. *)
Fixpoint take_authority (s : string) : string :=
  match s with
  | EmptyString => EmptyString
  | String c s' =>
      if is_slash c || Ascii.eqb c "?" || Ascii.eqb c "#" then EmptyString
      else String c (take_authority s')
  end.

(** What follows the last at-sign, the credentials dropped. *)
Fixpoint after_last_at (s : string) : string :=
  match s with
  | EmptyString => EmptyString
  | String c s' =>
      if includes "@" s then after_last_at s' else s
  end.

(** The text up to the first [stop], and what follows it, if it is there. *)
Fixpoint split_at (stop : ascii) (s : string) : string * option string :=
  match s with
  | EmptyString => (EmptyString, None)
  | String c s' =>
      if Ascii.eqb c stop then (EmptyString, Some s')
      else let '(before, after) := split_at stop s' in (String c before, after)
  end.

(** The forbidden host code points among the code units below 128, the
    percent sign left out. *)
Definition is_forbidden_host_char (c : ascii) : bool :=
  (nat_of_ascii c <=? 32)%nat || (nat_of_ascii c =? 127)%nat
  || existsb (Ascii.eqb c) ["#"; "/"; ":"; "<"; ">"; "?"; "@"; "["; "\"; "]"; "^"; "|"]%char.

Fixpoint has_forbidden_host_char (s : string) : bool :=
  match s with
  | EmptyString => false
  | String c s' => is_forbidden_host_char c || has_forbidden_host_char s'
  end.

(** The port: decimal digits, with a value of 65535 at most; it may be
    empty. *)
Fixpoint port_value (acc : N) (s : string) : option N :=
  match s with
  | EmptyString => Some acc
  | String c s' =>
      if is_digit c
      then port_value (10 * acc + N.of_nat (nat_of_ascii c - 48))%N s'
      else None
  end.

Definition port_ok (port : string) : bool :=
  match port_value 0%N port with
  | Some n => (n <=? 65535)%N
  | None => false
  end.

(** The host of an authority, lowered; [None] when the parser fails: the
    host ends at the colon of the port, a bracketed IPv6 literal at its
    closing bracket, which has to be there. *)
Definition host_of_authority (a : string) : option string :=
  let hp := after_last_at a in
  match hp with
  | String "[" _ =>
      match split_at "]" hp with
      | (literal, Some rest) =>
          let h := toLowerCase (literal ++ "]") in
          match rest with
          | EmptyString => Some h
          | String ":" port => if port_ok port then Some h else None
          | String _ _ => None
          end
      | (_, None) => None
      end
  | _ =>
      let '(h, port) := split_at ":" hp in
      if has_forbidden_host_char h then None
      else if port_ok (default EmptyString port) then Some (toLowerCase h)
      else None
  end.

Definition special_schemes : list string := ["http"; "https"; "ws"; "wss"; "ftp"].

Definition URL_parse (input : string) : option URL :=
  let s := remove_tab_newline (strip_trailing (strip_leading input)) in
  match parse_scheme s with
  | None => None
  | Some (scheme, rest) =>
      if existsb (String.eqb scheme) special_schemes then
        match host_of_authority (take_authority (skip_slashes rest)) with
        | Some h =>
            if truthy_string h
            then Some {| protocol := scheme ++ ":"; hostname := h |}
            else None
        | None => None
        end
      else Some {| protocol := scheme ++ ":"; hostname := "" |}
  end.

(** Local-loopback host names: [localhost], the [127.0.0.0/8] block and the
    IPv6 loopback. *)
Definition is_loopback (h : string) : bool :=
  String.eqb h "localhost" || startsWith "127." h || String.eqb h "[::1]".

(** ** The host the application runs on

    What [process], [fs], [path] and the interpreter lookup answer: the
    paths [main.ts] computes are strings of the host, [existsSync] is
    [fs.existsSync], and [findPython] is [None] when no command answers
    [Python 3], in which case the function of that name throws. *)

Record Host := {
  isDev : bool;
  win32 : bool;                 (* process.platform === 'win32' *)
  existsSync : string -> bool;
  findPython : option string;
  pythonPath : string;          (* getPythonScriptsPath() *)
  serverScript : string;        (* path.join(pythonPath, 'course_library_server.py') *)
  serverExe : string;           (* getBundledExePath('coursevault-server') *)
  workerScript : string;        (* path.join(pythonPath, 'parallel_worker.py') *)
  workerExe : string;           (* getBundledExePath('coursevault-worker') *)
  dirname : string -> string;   (* path.dirname *)
  documents : string            (* path.join(os.homedir(), 'Documents') *)
}.

(** ** Asynchronous functions

    An [async] function is the tree of what it awaits: a health request
    answered by [true] when the response is [ok] and by [false] when it is
    not or when the request throws or times out, and a timer.  Console output
    between two awaits is kept in the tree.  [Rejected] is a promise rejected
    by an exception. *)

Inductive Async (A : Type) : Type :=
| Resolved (a : A)
| Rejected
| AwaitFetch (url : string) (timeout_ms : N) (k : bool -> Async A)
| AwaitTimeout (ms : N) (k : Async A)
| Console (e : Effect) (k : Async A).

Arguments Resolved {A} a.
Arguments Rejected {A}.
Arguments AwaitFetch {A} url timeout_ms k.
Arguments AwaitTimeout {A} ms k.
Arguments Console {A} e k.

(** [await p] followed by [k]. *)
Fixpoint await {A B : Type} (p : Async A) (k : A -> Async B) : Async B :=
  match p with
  | Resolved a => k a
  | Rejected => Rejected
  | AwaitFetch url t k' => AwaitFetch url t (fun ok => await (k' ok) k)
  | AwaitTimeout ms k' => AwaitTimeout ms (await k' k)
  | Console e k' => Console e (await k' k)
  end.

(** The body of the loop of [waitForServer] at index [i], with [remaining]
    iterations left ([remaining = 60 - i]). *)
Fixpoint waitForServer_loop (port : Z) (remaining i : nat) : Async unit :=
  match remaining with
  | O =>
      Console (ConsoleWarn
        "Server taking longer than expected, but React app will keep retrying...")
        (Resolved tt)
  | S r =>
      AwaitFetch ("http://127.0.0.1:" ++ string_of_Z port ++ "/health") 2000%N
        (fun ok =>
           if ok then Console (ConsoleLog "Python server is ready!") (Resolved tt)
           else
             let next := AwaitTimeout 2000%N (waitForServer_loop port r (S i)) in
             if (i mod 10 =? 0)%nat
             then Console (ConsoleLog ("Server still initializing... ("
                                       ++ string_of_nat (i * 2) ++ "s elapsed)")) next
             else next)
  end.

Definition waitForServer (port : Z) : Async unit := waitForServer_loop port 60 0.

(** What happens while a promise is pending. *)
Inductive Tick :=
| TFetch (url : string)
| TSleep (ms : N)
| TConsole (e : Effect).

(** Runs a promise to its end; [probe n] answers the request number [n]
    (counted from [fetched]).  The result is [None] for a rejected promise. *)
Fixpoint run {A : Type} (p : Async A) (probe : nat -> bool) (fetched : nat)
  : list Tick * option A :=
  match p with
  | Resolved a => ([], Some a)
  | Rejected => ([], None)
  | AwaitFetch url _ k =>
      let '(t, r) := run (k (probe fetched)) probe (S fetched) in (TFetch url :: t, r)
  | AwaitTimeout ms k =>
      let '(t, r) := run k probe fetched in (TSleep ms :: t, r)
  | Console e k =>
      let '(t, r) := run k probe fetched in (TConsole e :: t, r)
  end.

Definition is_fetch (t : Tick) : bool := match t with TFetch _ => true | _ => false end.
Definition sleep_ms (t : Tick) : N := match t with TSleep ms => ms | _ => 0%N end.

(** The time spent in timers before the promise settles. *)
Definition slept (t : list Tick) : N := fold_right N.add 0%N (map sleep_ms t).


(** ** Service supervisor *)

(** The operating system's view of a child that was given a pid. *)
Inductive ProcStatus :=
| Running        (* spawned, no termination requested, no exit observed *)
| Terminating    (* termination requested by the supervisor *)
| Exited.        (* its close event was delivered *)

(** [pythonProcess] and [isQuitting] are the variables of [main.ts].
    [service_procs] lists the service children that were given a pid, the
    ones on which [startPythonServer] registers its close handler;
    [restart_timers] counts the pending [setTimeout] of that handler;
    [next_obj] numbers the objects [spawn] creates. *)
Record Supervisor := {
  pythonProcess : option ChildProcess;
  isQuitting : bool;
  service_procs : list (ChildProcess * ProcStatus);
  restart_timers : nat;
  next_obj : nat
}.

Definition initial_supervisor : Supervisor :=
  {| pythonProcess := None; isQuitting := false; service_procs := [];
     restart_timers := 0; next_obj := 0 |}.

Definition status_eqb (a b : ProcStatus) : bool :=
  match a, b with
  | Running, Running | Terminating, Terminating | Exited, Exited => true
  | _, _ => false
  end.

(** The children alive with a close handler: a close event can come from
    them, and from them only. *)
Definition registered (c : nat) (s : Supervisor) : bool :=
  existsb (fun '(p, st) => (obj p =? c)%nat && negb (status_eqb st Exited)) (service_procs s).

Definition running_procs (s : Supervisor) : list ChildProcess :=
  map fst (List.filter (fun '(p, st) => status_eqb st Running) (service_procs s)).

Definition set_status (c : nat) (new : ProcStatus) (procs : list (ChildProcess * ProcStatus))
  : list (ChildProcess * ProcStatus) :=
  map (fun '(p, st) =>
         if (obj p =? c)%nat && negb (status_eqb st Exited) then (p, new) else (p, st)) procs.

(** How the synchronous part of [startPythonServer] ends. *)
Inductive StartOutcome :=
| NotFound       (* script or bundle missing: logged, [return] *)
| Threw          (* [findPython] threw *)
| SpawnFailed    (* no pid: logged, [return] *)
| Started.       (* handlers registered, [await waitForServer(port)] follows *)

(** [pythonProcess = spawn(command, args, ...)] and the pid check;
    [os_pid] is the pid the operating system gives, if any. *)
Definition spawn_server (command : string) (argv : list string) (port : Z)
    (os_pid : option positive) (s : Supervisor)
  : Supervisor * list Effect * StartOutcome :=
  let child := {| obj := next_obj s; pid := os_pid; args := argv |} in
  let before := [ConsoleLog ("Port: " ++ string_of_Z port); Spawn command child] in
  match os_pid with
  | None =>
      ({| pythonProcess := Some child; isQuitting := isQuitting s;
          service_procs := service_procs s; restart_timers := restart_timers s;
          next_obj := S (next_obj s) |},
       before ++ [ConsoleError "ERROR: Failed to spawn Python process"], SpawnFailed)
  | Some p =>
      ({| pythonProcess := Some child; isQuitting := isQuitting s;
          service_procs := service_procs s ++ [(child, Running)];
          restart_timers := restart_timers s;
          next_obj := S (next_obj s) |},
       before ++ [ConsoleLog ("Python process started with PID: "
                              ++ string_of_Z (Z.pos p))], Started)
  end.

Section OnHost.

Variable h : Host.

(** [startPythonServer] up to its [await]. *)
Definition startPythonServer_sync (port : Z) (os_pid : option positive)
    (s : Supervisor) : Supervisor * list Effect * StartOutcome :=
  if isDev h then
    if negb (existsSync h (serverScript h)) then
      (s, [ConsoleError ("ERROR: Server script not found at: " ++ serverScript h)], NotFound)
    else
      match findPython h with
      | None => (s, [], Threw)
      | Some command =>
          let argv := [serverScript h; "--port"; string_of_Z port] in
          let '(s', eff, out) := spawn_server command argv port os_pid s in
          (s', ConsoleLog ("Starting Python server (dev): " ++ command ++ " "
                           ++ String.concat " " argv) :: eff, out)
      end
  else
    if negb (existsSync h (serverExe h)) then
      (s, [ConsoleError ("ERROR: Bundled server not found at: " ++ serverExe h)], NotFound)
    else
      let '(s', eff, out) :=
        spawn_server (serverExe h) ["--port"; string_of_Z port] port os_pid s in
      (s', ConsoleLog ("Starting Python server (bundled): " ++ serverExe h) :: eff, out).

(** The promise [startPythonServer()] returns. *)
Definition startPythonServer_promise (port : Z) (out : StartOutcome) : Async unit :=
  match out with
  | Started => waitForServer port
  | Threw => Rejected
  | NotFound | SpawnFailed => Resolved tt
  end.

(** The close handler registered on a service child. *)
Definition on_service_close (c : nat) (code : option Z) (s : Supervisor)
  : Supervisor * list Effect :=
  if registered c s then
    let procs := set_status c Exited (service_procs s) in
    let log := ConsoleLog ("Python server exited with code " ++ string_of_code code) in
    if isQuitting s then
      ({| pythonProcess := None; isQuitting := isQuitting s; service_procs := procs;
          restart_timers := restart_timers s; next_obj := next_obj s |}, [log])
    else
      ({| pythonProcess := None; isQuitting := isQuitting s; service_procs := procs;
          restart_timers := S (restart_timers s); next_obj := next_obj s |},
       [log; SetTimeout 2000%N])
  else (s, []).

(** [stopPythonServer]; [threw] tells whether the kill command of the [try]
    block threw, in which case the [catch] block logs and calls [kill()]. *)
Definition stopPythonServer (threw : bool) (s : Supervisor)
  : Supervisor * list Effect :=
  match pythonProcess s with
  | Some child =>
      let kill :=
        if win32 h then match pid child with Some p => [Taskkill p] | None => [] end
        else [KillSignal (obj child) "SIGTERM"] in
      let fallback :=
        if threw
        then [ConsoleError "Error stopping Python server:"; KillSignal (obj child) ""]
        else [] in
      ({| pythonProcess := None; isQuitting := isQuitting s;
          service_procs := set_status (obj child) Terminating (service_procs s);
          restart_timers := restart_timers s; next_obj := next_obj s |},
       ConsoleLog "Stopping Python server..." :: kill ++ fallback)
  | None => (s, [])
  end.

(** The [get-server-status] handler: [running: pythonProcess !== null]. *)
Definition get_server_status (s : Supervisor) : bool :=
  match pythonProcess s with Some _ => true | None => false end.

(** The [restart-server] handler: [stopPythonServer()],
    [await startPythonServer()], [return true]. *)
Definition restart_server (threw : bool) (port : Z) (os_pid : option positive)
    (s : Supervisor) : Supervisor * list Effect * Async bool :=
  let '(s1, e1) := stopPythonServer threw s in
  let '(s2, e2, out) := startPythonServer_sync port os_pid s1 in
  (s2, e1 ++ e2, await (startPythonServer_promise port out) (fun _ => Resolved true)).

(** What the supervisor reacts to. *)
Inductive Event :=
| AppReady (port : Z) (os_pid : option positive)
    (* app.whenReady: startPythonServer() *)
| RestartServer (threw : bool) (port : Z) (os_pid : option positive)
    (* IPC restart-server and tray Restart Server *)
| GetServerStatus
    (* IPC get-server-status *)
| ServiceClose (child : nat) (code : option Z)
    (* close event of a service child *)
| TimerFires (port : Z) (os_pid : option positive)
    (* a restart timer fires: startPythonServer() *)
| BeforeQuit (threw : bool).
    (* isQuitting = true; stopPythonServer() *)

Definition set_quitting (s : Supervisor) : Supervisor :=
  {| pythonProcess := pythonProcess s; isQuitting := true;
     service_procs := service_procs s; restart_timers := restart_timers s;
     next_obj := next_obj s |}.

Definition take_timer (s : Supervisor) : Supervisor :=
  {| pythonProcess := pythonProcess s; isQuitting := isQuitting s;
     service_procs := service_procs s; restart_timers := pred (restart_timers s);
     next_obj := next_obj s |}.

Definition step (s : Supervisor) (ev : Event) : Supervisor * list Effect :=
  match ev with
  | AppReady port os_pid =>
      let '(s', eff, _) := startPythonServer_sync port os_pid s in (s', eff)
  | RestartServer threw port os_pid =>
      let '(s', eff, _) := restart_server threw port os_pid s in (s', eff)
  | GetServerStatus => (s, [])
  | ServiceClose c code => on_service_close c code s
  | TimerFires port os_pid =>
      match restart_timers s with
      | O => (s, [])
      | S _ =>
          let '(s', eff, _) := startPythonServer_sync port os_pid (take_timer s) in
          (s', eff)
      end
  | BeforeQuit threw => stopPythonServer threw (set_quitting s)
  end.

Fixpoint steps (s : Supervisor) (evs : list Event) : Supervisor * list Effect :=
  match evs with
  | [] => (s, [])
  | ev :: rest =>
      let '(s1, e1) := step s ev in
      let '(s2, e2) := steps s1 rest in
      (s2, e1 ++ e2)
  end.

End OnHost.

(** ** Worker pool manager *)

(** [transcriptionWorkers] is the array of [main.ts]; [pool_next_obj] numbers
    the objects [spawn] creates. *)
Record Pool := {
  transcriptionWorkers : list ChildProcess;
  pool_next_obj : nat
}.

Definition initial_pool : Pool := {| transcriptionWorkers := []; pool_next_obj := 0 |}.

(** The three settings [startTranscriptionWorker] reads from the store. *)
Record PoolSettings := {
  sourceDirectories : list string;
  gpuAcceleration : bool;
  parallelWorkers : nat
}.

(** [(store.get('parallelWorkers') as number) || 1] *)
Definition workerCount (cfg : PoolSettings) : nat :=
  match parallelWorkers cfg with O => 1 | n => n end.

Section PoolOnHost.

Variable h : Host.

(** [sourceDirectories[0] || path.join(os.homedir(), 'Documents')] *)
Definition inputDir (cfg : PoolSettings) : string :=
  match sourceDirectories cfg with
  | d :: _ => if truthy_string d then d else documents h
  | [] => documents h
  end.

(** [`worker-${i + 1}-${Date.now()}`] *)
Definition workerId (i : nat) (now : Z) : string :=
  "worker-" ++ string_of_nat (i + 1) ++ "-" ++ string_of_Z now.

Definition worker_args (cfg : PoolSettings) (isScript : bool) (id : string)
  : list string :=
  (if isScript then [workerScript h; "-i"; inputDir cfg; "--worker-id"; id]
   else ["-i"; inputDir cfg; "--worker-id"; id])
  ++ (if gpuAcceleration cfg then ["--gpu"] else []).

(** The spawn loop at index [i], with [remaining] iterations left; [now i]
    is what [Date.now()] answers in iteration [i] and [os_pid i] the pid the
    operating system gives to its child, if any. *)
Fixpoint spawn_workers (cfg : PoolSettings) (baseCommand : string)
    (isScript : bool) (now : nat -> Z) (os_pid : nat -> option positive)
    (remaining i : nat) (s : Pool) : Pool * list Effect :=
  match remaining with
  | O => (s, [])
  | S r =>
      let worker := {| obj := pool_next_obj s; pid := os_pid i;
                       args := worker_args cfg isScript (workerId i (now i)) |} in
      match os_pid i with
      | None =>
          let s1 := {| transcriptionWorkers := transcriptionWorkers s;
                       pool_next_obj := S (pool_next_obj s) |} in
          let '(s2, eff) := spawn_workers cfg baseCommand isScript now os_pid r (S i) s1 in
          (s2, Spawn baseCommand worker
               :: ConsoleError ("ERROR: Failed to spawn transcription worker "
                                ++ string_of_nat (i + 1)) :: eff)
      | Some p =>
          let s1 := {| transcriptionWorkers := transcriptionWorkers s ++ [worker];
                       pool_next_obj := S (pool_next_obj s) |} in
          let '(s2, eff) := spawn_workers cfg baseCommand isScript now os_pid r (S i) s1 in
          (s2, Spawn baseCommand worker
               :: ConsoleLog ("Transcription worker " ++ string_of_nat (i + 1)
                              ++ " started with PID: " ++ string_of_Z (Z.pos p)) :: eff)
      end
  end.

(** How [startTranscriptionWorker] ends. *)
Inductive PoolOutcome :=
| AlreadyRunning   (* the pool is not empty: logged, [return] *)
| WorkerNotFound   (* script or bundle missing: logged, [return] *)
| PoolThrew        (* [findPython] threw *)
| PoolStarted.     (* the loop ran *)

Definition status_payload (running : bool) (field : string) (n : option Z) : Value :=
  VObject [("running", VBool running);
           (field, match n with Some z => VNumber (num z) | None => VNull end)].

(** [win] tells whether [mainWindow] exists and is not destroyed. *)
Definition startTranscriptionWorker (cfg : PoolSettings) (win : bool)
    (now : nat -> Z) (os_pid : nat -> option positive) (s : Pool)
  : Pool * list Effect * PoolOutcome :=
  match transcriptionWorkers s with
  | _ :: _ => (s, [ConsoleLog "Transcription workers already running"], AlreadyRunning)
  | [] =>
      let run_loop (baseCommand : string) (isScript : bool) (banner : Effect) :=
        let '(s', eff) :=
          spawn_workers cfg baseCommand isScript now os_pid (workerCount cfg) 0 s in
        (s',
         [banner;
          ConsoleLog ("GPU acceleration: "
                      ++ (if gpuAcceleration cfg then "enabled" else "disabled"));
          ConsoleLog ("Source directories configured: "
                      ++ String.concat ", " (sourceDirectories cfg));
          ConsoleLog ("Using input directory: " ++ inputDir cfg)]
         ++ eff
         ++ (if win
             then [Send "transcriber-status"
                        (status_payload true "workerCount"
                           (Some (Z.of_nat (length (transcriptionWorkers s')))))]
             else []),
         PoolStarted) in
      if isDev h then
        if negb (existsSync h (workerScript h)) then
          (s, [ConsoleError ("ERROR: Worker script not found at: " ++ workerScript h)],
           WorkerNotFound)
        else
          match findPython h with
          | None => (s, [], PoolThrew)
          | Some command =>
              run_loop command true
                (ConsoleLog ("Starting " ++ string_of_nat (workerCount cfg)
                             ++ " transcription worker(s) (dev): " ++ workerScript h))
          end
      else
        if negb (existsSync h (workerExe h)) then
          (s, [ConsoleError ("ERROR: Bundled worker not found at: " ++ workerExe h)],
           WorkerNotFound)
        else
          run_loop (workerExe h) false
            (ConsoleLog ("Starting " ++ string_of_nat (workerCount cfg)
                         ++ " transcription worker(s) (bundled): " ++ workerExe h))
  end.

(** The kill of one worker in [stopTranscriptionWorker]. *)
Definition kill_worker (threw : nat -> bool) (worker : ChildProcess)
  : list Effect :=
  (if win32 h then match pid worker with Some p => [Taskkill p] | None => [] end
   else [KillSignal (obj worker) "SIGTERM"])
  ++ (if threw (obj worker)
      then [ConsoleError "Error stopping transcription worker:"; KillSignal (obj worker) ""]
      else []).

Definition stopTranscriptionWorker (threw : nat -> bool) (s : Pool)
  : Pool * list Effect :=
  match transcriptionWorkers s with
  | [] => (s, [])
  | ws =>
      ({| transcriptionWorkers := []; pool_next_obj := pool_next_obj s |},
       ConsoleLog ("Stopping " ++ string_of_nat (length ws) ++ " transcription worker(s)...")
       :: flat_map (kill_worker threw) ws)
  end.

End PoolOnHost.

(** The close handler of the worker [worker], spawned in iteration [i]. *)
Definition on_worker_close (worker i : nat) (code : option Z) (win : bool) (s : Pool)
  : Pool * list Effect :=
  let ws := List.filter (fun w => negb (obj w =? worker)%nat) (transcriptionWorkers s) in
  ({| transcriptionWorkers := ws; pool_next_obj := pool_next_obj s |},
   ConsoleLog ("Transcription worker " ++ string_of_nat (i + 1) ++ " exited with code "
               ++ string_of_code code)
   :: (if (length ws =? 0)%nat && win
       then [Send "transcriber-status" (status_payload false "exitCode" code)]
       else [])).

(** The answer of [get-transcription-status]. *)
Record PoolStatus := {
  status_running : bool;
  status_workerCount : nat;
  status_pids : list positive
}.

Definition get_transcription_status (s : Pool) : PoolStatus :=
  {| status_running := negb (length (transcriptionWorkers s) =? 0)%nat;
     status_workerCount := length (transcriptionWorkers s);
     status_pids := omap pid (transcriptionWorkers s) |}.

(** The [start-transcription] handler answers with the size of the pool. *)
Definition start_transcription (h : Host) (cfg : PoolSettings) (win : bool)
    (now : nat -> Z) (os_pid : nat -> option positive) (s : Pool)
  : Pool * list Effect * option (bool * nat) :=
  let '(s', eff, out) := startTranscriptionWorker h cfg win now os_pid s in
  (s', eff,
   match out with
   | PoolThrew => None
   | _ => Some (negb (length (transcriptionWorkers s') =? 0)%nat,
                length (transcriptionWorkers s'))
   end).

(** *** Output of a worker

    The handlers registered on the streams of the worker spawned in
    iteration [i]. *)

(** [data.toString().split('\n').filter(l => l.trim())] *)
Definition nonblank_lines (data : string) : list string :=
  List.filter (fun l => truthy_string (trim l)) (split_lines data).

Definition on_worker_stdout (i : nat) (win : bool) (data : string) : list Effect :=
  flat_map (fun line =>
              ConsoleLog ("[Worker " ++ string_of_nat (i + 1) ++ "] " ++ line)
              :: (if win then [Send "transcriber-log" (VString line)] else []))
           (nonblank_lines data).

Definition ffmpeg_markers : list string :=
  [ "Error while decoding stream";
    "Invalid data found when processing input";
    "channel element";
    "duplicate";
    "Application provided invalid";
    "Last message repeated" ].

Definition isFFmpegNoise (message : string) : bool :=
  existsb (fun m => includes m message) ffmpeg_markers.

(** [s.substring(0, n)] *)
Fixpoint substring0 (n : nat) (s : string) : string :=
  match n, s with
  | S n', String c s' => String c (substring0 n' s')
  | _, _ => EmptyString
  end.

Definition on_worker_stderr (i : nat) (win : bool) (message : string) : list Effect :=
  if isFFmpegNoise message then
    [ConsoleLog ("[Worker " ++ string_of_nat (i + 1) ++ " FFmpeg] "
                 ++ substring0 100 (trim message) ++ "...")]
  else
    ConsoleError ("[Worker " ++ string_of_nat (i + 1) ++ " Error] " ++ message)
    :: (if win then [Send "transcriber-error" (VString message)] else []).

(** ** The console of the renderer ([StatusBar.tsx]) *)

Inductive LogType := Info | Error | Success | Progress | Warning.

(** A [LogEntry] without its id and its time stamp. *)
Record LogEntry := {
  message : string;
  type : LogType
}.

(** [addLog]: a message equal to the last one is dropped; the list keeps its
    last 200 entries and the new one. *)
Definition addLog (msg : string) (ty : LogType) (prev : list LogEntry) : list LogEntry :=
  match last prev with
  | Some e =>
      if String.eqb (message e) msg then prev
      else skipn (length prev - 200) prev ++ [{| message := msg; type := ty |}]
  | None => [{| message := msg; type := ty |}]
  end.

(** The type given to a line of a worker. *)
Definition classify_worker_line (trimmed : string) : LogType :=
  if includes "COMPLETED" trimmed || includes "SUCCESS" trimmed then Success
  else if includes "ERROR" trimmed || includes "FAILED" trimmed then Error
  else if includes "Processing:" trimmed || includes "Transcribing" trimmed then Progress
  else Info.

(** The listener given to [onTranscriberLog]. *)
Definition onTranscriberLog (log : string) (logs : list LogEntry) : list LogEntry :=
  let trimmed := trim log in
  if truthy_string trimmed
  then addLog ("[Worker] " ++ trimmed) (classify_worker_line trimmed) logs
  else logs.

(** The listener given to [onTranscriberError]. *)
Definition onTranscriberError (err : string) (logs : list LogEntry) : list LogEntry :=
  let trimmed := trim err in
  if truthy_string trimmed then addLog ("[Worker Error] " ++ trimmed) Error logs else logs.

(** What the renderer does with an effect of the main process: the two
    worker channels reach their listeners. *)
Definition deliver (logs : list LogEntry) (e : Effect) : list LogEntry :=
  match e with
  | Send channel (VString text) =>
      if String.eqb channel "transcriber-log" then onTranscriberLog text logs
      else if String.eqb channel "transcriber-error" then onTranscriberError text logs
      else logs
  | _ => logs
  end.

Definition deliver_all (logs : list LogEntry) (effs : list Effect) : list LogEntry :=
  fold_left deliver effs logs.

(** The payloads an effect list sends to the renderer on [channel]. *)
Definition sent_on (channel : string) (effs : list Effect) : list Value :=
  omap (fun e => match e with
                 | Send c v => if String.eqb c channel then Some v else None
                 | _ => None
                 end) effs.

Definition is_spawn (e : Effect) : bool :=
  match e with Spawn _ _ => true | _ => false end.

Definition is_console_error (e : Effect) : bool :=
  match e with ConsoleError _ => true | _ => false end.

(** What an effect list writes to the console of the main process, and what
    it sends to the renderer, in order. *)
Definition console_lines (effs : list Effect) : list Effect :=
  List.filter (fun e => match e with
                        | ConsoleLog _ | ConsoleWarn _ | ConsoleError _ => true
                        | _ => false
                        end) effs.

Definition sends (effs : list Effect) : list (string * Value) :=
  omap (fun e => match e with Send channel v => Some (channel, v) | _ => None end) effs.

(** The children an effect list spawns, in order. *)
Definition spawned (effs : list Effect) : list ChildProcess :=
  omap (fun e => match e with Spawn _ c => Some c | _ => None end) effs.

(** The worker identifier in the arguments of a worker: it follows
    [--worker-id], after the script (if any), [-i] and the input directory. *)
Definition worker_id_arg (isScript : bool) (worker : ChildProcess) : string :=
  nth (if isScript then 4 else 3) (args worker) "".

(** ** Measures used by the statements *)

(** The program [startPythonServer] launches is there. *)
Definition server_found (h : Host) : bool :=
  if isDev h then existsSync h (serverScript h) && bool_decide (is_Some (findPython h))
  else existsSync h (serverExe h).

(** The program [startTranscriptionWorker] launches is there. *)
Definition worker_found (h : Host) : bool :=
  if isDev h then existsSync h (workerScript h) && bool_decide (is_Some (findPython h))
  else existsSync h (workerExe h).

(** The failed health requests before the first that succeeds, among the
    [remaining] ones counted from [n]. *)
Fixpoint failed_probes (probe : nat -> bool) (n remaining : nat) : nat :=
  match remaining with
  | O => 0
  | S r => if probe n then 0 else S (failed_probes probe (S n) r)
  end.

Definition count_fetch (t : list Tick) : nat := length (List.filter is_fetch t).

(** The iterations from [i] on, among [remaining], whose spawn gets a pid,
    and those whose spawn gets none. *)
Fixpoint spawn_successes (os_pid : nat -> option positive) (remaining i : nat) : nat :=
  match remaining with
  | O => 0
  | S r => match os_pid i with Some _ => 1 | None => 0 end + spawn_successes os_pid r (S i)
  end.

Fixpoint spawn_failures (os_pid : nat -> option positive) (remaining i : nat) : nat :=
  match remaining with
  | O => 0
  | S r => match os_pid i with Some _ => 0 | None => 1 end + spawn_failures os_pid r (S i)
  end.

(** No service child is alive and no restart is pending. *)
Definition quiescent (s : Supervisor) : bool :=
  forallb (fun '(_, st) => status_eqb st Exited) (service_procs s)
  && (restart_timers s =? 0)%nat.

(** The events that start or stop the service on request. *)
Definition is_control (ev : Event) : bool :=
  match ev with
  | AppReady _ _ | RestartServer _ _ _ | BeforeQuit _ => true
  | GetServerStatus | ServiceClose _ _ | TimerFires _ _ => false
  end.



(** The objects of the children on record were numbered before [next_obj]. *)
Definition fresh_objs (s : Supervisor) : Prop :=
  Forall (fun '(p, _) => obj p < next_obj s) (service_procs s).



(** ** Hosts and scenarios the examples run on *)

(** A packaged installation on Linux with both bundles in place. *)
Definition packaged_host : Host :=
  {| isDev := false; win32 := false;
     existsSync := fun _ => true;
     findPython := None;
     pythonPath := "/opt/CourseVault/python";
     serverScript := "/opt/CourseVault/python/course_library_server.py";
     serverExe := "/opt/CourseVault/resources/python-dist/coursevault-server/coursevault-server";
     workerScript := "/opt/CourseVault/python/parallel_worker.py";
     workerExe := "/opt/CourseVault/resources/python-dist/coursevault-worker/coursevault-worker";
     dirname := fun p => p;
     documents := "/home/user/Documents" |}.


Definition four_workers : PoolSettings :=
  {| sourceDirectories := ["/home/user/Courses"]; gpuAcceleration := true;
     parallelWorkers := 4 |}.

Definition one_worker : PoolSettings :=
  {| sourceDirectories := ["/home/user/Courses"]; gpuAcceleration := false;
     parallelWorkers := 1 |}.

(** The service is started, restarted from the control channel, the process
    killed by the restart exits, and the timer of its close handler fires. *)
Definition restart_then_exit : list Event :=
  [ AppReady 8080 (Some 100%positive);
    RestartServer false 8080 (Some 101%positive);
    ServiceClose 0 None ].

Definition restart_then_exit_then_timer : list Event :=
  restart_then_exit ++ [TimerFires 8080 (Some 102%positive)].

(** The service crashes, is restarted from the control channel before the
    timer of the crash fires, and the timer fires. *)
Definition crash_restart_timer : list Event :=
  [ AppReady 8080 (Some 100%positive);
    ServiceClose 0 (Some 1%Z);
    RestartServer false 8080 (Some 101%positive);
    TimerFires 8080 (Some 102%positive) ].

(** ** The validators in the words of the specification

    [valid_setting key value] says that [key] is one of the nine setting
    names and that [value] has the type and lies in the range fixed for that
    name. *)

Definition is_integer (value : Value) (z : Z) : Prop :=
  exists q, value = VNumber (Finite q) /\ Qeq q (inject_Z z).

Definition is_number (value : Value) : Prop :=
  exists n, value = VNumber n /\ n <> NaN.

(** The object has the property [k], with the value [v]. *)
Definition field_of (k : string) (v : Value) (fields : list (string * Value)) : Prop :=
  exists before after,
    fields = before ++ (k, v) :: after /\ Forall (fun kv => fst kv <> k) before.

Definition valid_setting (key : string) (value : Value) : Prop :=
  (key = "transcriptsPath" /\ exists s, value = VString s) \/
  (key = "sourceDirectories" /\ exists dirs, value = VArray (map VString dirs)) \/
  (key = "serverPort" /\ exists z, is_integer value z /\ (1024 <= z <= 65535)%Z) \/
  (key = "theme" /\ (value = VString "dark" \/ value = VString "light")) \/
  (key = "llmBackend" /\
     (value = VNull \/ value = VString "ollama" \/ value = VString "lmstudio"
      \/ value = VString "openai")) \/
  (key = "whisperModel" /\ exists s, value = VString s) \/
  (key = "gpuAcceleration" /\ exists b, value = VBool b) \/
  (key = "parallelWorkers" /\ exists z, is_integer value z /\ (1 <= z <= 8)%Z) \/
  (key = "windowBounds" /\
     exists fields w h, value = VObject fields
       /\ field_of "width" w fields /\ field_of "height" h fields
       /\ is_number w /\ is_number h).

(** What a valid request hands to the store: the value itself, and for
    [windowBounds] the object of its two known properties. *)
Definition accepted_value (key : string) (value data : Value) : Prop :=
  (key <> "windowBounds" /\ data = value)
  \/ (key = "windowBounds" /\
      exists fields w h, value = VObject fields
        /\ field_of "width" w fields /\ field_of "height" h fields
        /\ data = VObject [("width", w); ("height", h)]).

(** A number as the file of the store holds it: an infinite one is written
    as [null]. *)
Definition number_as_stored (w : Value) : Value :=
  match w with
  | VNumber (Finite q) => w
  | _ => VNull
  end.

(** What the store holds under [key] after a valid request. *)
Definition stored_setting (key : string) (value stored : Value) : Prop :=
  (key <> "windowBounds" /\ stored = value)
  \/ (key = "windowBounds" /\
      exists fields w h, value = VObject fields
        /\ field_of "width" w fields /\ field_of "height" h fields
        /\ stored = VObject [("width", number_as_stored w);
                             ("height", number_as_stored h)]).

(** * Further parts of the main process and of the renderer console *)

(** ** The settings store over a session *)

(** The names the schema knows. *)
Definition setting_names : list string := map fst settingsSchema.

(** The [defaults] of the store; [transcripts] is
    [path.join(os.homedir(), 'Documents', 'CourseVault', 'transcripts')] and
    [docs] is [path.join(os.homedir(), 'Documents')]. *)
Definition store_defaults (transcripts docs : string) : gmap string Value :=
  <["transcriptsPath" := VString transcripts]>
  (<["sourceDirectories" := VArray [VString docs]]>
  (<["serverPort" := VNumber (num 8080)]>
  (<["theme" := VString "dark"]>
  (<["llmBackend" := VNull]>
  (<["whisperModel" := VString "base.en"]>
  (<["gpuAcceleration" := VBool true]>
  (<["parallelWorkers" := VNumber (num 1)]>
  (<["windowBounds" :=
       VObject [("width", VNumber (num 1400)); ("height", VNumber (num 900))]]>
   ∅)))))))).

(** The resize handler of the window:
    [store.set('windowBounds', { width, height })] with the two integers of
    [mainWindow.getSize()]. *)
Definition on_resize (width height : Z) (store : gmap string Value) : gmap string Value :=
  <["windowBounds" :=
      json_image (VObject [("width", VNumber (num width));
                           ("height", VNumber (num height))])]> store.

(** What writes to the store in [main.ts]. *)
Inductive StoreEvent :=
| SetSettings (key : string) (value : Value)   (* IPC set-settings *)
| Resize (width height : Z).                   (* resize event of the window *)

Definition store_step (store : gmap string Value) (ev : StoreEvent) : gmap string Value :=
  match ev with
  | SetSettings key value => snd (fst (set_settings store key value))
  | Resize width height => on_resize width height store
  end.

Definition store_run (store : gmap string Value) (evs : list StoreEvent)
  : gmap string Value :=
  fold_left store_step evs store.

(** The [get-settings] handler returns [store.store]. *)
Definition get_settings (store : gmap string Value) : gmap string Value := store.

(** *** The pool settings as the store holds them

    [startTranscriptionWorker] casts what it reads ([as string[]],
    [as boolean], [as number]); the reading is [None] when the stored value
    is not of the type of the cast. A missing value is [undefined]: the
    default directory list, a false flag, and the worker count 1 of [|| 1]. *)

Fixpoint as_strings (items : list Value) : option (list string) :=
  match items with
  | [] => Some []
  | VString s :: rest => option_map (cons s) (as_strings rest)
  | _ :: _ => None
  end.

Definition read_sourceDirectories (h : Host) (store : gmap string Value)
  : option (list string) :=
  match store !! "sourceDirectories" with
  | Some (VArray items) => as_strings items
  | Some VNull | Some VUndefined | None => Some [documents h]
  | Some _ => None
  end.

Definition read_gpuAcceleration (store : gmap string Value) : option bool :=
  match store !! "gpuAcceleration" with
  | Some (VBool b) => Some b
  | Some VUndefined | None => Some false
  | Some _ => None
  end.

Definition read_parallelWorkers (store : gmap string Value) : option nat :=
  match store !! "parallelWorkers" with
  | Some (VNumber (Finite q)) =>
      if Number_isInteger (Finite q) && Qle_bool 0 q
      then Some (Z.to_nat (Qnum q / Z.pos (Qden q))) else None
  | Some VUndefined | None => Some 0
  | Some _ => None
  end.

Definition pool_settings_of_store (h : Host) (store : gmap string Value)
  : option PoolSettings :=
  match read_sourceDirectories h store, read_gpuAcceleration store,
        read_parallelWorkers store with
  | Some dirs, Some gpu, Some n =>
      Some {| sourceDirectories := dirs; gpuAcceleration := gpu; parallelWorkers := n |}
  | _, _, _ => None
  end.

(** ** The encrypted store of secrets *)

Definition SECURE_KEYS : list string := ["openaiApiKey"].

Definition secure_defaults : gmap string Value := <["openaiApiKey" := VNull]> ∅.

(** The [get-secure-setting] handler. *)
Definition get_secure_setting (secureStore : gmap string Value) (key : string)
  : Value * list Effect :=
  if existsb (String.eqb key) SECURE_KEYS
  then (default VUndefined (secureStore !! key), [])
  else (VNull, [ConsoleWarn ("Rejected get-secure-setting for unknown key: " ++ key)]).

(** The [set-secure-setting] handler; the answer is [None] when
    [secureStore.set] throws, which it does for [undefined]. The encrypted
    store is a JSON file as well: it holds the JSON image of what is set. *)
Definition set_secure_setting (secureStore : gmap string Value) (key : string)
    (value : Value) : option bool * gmap string Value * list Effect :=
  if existsb (String.eqb key) SECURE_KEYS then
    match value with
    | VUndefined => (None, secureStore, [])
    | _ => (Some true, <[key := json_image value]> secureStore, [])
    end
  else (Some false, secureStore,
        [ConsoleWarn ("Rejected set-secure-setting for unknown key: " ++ key)]).

(** Every name of the schema has a value, every value is what a valid
    request for its name leaves in the store, and no other name is present. *)
Definition store_valid (store : gmap string Value) : Prop :=
  map_Forall (fun k v => exists value, valid_setting k value /\ stored_setting k value v)
             store
  /\ Forall (fun k => is_Some (store !! k)) setting_names.

(** A finite number, or the [null] the file holds for an infinite one. *)
Definition number_or_null (v : Value) : Prop :=
  v = VNull \/ exists q, v = VNumber (Finite q).

(** ** The worker pool over a session *)

(** What the pool reacts to; a start reads the settings of the moment. *)
Inductive PoolEvent :=
| StartTranscription (cfg : PoolSettings) (win : bool) (now : nat -> Z)
    (os_pid : nat -> option positive)
    (* IPC start-transcription, and the automatic start *)
| StopTranscription (threw : nat -> bool)
    (* IPC stop-transcription, before-quit and quit *)
| WorkerClose (worker i : nat) (code : option Z) (win : bool)
    (* close event of the worker spawned in iteration i *)
| GetTranscriptionStatus.
    (* IPC get-transcription-status *)

Definition pool_step (h : Host) (s : Pool) (ev : PoolEvent) : Pool * list Effect :=
  match ev with
  | StartTranscription cfg win now os_pid =>
      fst (startTranscriptionWorker h cfg win now os_pid s)
  | StopTranscription threw => stopTranscriptionWorker h threw s
  | WorkerClose worker i code win => on_worker_close worker i code win s
  | GetTranscriptionStatus => (s, [])
  end.

Fixpoint pool_run (h : Host) (s : Pool) (evs : list PoolEvent) : Pool * list Effect :=
  match evs with
  | [] => (s, [])
  | ev :: rest =>
      let '(s1, e1) := pool_step h s ev in
      let '(s2, e2) := pool_run h s1 rest in
      (s2, e1 ++ e2)
  end.

(** The number of workers an event asks for. *)
Definition requested (ev : PoolEvent) : nat :=
  match ev with
  | StartTranscription cfg _ _ _ => workerCount cfg
  | _ => 0
  end.

(** The children that are sent SIGTERM, by [kill('SIGTERM')] or by [kill()]
    (recorded with an empty signal name), whose default signal it is; and the
    pids given to taskkill. *)
Definition sigterms (effs : list Effect) : list nat :=
  omap (fun e => match e with
                 | KillSignal c sig =>
                     if String.eqb sig "SIGTERM" || String.eqb sig EmptyString
                     then Some c else None
                 | _ => None
                 end) effs.

(** The termination requests [stopTranscriptionWorker] makes for one worker
    off Windows: one, and the fallback when the first throws. *)
Definition sigterm_requests (threw : nat -> bool) (worker : ChildProcess) : list nat :=
  obj worker :: (if threw (obj worker) then [obj worker] else []).

Definition taskkills (effs : list Effect) : list positive :=
  omap (fun e => match e with Taskkill p => Some p | _ => None end) effs.

(** The tracked workers have a pid and an object older than [pool_next_obj],
    and no object is tracked twice. *)
Definition pool_wf (s : Pool) : Prop :=
  Forall (fun w => is_Some (pid w) /\ obj w < pool_next_obj s) (transcriptionWorkers s)
  /\ List.NoDup (map obj (transcriptionWorkers s)).

(** ** The service over a session *)

(** The events that ask for a start of the service. *)
Definition requests_start (ev : Event) : bool :=
  match ev with
  | AppReady _ _ | RestartServer _ _ _ => true
  | GetServerStatus | ServiceClose _ _ | TimerFires _ _ | BeforeQuit _ => false
  end.

(** The close event of the child [c]. *)
Definition is_close_of (c : nat) (ev : Event) : bool :=
  match ev with
  | ServiceClose c' _ => (c' =? c)%nat
  | _ => false
  end.

(** The invariant of a running child [p] that is not in the handle. *)
Definition out_of_handle (p : ChildProcess) (s : Supervisor) : Prop :=
  In (p, Running) (service_procs s)
  /\ obj p < next_obj s
  /\ (forall child, pythonProcess s = Some child -> obj child <> obj p).

Definition is_timeout (e : Effect) : bool :=
  match e with SetTimeout _ => true | _ => false end.

(** The children that are asked to terminate: by signal, and by pid. *)
Definition signalled (effs : list Effect) : list nat :=
  omap (fun e => match e with KillSignal c _ => Some c | _ => None end) effs.

(** What a promise writes to the console while it is pending. *)
Definition consoles (t : list Tick) : list Effect :=
  omap (fun x => match x with TConsole e => Some e | _ => None end) t.

(** The progress line of [waitForServer] in iteration [i]. *)
Definition still_initializing (i : nat) : Effect :=
  ConsoleLog ("Server still initializing... (" ++ string_of_nat (i * 2) ++ "s elapsed)").

(** The iterations among [n] from [i] on whose index is a multiple of 10. *)
Definition tenth_iterations (i n : nat) : list nat :=
  List.filter (fun k => (k mod 10 =? 0)%nat) (seq i n).

(** ** Looking up programs *)

Definition pythonCommands : list string := ["python"; "python3"; "py"].

(** [findPython]: the first command whose [--version] output holds
    [Python 3]; [version cmd] is the output of [execSync], [None] when it
    throws. The result [None] is the exception thrown after the loop. *)
Fixpoint first_python (version : string -> option string) (cmds : list string)
  : option string :=
  match cmds with
  | [] => None
  | cmd :: rest =>
      match version cmd with
      | Some result => if includes "Python 3" result then Some cmd
                       else first_python version rest
      | None => first_python version rest
      end
  end.

Definition findPython_search (version : string -> option string) : option string :=
  first_python version pythonCommands.

(** [findOllamaPath]; [user_install] is the path under the home directory,
    [path.join(os.homedir(), 'AppData', 'Local', 'Programs', 'Ollama',
    'ollama.exe')]. *)
Definition ollama_candidates (user_install : string) : list string :=
  [user_install; "C:\Program Files\Ollama\ollama.exe";
   "C:\Program Files (x86)\Ollama\ollama.exe"].

Definition findOllamaPath (h : Host) (user_install : string) : string :=
  if win32 h
  then default "ollama" (List.find (existsSync h) (ollama_candidates user_install))
  else "ollama".

(** ** Starting the dependent services *)

(** [autoStartOllama]; [llmBackend] is the stored backend ([None] for
    [null]) and [child] the object [spawn] returns. The requests go to
    [/api/tags] and are answered by [true] for the status 200. *)
Definition ollama_tags : string := "http://127.0.0.1:11434/api/tags".



(** How the request of [start-ollama] for [/api/tags] ends: by a response
    with its status code, by an error of the request, or by the time-out of
    5000 ms. *)
Inductive TagsAnswer :=
| TagsStatus (statusCode : Z)
| TagsError
| TagsTimeout.

(** The answer of the handler: [success], and [error] when it is there. *)
Record OllamaReply := {
  reply_success : bool;
  reply_error : option string
}.

(** The [start-ollama] handler. [spawn_result] is what [spawn] gives: the
    text of the exception it throws, or the identity and the pid of the child
    it returns. The [catch] block answers with the text of the exception. *)
Definition start_ollama (h : Host) (user_install : string)
    (spawn_result : string + (nat * option positive)) (answer : TagsAnswer)
  : list Tick * OllamaReply :=
  let ollamaPath := findOllamaPath h user_install in
  let child := fun r : nat * option positive =>
    {| obj := fst r; pid := snd r; args := ["serve"] |} in
  let caught := fun err : string =>
    ([TConsole (ConsoleError "Failed to start Ollama:")],
     {| reply_success := false; reply_error := Some err |}) in
  if win32 h then
    let '(t, reply) :=
      match spawn_result with
      | inl err => caught err
      | inr r =>
          ([TConsole (Spawn ollamaPath (child r));
            TConsole (ConsoleLog "Started Ollama serve process");
            TSleep 3000%N; TFetch ollama_tags],
           match answer with
           | TagsStatus statusCode =>
               {| reply_success := (statusCode =? 200)%Z; reply_error := None |}
           | TagsError =>
               {| reply_success := false; reply_error := Some "Ollama not responding" |}
           | TagsTimeout =>
               {| reply_success := false; reply_error := Some "Timeout" |}
           end)
      end in
    (TConsole (ConsoleLog ("Starting Ollama from: " ++ ollamaPath)) :: t, reply)
  else
    match spawn_result with
    | inl err => caught err
    | inr r =>
        ([TConsole (Spawn ollamaPath (child r)); TSleep 3000%N],
         {| reply_success := true; reply_error := None |})
    end.

(** The children a pending promise spawns. *)
Definition spawned_while (t : list Tick) : list ChildProcess := spawned (consoles t).

(** *** The automatic start of the pool *)

(** What a request for [/api/transcription-status] gives: an exception
    (network error, time-out of 10000 ms), or a response with its [ok] flag
    and what [response.json()] yields: [None] when it throws or yields
    [null], whose properties cannot be read, else the numbers under [pending]
    and [in_progress], each [None] when absent. *)
Inductive StatusFetch :=
| FetchThrows
| FetchResponse (ok : bool) (body : option (option Z * option Z)).

Inductive CoordAction :=
| CSleep (ms : N)
| CFetch (url : string) (timeout_ms : N)
| CConsole (e : Effect)
| CStartPool.            (* a call of startTranscriptionWorker() *)

(** The retry loop at [attempt], with [remaining] attempts left;
    [response] is the variable of that name. *)
Fixpoint fetch_status_loop (url : string) (answers : nat -> StatusFetch)
    (remaining attempt : nat) (response : option (bool * option (option Z * option Z)))
  : list CoordAction * option (bool * option (option Z * option Z)) :=
  match remaining with
  | O => ([], response)
  | S r =>
      match answers attempt with
      | FetchThrows =>
          let '(acts, resp) := fetch_status_loop url answers r (S attempt) response in
          (CFetch url 10000%N
           :: CConsole (ConsoleLog ("Transcription status check attempt "
                                    ++ string_of_nat attempt ++ "/3 failed:"))
           :: (if (attempt <? 3)%nat then [CSleep 2000%N] else []) ++ acts, resp)
      | FetchResponse ok body =>
          if ok then ([CFetch url 10000%N], Some (ok, body))
          else
            let '(acts, resp) :=
              fetch_status_loop url answers r (S attempt) (Some (ok, body)) in
            (CFetch url 10000%N :: acts, resp)
      end
  end.

(** The [catch] block of [autoStartTranscriptionWorker]. *)
Definition start_on_failure : list CoordAction :=
  [CConsole (ConsoleError "Error checking transcription status for auto-start:");
   CConsole (ConsoleLog "Starting transcription worker due to status check failure");
   CStartPool].

(** [autoStartTranscriptionWorker]; [start_throws k] tells whether the call
    number [k] of [startTranscriptionWorker] throws. The second component is
    [false] when the promise is rejected. *)
Definition autoStartTranscriptionWorker (port : Z) (answers : nat -> StatusFetch)
    (start_throws : nat -> bool) : list CoordAction * bool :=
  let url := ("http://127.0.0.1:" ++ string_of_Z port ++ "/api/transcription-status")%string in
  let '(acts, response) := fetch_status_loop url answers 3 1 None in
  let start_in_try (before : list CoordAction) :=
    if start_throws 0
    then (before ++ [CStartPool] ++ start_on_failure, negb (start_throws 1))
    else (before ++ [CStartPool], true) in
  let '(tail, resolved) :=
    match response with
    | Some (true, Some (pending, in_progress)) =>
        let pendingCount := default 0%Z pending in
        let inProgressCount := default 0%Z in_progress in
        let line := CConsole (ConsoleLog ("Transcription status: "
                                          ++ string_of_Z pendingCount ++ " pending, "
                                          ++ string_of_Z inProgressCount ++ " in progress")) in
        if (0 <? pendingCount)%Z || (0 <? inProgressCount)%Z
        then start_in_try
               [line; CConsole (ConsoleLog
                                  "Auto-starting transcription worker for pending courses...")]
        else ([line; CConsole (ConsoleLog "All courses transcribed, worker not started")],
              true)
    | Some (true, None) => (start_on_failure, negb (start_throws 0))
    | _ =>
        start_in_try
          [CConsole (ConsoleLog
             "Could not fetch transcription status, starting worker anyway (may have pending work)")]
    end in
  (CSleep 3000%N :: acts ++ tail, resolved).

Definition is_start_pool (a : CoordAction) : bool :=
  match a with CStartPool => true | _ => false end.

Definition is_cfetch (a : CoordAction) : bool :=
  match a with CFetch _ _ => true | _ => false end.

Definition csleeps (acts : list CoordAction) : list N :=
  omap (fun a => match a with CSleep ms => Some ms | _ => None end) acts.

(** The body of the first response with [ok] among the attempts 1, 2, 3. *)
Definition first_ok_body (answers : nat -> StatusFetch)
  : option (option (option Z * option Z)) :=
  match answers 1 with
  | FetchResponse true b => Some b
  | _ => match answers 2 with
         | FetchResponse true b => Some b
         | _ => match answers 3 with
                | FetchResponse true b => Some b
                | _ => None
                end
         end
  end.

(** The attempts the retry loop makes: it stops at the first answer that is
    [ok], and after the third. *)
Definition answer_ok (a : StatusFetch) : bool :=
  match a with FetchResponse true _ => true | _ => false end.

Definition answer_throws (a : StatusFetch) : bool :=
  match a with FetchThrows => true | _ => false end.

Definition attempts_made (answers : nat -> StatusFetch) : list nat :=
  if answer_ok (answers 1) then [1]
  else if answer_ok (answers 2) then [1; 2]
  else [1; 2; 3].

(** ** Licence keys *)

(** [s.indexOf(c)] and [s.lastIndexOf(c)] for a one-character [c]; [None]
    is the answer -1. *)
Fixpoint indexOf (c : ascii) (s : string) : option nat :=
  match s with
  | EmptyString => None
  | String a s' => if Ascii.eqb a c then Some 0 else option_map S (indexOf c s')
  end.

Fixpoint lastIndexOf (c : ascii) (s : string) : option nat :=
  match s with
  | EmptyString => None
  | String a s' =>
      match lastIndexOf c s' with
      | Some i => Some (S i)
      | None => if Ascii.eqb a c then Some 0 else None
      end
  end.

(** [s.substring(n)] *)
Fixpoint substring_from (n : nat) (s : string) : string :=
  match n, s with
  | O, _ => s
  | S n', String _ s' => substring_from n' s'
  | S _, EmptyString => EmptyString
  end.

Record LicensePayload := {
  payload_tier : string;
  payload_email : string;
  payload_issued : string;
  payload_expires : option string;
  payload_machineLimit : Z;
  payload_features : list string
}.

Record LicenseValidationResult := {
  valid : bool;
  tier : string;
  status : string;
  email : option string;
  expiresAt : option string;
  features : list string;
  error : option string
}.

Definition FREE_FEATURES : list string := ["transcribe"; "summarize"; "chat"].

Definition invalidResult (err : string) : LicenseValidationResult :=
  {| valid := false; tier := "free"; status := "invalid"; email := None;
     expiresAt := None; features := FREE_FEATURES; error := Some err |}.

Section License.

(** [verify data signature]: [crypto.verify] of the Ed25519 signature, given
    in base64url, over [data] with the public key of the application, or the
    text of the exception it throws. *)
Variable verify : string -> string -> string + bool.

(** The payload decoded from base64url and parsed as JSON, or the text of
    the exception this throws.  The parsed object is read as the
    [LicensePayload] the source casts it to. *)
Variable decode_payload : string -> string + LicensePayload.

(** [new Date(expires) < new Date()] *)
Variable expired : string -> bool.

Definition validateLicenseKey (key : string) : LicenseValidationResult :=
  if negb (truthy_string key) || negb (startsWith "CV-" key) then
    invalidResult "Invalid key format: must start with CV-"
  else
    let withoutPrefix := substring_from 3 key in
    match indexOf "-" withoutPrefix with
    | None => invalidResult "Invalid key format: missing tier separator"
    | Some dashIndex =>
        let tierPart := substring0 dashIndex withoutPrefix in
        let rest := substring_from (dashIndex + 1) withoutPrefix in
        match lastIndexOf "." rest with
        | None => invalidResult "Invalid key format: missing signature"
        | Some dotIndex =>
            let payloadBase64 := substring0 dotIndex rest in
            let signatureBase64 := substring_from (dotIndex + 1) rest in
            let dataToVerify := (tierPart ++ "-" ++ payloadBase64)%string in
            match verify dataToVerify signatureBase64 with
            | inl err => invalidResult ("License validation error: " ++ err)
            | inr false =>
                invalidResult "Invalid license key: signature verification failed"
            | inr true =>
                match decode_payload payloadBase64 with
                | inl err => invalidResult ("License validation error: " ++ err)
                | inr payload =>
                    let is_expired :=
                      match payload_expires payload with
                      | Some e => truthy_string e && expired e
                      | None => false
                      end in
                    if is_expired then
                      {| valid := false; tier := payload_tier payload; status := "expired";
                         email := Some (payload_email payload);
                         expiresAt := payload_expires payload;
                         features := FREE_FEATURES; error := Some "License has expired" |}
                    else
                      {| valid := true; tier := payload_tier payload; status := "valid";
                         email := Some (payload_email payload);
                         expiresAt := payload_expires payload;
                         features := payload_features payload; error := None |}
                end
            end
        end
    end.

End License.

(** The payload says the licence is over. *)
Definition payload_expired (expired : string -> bool) (payload : LicensePayload) : bool :=
  match payload_expires payload with
  | Some e => truthy_string e && expired e
  | None => false
  end.

(** ** The licence generator ([tools/generate-license.js])

    The command line passes one of the two paid tiers. *)

Inductive Tier := pro | pro_plus.

Definition tier_name (t : Tier) : string :=
  match t with pro => "pro" | pro_plus => "pro_plus" end.

Definition TIER_FEATURES (t : Tier) : list string :=
  match t with
  | pro => ["transcribe"; "summarize"; "chat"; "export"; "unlimited_courses"]
  | pro_plus => ["transcribe"; "summarize"; "chat"; "export"; "unlimited_courses";
                 "cloud_backup"; "auto_transcribe"]
  end.

Definition tierPrefix (t : Tier) : string :=
  match t with pro_plus => "PROPLUS" | pro => "PRO" end.

(** [months || 1]; [None] is [undefined] or the [NaN] of [parseInt]. *)
Definition months_or_1 (months : option Z) : Z :=
  match months with
  | Some m => if (m =? 0)%Z then 1%Z else m
  | None => 1%Z
  end.

Section Generator.

(** [crypto.sign] with the private key, the signature in base64url. *)
Variable sign : string -> string.

(** [JSON.stringify] of the payload, in base64url. *)
Variable encode_payload : LicensePayload -> string.

(** The date of today, as [toISOString] prints it. *)
Variable today : string.

(** The date so many months from now; [None] when [toISOString] throws
    because the date is out of range. *)
Variable expiry_in : Z -> option string.

(** The payload [generateLicenseKey] signs. *)
Definition license_payload (t : Tier) (mail : string) (months : option Z)
  : option LicensePayload :=
  let payload :=
    {| payload_tier := tier_name t; payload_email := mail; payload_issued := today;
       payload_expires := None; payload_machineLimit := 3;
       payload_features := TIER_FEATURES t |} in
  match t with
  | pro_plus =>
      match expiry_in (months_or_1 months) with
      | Some e =>
          Some {| payload_tier := payload_tier payload;
                  payload_email := payload_email payload;
                  payload_issued := payload_issued payload;
                  payload_expires := Some e;
                  payload_machineLimit := payload_machineLimit payload;
                  payload_features := payload_features payload |}
      | None => None
      end
  | pro => Some payload
  end.

Definition generateLicenseKey (t : Tier) (mail : string) (months : option Z)
  : option string :=
  match license_payload t mail months with
  | None => None
  | Some payload =>
      let payloadBase64 := encode_payload payload in
      let dataToSign := (tierPrefix t ++ "-" ++ payloadBase64)%string in
      let signatureBase64 := sign dataToSign in
      Some ("CV-" ++ tierPrefix t ++ "-" ++ payloadBase64 ++ "." ++ signatureBase64)%string
  end.

End Generator.

(** ** Output of the service ([main.ts], [StatusBar.tsx])

    The marker of an access log is [HTTP/1.1], a double quote, a space and
    the status code. *)

Definition access_marker (code : string) : string :=
  Eval cbv in ("HTTP/1.1" ++ String "034"%char (String " "%char code))%string.

Definition isAccessLog (message : string) : bool :=
  includes (access_marker "200") message
  || includes (access_marker "304") message
  || includes (access_marker "204") message.

(** The handlers of the standard output and of the standard error of the
    service; [win] says that the main window exists and is not destroyed. *)
Definition on_python_stdout (win : bool) (data : string) : list Effect :=
  ConsoleLog ("[Python] " ++ data)
  :: (if win then [Send "python-log" (VString data)] else []).

Definition on_python_stderr (win : bool) (message : string) : list Effect :=
  if isAccessLog message then []
  else ConsoleError ("[Python Error] " ++ message)
       :: (if win then [Send "python-error" (VString message)] else []).

Definition classify_python_line (trimmed : string) : LogType :=
  if includes "[DONE]" trimmed then Success
  else if includes "[ERROR]" trimmed then Error
  else if includes "[WARN]" trimmed || includes "[SKIP]" trimmed then Warning
  else Info.

(** The listener given to [onPythonLog]. *)
Definition onPythonLog (log : string) (logs : list LogEntry) : list LogEntry :=
  let trimmed := trim log in
  if truthy_string trimmed then addLog trimmed (classify_python_line trimmed) logs
  else logs.

(** The listener given to [onPythonError].  [toLowerCase] lowers the letters
    A to Z; no other code unit below 256 lowers to a letter of [error]. *)
Definition onPythonError (error : string) (logs : list LogEntry) : list LogEntry :=
  let trimmed := trim error in
  if truthy_string trimmed
     && negb (includes (access_marker "200") trimmed)
     && negb (includes (access_marker "304") trimmed)
  then addLog trimmed (if includes "error" (toLowerCase trimmed) then Error else Info) logs
  else logs.

(** What the renderer does with an effect of the main process on the two
    channels of the service. *)
Definition deliver_python (logs : list LogEntry) (e : Effect) : list LogEntry :=
  match e with
  | Send channel (VString text) =>
      if String.eqb channel "python-log" then onPythonLog text logs
      else if String.eqb channel "python-error" then onPythonError text logs
      else logs
  | _ => logs
  end.

Definition deliver_python_all (logs : list LogEntry) (effs : list Effect) : list LogEntry :=
  fold_left deliver_python effs logs.

(** ** The console as a whole *)

(** No two neighbours carry the same message. *)
Fixpoint no_repeat (l : list LogEntry) : bool :=
  match l with
  | e1 :: tl =>
      match tl with
      | e2 :: _ => negb (String.eqb (message e1) (message e2)) && no_repeat tl
      | [] => true
      end
  | [] => true
  end.

(** A sequence of calls of [addLog]. *)
Definition log_all (calls : list (string * LogType)) (prev : list LogEntry)
  : list LogEntry :=
  fold_left (fun logs c => addLog (fst c) (snd c) logs) calls prev.

(** * Theorems *)

(** ** Settings *)

Lemma isInteger_iff (q : Q) :
  Number_isInteger (Finite q) = true <-> exists z, Qeq q (inject_Z z).
Proof.
  unfold Number_isInteger, Qeq. simpl. split.
  - intros H. apply Z.eqb_eq in H.
    exists (Qnum q / Z.pos (Qden q))%Z.
    pose proof (Z.div_mod (Qnum q) (Z.pos (Qden q)) ltac:(lia)) as E.
    rewrite H in E. lia.
  - intros [z Hz]. apply Z.eqb_eq.
    replace (Qnum q) with (z * Z.pos (Qden q))%Z by lia.
    apply Z.mod_mul. lia.
Qed.

Lemma z_int_range_iff (lo hi : Z) (value : Value) :
  z_int_range lo hi value = Some value
  <-> exists z, is_integer value z /\ (lo <= z <= hi)%Z.
Proof.
  unfold z_int_range, z_number, is_integer. split.
  - destruct value as [| | |[q| |neg]| | |]; try discriminate.
    destruct (Number_isInteger (Finite q)) eqn:Hi; try discriminate.
    simpl. destruct (Qle_bool (inject_Z lo) q) eqn:Hlo; try discriminate.
    destruct (Qle_bool q (inject_Z hi)) eqn:Hhi; try discriminate.
    intros _. apply isInteger_iff in Hi as [z Hz]. exists z. split; [eauto|].
    apply Qle_bool_iff in Hlo, Hhi. rewrite Hz in Hlo, Hhi.
    rewrite <- !Zle_Qle in *. lia.
  - intros (z & (q & -> & Hq) & Hz).
    assert (Hi : Number_isInteger (Finite q) = true) by (apply isInteger_iff; eauto).
    rewrite Hi. simpl.
    assert (Hlo : Qle_bool (inject_Z lo) q = true).
    { apply Qle_bool_iff. rewrite Hq, <- Zle_Qle. lia. }
    assert (Hhi : Qle_bool q (inject_Z hi) = true).
    { apply Qle_bool_iff. rewrite Hq, <- Zle_Qle. lia. }
    rewrite Hlo, Hhi. reflexivity.
Qed.

Lemma z_int_range_result (lo hi : Z) (value data : Value) :
  z_int_range lo hi value = Some data -> data = value.
Proof.
  unfold z_int_range. destruct (z_number value) as [[]|]; try discriminate.
  destruct (_ && _); congruence.
Qed.

Lemma parse_all_strings (items out : list Value) :
  parse_all z_string items = Some out
  <-> out = items /\ exists dirs, items = map VString dirs.
Proof.
  revert out. induction items as [|x rest IH]; intros out; simpl.
  - split.
    + intros [= <-]. split; [reflexivity|]. exists []. reflexivity.
    + intros [-> _]. reflexivity.
  - split.
    + destruct x; simpl; try discriminate.
      destruct (parse_all z_string rest) as [ys|] eqn:E; try discriminate.
      intros [= <-]. destruct (proj1 (IH ys) eq_refl) as [-> [dirs ->]].
      split; [reflexivity|]. exists (s :: dirs). reflexivity.
    + intros [-> [dirs Hd]]. destruct dirs as [|d dirs]; try discriminate.
      injection Hd as -> ->. simpl.
      rewrite (proj2 (IH (map VString dirs))); [reflexivity|].
      split; [reflexivity|]. exists dirs. reflexivity.
Qed.

Lemma z_number_iff (value : Value) :
  z_number value = Some value <-> is_number value.
Proof.
  unfold z_number, is_number. split.
  - destruct value as [| | |[q| |neg]| | |]; try discriminate; intros _; eexists; split;
      try reflexivity; discriminate.
  - intros (n & -> & Hn). destruct n; congruence.
Qed.

Lemma z_number_result (value data : Value) : z_number value = Some data -> data = value.
Proof. unfold z_number. destruct value as [| | |[| |]| | |]; congruence. Qed.

(** Reading a property picks the binding [field_of] describes. *)
Lemma get_field_of (k : string) (v : Value) (fields : list (string * Value)) :
  field_of k v fields -> get_field k fields = v.
Proof.
  intros (before & after & -> & Hb).
  induction Hb as [|[k' v'] before Hk _ IH]; cbn [app get_field].
  - rewrite String.eqb_refl. reflexivity.
  - cbn [fst] in Hk. destruct (String.eqb_spec k k') as [->|_]; [contradiction|]. exact IH.
Qed.

Lemma get_field_defined (k : string) (fields : list (string * Value)) :
  get_field k fields <> VUndefined -> field_of k (get_field k fields) fields.
Proof.
  induction fields as [|[k' v'] rest IH]; cbn [get_field]; [congruence|].
  destruct (String.eqb_spec k k') as [->|Hne]; intros H.
  - exists [], rest. split; [reflexivity|constructor].
  - destruct (IH H) as (before & after & E & Hb).
    exists ((k', v') :: before), after. split; [cbn; f_equal; exact E|].
    constructor; [cbn; congruence|exact Hb].
Qed.

Lemma field_of_number (k : string) (fields : list (string * Value)) :
  is_number (get_field k fields) -> field_of k (get_field k fields) fields.
Proof. intros (n & E & _). apply get_field_defined. rewrite E. discriminate. Qed.

(** The schema accepts exactly the valid settings, and what it yields is the
    accepted form of the value. *)
Lemma safeParse_valid (key : string) (value : Value) :
  valid_setting key value ->
  exists data, safeParse key value = Some data /\ accepted_value key value data.
Proof.
  unfold valid_setting, accepted_value.
  intros [[-> H]|[[-> H]|[[-> H]|[[-> H]|[[-> H]|[[-> H]|[[-> H]|[[-> H]|[-> H]]]]]]]]];
    cbn [safeParse union_option settingsSchema String.eqb Ascii.eqb Bool.eqb].
  - destruct H as [s ->]. eexists. split; [reflexivity|]. left. split; [discriminate|reflexivity].
  - destruct H as [dirs ->]. unfold z_array.
    rewrite (proj2 (parse_all_strings _ (map VString dirs))); [|split; eauto].
    eexists. split; [reflexivity|]. left. split; [discriminate|reflexivity].
  - exists value. split; [apply z_int_range_iff; exact H|]. left. split; [discriminate|reflexivity].
  - exists value. split; [destruct H as [-> | ->]; reflexivity|].
    left. split; [discriminate|reflexivity].
  - exists value. split; [destruct H as [-> | [-> | [-> | ->]]]; reflexivity|].
    left. split; [discriminate|reflexivity].
  - destruct H as [s ->]. eexists. split; [reflexivity|]. left. split; [discriminate|reflexivity].
  - destruct H as [b ->]. eexists. split; [reflexivity|]. left. split; [discriminate|reflexivity].
  - exists value. split; [apply z_int_range_iff; exact H|]. left. split; [discriminate|reflexivity].
  - destruct H as (fields & w & h & -> & Fw & Fh & Hw & Hh). unfold z_object. cbn [parse_shape].
    rewrite (get_field_of _ _ _ Fw), (get_field_of _ _ _ Fh).
    apply z_number_iff in Hw, Hh. rewrite Hw, Hh. eexists. split; [reflexivity|].
    right. split; [reflexivity|]. exists fields, w, h. auto.
Qed.

Lemma z_enum_inv (options : list string) (value data : Value) :
  z_enum options value = Some data ->
  data = value /\ exists s, value = VString s /\ In s options.
Proof.
  unfold z_enum. destruct value; try discriminate.
  destruct (existsb _ _) eqn:E; try discriminate. intros [= <-].
  split; [reflexivity|]. exists s. split; [reflexivity|].
  apply existsb_exists in E as (o & Hin & Ho). apply String.eqb_eq in Ho. subst. exact Hin.
Qed.

Lemma safeParse_inv (key : string) (value data : Value) :
  safeParse key value = Some data ->
  valid_setting key value /\ accepted_value key value data.
Proof.
  unfold safeParse, settingsSchema, union_option, valid_setting, accepted_value.
  repeat match goal with
         | |- context [String.eqb key ?k] => destruct (String.eqb_spec key k) as [->|?]
         end;
    try discriminate; intros H.
  - destruct value; try discriminate. injection H as <-.
    split; [left; eauto|left; split; [discriminate|reflexivity]].
  - destruct value; try discriminate.
    unfold z_array in H. destruct (parse_all z_string items) as [out|] eqn:E; try discriminate.
    apply parse_all_strings in E as [-> [dirs ->]]. injection H as <-.
    split; [right; left; eauto|left; split; [discriminate|reflexivity]].
  - pose proof (z_int_range_result _ _ _ _ H) as ->.
    split; [|left; split; [discriminate|reflexivity]].
    do 2 right; left. split; [reflexivity|]. apply z_int_range_iff. exact H.
  - apply z_enum_inv in H as (-> & s & -> & Hin).
    split; [|left; split; [discriminate|reflexivity]].
    do 3 right; left. split; [reflexivity|]. simpl in Hin.
    destruct Hin as [<- | [<- | []]]; auto.
  - assert (Hd : data = value /\ (value = VNull \/ value = VString "ollama"
                                   \/ value = VString "lmstudio" \/ value = VString "openai")).
    { destruct value; cbn [z_nullable] in H;
        try (apply z_enum_inv in H as (_ & s' & [=] & _); fail).
      - injection H as <-. auto.
      - apply z_enum_inv in H as (-> & s' & [= <-] & Hin). simpl in Hin.
        destruct Hin as [<- | [<- | [<- | []]]]; auto. }
    destruct Hd as [-> Hd].
    split; [do 4 right; left; auto|left; split; [discriminate|reflexivity]].
  - destruct value; try discriminate. injection H as <-.
    split; [do 5 right; left; eauto|left; split; [discriminate|reflexivity]].
  - destruct value; try discriminate. injection H as <-.
    split; [do 6 right; left; eauto|left; split; [discriminate|reflexivity]].
  - pose proof (z_int_range_result _ _ _ _ H) as ->.
    split; [|left; split; [discriminate|reflexivity]].
    do 7 right; left. split; [reflexivity|]. apply z_int_range_iff. exact H.
  - destruct value; try discriminate.
    unfold z_object in H. cbn [parse_shape] in H.
    destruct (z_number (get_field "width" fields)) as [w|] eqn:Ew; try discriminate.
    destruct (z_number (get_field "height" fields)) as [ht|] eqn:Eh; try discriminate.
    pose proof (z_number_result _ _ Ew) as ->. pose proof (z_number_result _ _ Eh) as ->.
    injection H as <-. apply z_number_iff in Ew, Eh.
    pose proof (field_of_number _ _ Ew) as Fw. pose proof (field_of_number _ _ Eh) as Fh.
    split.
    + do 8 right. split; [reflexivity|]. eexists fields, _, _. eauto 6.
    + right. split; [reflexivity|]. eexists fields, _, _. eauto.
Qed.

Lemma valid_setting_dec (key : string) (value : Value) :
  valid_setting key value \/ ~ valid_setting key value.
Proof.
  destruct (safeParse key value) as [data|] eqn:E.
  - left. eapply safeParse_inv, E.
  - right. intros H. apply safeParse_valid in H as (data & H & _). congruence.
Qed.

(** The JSON image keeps every accepted value but an infinite number. *)
Lemma json_image_strings (dirs : list string) :
  json_image (VArray (map VString dirs)) = VArray (map VString dirs).
Proof.
  cbn [json_image]. f_equal. induction dirs as [|d dirs IH]; [reflexivity|].
  cbn [map]. f_equal. exact IH.
Qed.

Lemma json_image_accepted (key : string) (value data : Value) :
  valid_setting key value -> accepted_value key value data ->
  key <> "windowBounds" -> json_image data = value.
Proof.
  intros Hv [[_ ->]|[-> _]] Hk; [|contradiction]. unfold valid_setting in Hv.
  destruct Hv as [[_ H]|[[_ H]|[[_ H]|[[_ H]|[[_ H]|[[_ H]|[[_ H]|[[_ H]|[-> _]]]]]]]]];
    try contradiction.
  - destruct H as [s ->]. reflexivity.
  - destruct H as [dirs ->]. apply json_image_strings.
  - destruct H as (z & (q & -> & _) & _). reflexivity.
  - destruct H as [-> | ->]; reflexivity.
  - destruct H as [-> | [-> | [-> | ->]]]; reflexivity.
  - destruct H as [s ->]. reflexivity.
  - destruct H as [b ->]. reflexivity.
  - destruct H as (z & (q & -> & _) & _). reflexivity.
Qed.

Lemma json_image_stored (key : string) (value data : Value) :
  valid_setting key value -> accepted_value key value data ->
  stored_setting key value (json_image data).
Proof.
  intros Hv Ha. destruct (String.eqb_spec key "windowBounds") as [->|Hk].
  - right. split; [reflexivity|].
    destruct Ha as [[Hk _]|(_ & fields & w & h & -> & Fw & Fh & ->)]; [contradiction|].
    destruct Hv as [[[=] _]|[[[=] _]|[[[=] _]|[[[=] _]|[[[=] _]|[[[=] _]|[[[=] _]|[[[=] _]|
      (_ & fields' & w' & h' & [= <-] & Fw' & Fh' & Hw & Hh)]]]]]]]].
    pose proof (get_field_of _ _ _ Fw) as E1. pose proof (get_field_of _ _ _ Fw') as E1'.
    pose proof (get_field_of _ _ _ Fh) as E2. pose proof (get_field_of _ _ _ Fh') as E2'.
    assert (w' = w) as -> by congruence. assert (h' = h) as -> by congruence.
    exists fields, w, h. split; [reflexivity|]. split; [exact Fw|]. split; [exact Fh|].
    destruct Hw as (nw & -> & Hnw), Hh as (nh & -> & Hnh).
    destruct nw, nh; try congruence; reflexivity.
  - left. split; [exact Hk|]. eapply json_image_accepted; eassumption.
Qed.

(** A [set-settings] request whose name is unknown, or whose value fails the
    validator fixed for its name, returns [false] and leaves the store as it
    was; a request whose value passes returns [true] and the store then holds
    under its name the value itself, or for [windowBounds] the object of the
    two numbers with an infinite one replaced by [null]; every other setting
    is unchanged. *)
Lemma set_settings_validated (store : gmap string Value) (key : string) (value : Value) :
  (valid_setting key value /\
     exists stored,
       stored_setting key value stored
       /\ set_settings store key value = (true, <[key := stored]> store, [])
       /\ (<[key := stored]> store) !! key = Some stored
       /\ (forall k, k <> key -> (<[key := stored]> store) !! k = store !! k))
  \/
  (~ valid_setting key value /\
     fst (fst (set_settings store key value)) = false
     /\ snd (fst (set_settings store key value)) = store).
Proof.
  destruct (valid_setting_dec key value) as [Hv | Hn].
  - left. split; [exact Hv|]. unfold set_settings.
    destruct (safeParse_valid _ _ Hv) as (data & -> & Ha).
    exists (json_image data). split; [exact (json_image_stored _ _ _ Hv Ha)|].
    split; [reflexivity|]. split.
    + apply lookup_insert_eq.
    + intros k Hk. apply lookup_insert_ne. congruence.
  - right. split; [exact Hn|]. unfold set_settings.
    destruct (safeParse key value) as [data|] eqn:E.
    + exfalso. apply Hn. eapply safeParse_inv, E.
    + split; reflexivity.
Qed.

(** C4, at the failing input. A [windowBounds] whose width is [Infinity]
    passes the validator of its name, the request answers [true], and the
    store then holds [null] as the width: not the value of the request, and a
    value the validator of the setting refuses. *)
Theorem accepted_infinite_width_stored_as_null (store : gmap string Value) :
  let value := VObject [("width", VNumber (Infinity false));
                        ("height", VNumber (num 900))] in
  let kept := VObject [("width", VNull); ("height", VNumber (num 900))] in
  let r := set_settings store "windowBounds" value in
  valid_setting "windowBounds" value
  /\ fst (fst r) = true
  /\ snd (fst r) !! "windowBounds" = Some kept
  /\ kept <> value
  /\ ~ valid_setting "windowBounds" kept
  /\ fst (fst (set_settings (snd (fst r)) "windowBounds" kept)) = false.
Proof.
  cbv zeta.
  assert (Hno : ~ valid_setting "windowBounds"
                    (VObject [("width", VNull); ("height", VNumber (num 900))])).
  { intros H. apply safeParse_valid in H as (data & H & _). discriminate H. }
  split.
  { do 8 right. split; [reflexivity|].
    exists [("width", VNumber (Infinity false)); ("height", VNumber (num 900))],
           (VNumber (Infinity false)), (VNumber (num 900)).
    split; [reflexivity|]. split.
    - exists [], [("height", VNumber (num 900))]. split; [reflexivity|constructor].
    - split.
      + exists [("width", VNumber (Infinity false))], []. split; [reflexivity|].
        constructor; [cbn; discriminate|constructor].
      + split; eexists; (split; [reflexivity|discriminate]). }
  split; [reflexivity|]. split; [apply lookup_insert_eq|].
  split; [discriminate|]. split; [exact Hno|reflexivity].
Qed.

(** The requests named by the specification. *)
Example set_settings_worker_count_999 (store : gmap string Value) :
  set_settings store "parallelWorkers" (VNumber (num 999))
  = (false, store, [ConsoleWarn "Rejected invalid setting: parallelWorkers"])
  /\ set_settings store "workerCount" (VNumber (num 999))
     = (false, store, [ConsoleWarn "Rejected invalid setting: workerCount"]).
Proof. split; reflexivity. Qed.

Example set_settings_theme (store : gmap string Value) :
  set_settings store "theme" (VString "ultraviolet")
  = (false, store, [ConsoleWarn "Rejected invalid setting: theme"])
  /\ set_settings store "theme" (VString "light")
     = (true, <["theme" := VString "light"]> store, []).
Proof. split; reflexivity. Qed.

Example set_settings_fraction (store : gmap string Value) :
  fst (fst (set_settings store "parallelWorkers" (VNumber (Finite (5 # 2))))) = false
  /\ fst (fst (set_settings store "parallelWorkers" (VNumber (Finite (8 # 2))))) = true.
Proof. split; reflexivity. Qed.

(** ** External links *)

(** The handler looks at the protocol only. *)
Lemma open_external_protocol_only (parse1 parse2 : string -> option URL) (url : string) :
  option_map protocol (parse1 url) = option_map protocol (parse2 url) ->
  open_external parse1 url = open_external parse2 url.
Proof.
  unfold open_external.
  destruct (parse1 url) as [u1|], (parse2 url) as [u2|]; simpl; try discriminate.
  - intros [= ->]. reflexivity.
  - reflexivity.
Qed.

(** C2, as the code has it. Whatever the URL constructor answers, the
    [open-external] handler opens the URL when it parses and its protocol is
    [https:] or [http:], and opens nothing otherwise; the host is not looked
    at. *)
Theorem open_external_scheme_only (URL_new : string -> option URL) (url : string) :
  ((exists parsed, URL_new url = Some parsed
                   /\ (protocol parsed = "https:" \/ protocol parsed = "http:"))
   /\ open_external URL_new url = [ShellOpenExternal url])
  \/
  ((~ exists parsed, URL_new url = Some parsed
                     /\ (protocol parsed = "https:" \/ protocol parsed = "http:"))
   /\ exists msg, open_external URL_new url = [ConsoleWarn msg]).
Proof.
  unfold open_external. destruct (URL_new url) as [parsed|] eqn:E.
  - destruct (String.eqb_spec (protocol parsed) "https:") as [Hs|Hs];
      [|destruct (String.eqb_spec (protocol parsed) "http:") as [Hp|Hp]]; simpl.
    + left. split; [eauto|reflexivity].
    + left. split; [eauto|reflexivity].
    + right. split; [|eauto]. intros (u & [= <-] & [H|H]); contradiction.
  - right. split; [|eauto]. intros (u & [=] & _).
Qed.

(** C2, the failing case: the loopback URL of the specification is opened. *)
Lemma open_external_loopback_opened :
  open_external URL_parse "http://127.0.0.1:8080/admin"
  = [ShellOpenExternal "http://127.0.0.1:8080/admin"]
  /\ option_map hostname (URL_parse "http://127.0.0.1:8080/admin") = Some "127.0.0.1"
  /\ is_loopback "127.0.0.1" = true.
Proof. vm_compute. repeat split; reflexivity. Qed.

Example open_external_javascript :
  open_external URL_parse "javascript:alert(1)"
  = [ConsoleWarn "Blocked open-external with unsafe protocol: javascript:"].
Proof. vm_compute. reflexivity. Qed.

Example open_external_https :
  open_external URL_parse "https://example.com" = [ShellOpenExternal "https://example.com"].
Proof. vm_compute. reflexivity. Qed.

Example open_external_not_a_url :
  open_external URL_parse "example.com/page"
  = [ConsoleWarn "Blocked open-external with invalid URL: example.com/page"].
Proof. vm_compute. reflexivity. Qed.

(** C9. The window-open handler denies the new window and hands the URL to
    the shell whatever the URL is: a URL the [open-external] handler blocks
    for its scheme is forwarded on this path, and so is a loopback URL. *)
Theorem windowOpenHandler_forwards_all :
  (forall url, windowOpenHandler url = (ActionDeny, [ShellOpenExternal url]))
  /\ (forall (URL_new : string -> option URL) url,
        In (ShellOpenExternal url) (open_external URL_new url) ->
        In (ShellOpenExternal url) (snd (windowOpenHandler url)))
  /\ (snd (windowOpenHandler "javascript:alert(1)") = [ShellOpenExternal "javascript:alert(1)"]
      /\ ~ In (ShellOpenExternal "javascript:alert(1)")
              (open_external URL_parse "javascript:alert(1)"))
  /\ snd (windowOpenHandler "http://127.0.0.1:8080/admin")
     = [ShellOpenExternal "http://127.0.0.1:8080/admin"].
Proof.
  split; [reflexivity|]. split; [intros; simpl; auto|].
  split; [|reflexivity]. split; [reflexivity|].
  vm_compute. intros [H|[]]. discriminate H.
Qed.

(** ** Start requests and the health wait *)



Lemma failed_probes_le (probe : nat -> bool) (remaining n : nat) :
  failed_probes probe n remaining <= remaining.
Proof.
  revert n. induction remaining as [|r IH]; intros n; simpl; [lia|].
  destruct (probe n); [lia|]. specialize (IH (S n)). lia.
Qed.




(** The synchronous part of a start ends in [Started] exactly when the
    program is found and the operating system gives a pid. *)
Lemma startPythonServer_sync_outcome (h : Host) (port : Z) (os_pid : option positive)
    (s : Supervisor) :
  snd (startPythonServer_sync h port os_pid s) = Started
  <-> server_found h = true /\ is_Some os_pid.
Proof.
  unfold startPythonServer_sync, server_found, spawn_server.
  destruct (isDev h).
  - destruct (existsSync h (serverScript h)); simpl.
    + destruct (findPython h) as [cmd|]; simpl.
      * destruct os_pid; simpl; split; try discriminate; eauto.
        intros [_ [x Hx]]. discriminate.
      * split; [discriminate|]. intros [H _]. discriminate.
    + split; [discriminate|]. intros [H _]. discriminate.
  - destruct (existsSync h (serverExe h)); simpl.
    + destruct os_pid; simpl; split; try discriminate; eauto.
      intros [_ [x Hx]]. discriminate.
    + split; [discriminate|]. intros [H _]. discriminate.
Qed.





(** A service that answers its fourth health request: three timers. *)
Example restart_server_fourth_probe :
  let reply :=
    snd (restart_server packaged_host false 8080 (Some 101%positive) initial_supervisor) in
  count_fetch (fst (run reply (fun n => 3 <=? n)%nat 0)) = 4
  /\ slept (fst (run reply (fun n => 3 <=? n)%nat 0)) = 6000%N.
Proof. vm_compute. split; reflexivity. Qed.

(** ** Service supervisor *)

Lemma stopPythonServer_keeps_isQuitting (h : Host) (threw : bool) (s : Supervisor) :
  isQuitting (fst (stopPythonServer h threw s)) = isQuitting s.
Proof. unfold stopPythonServer. destruct (pythonProcess s); reflexivity. Qed.

(** Stop with no handle does nothing. *)
Lemma stopPythonServer_idle (h : Host) (threw : bool) (s : Supervisor) :
  pythonProcess s = None -> stopPythonServer h threw s = (s, []).
Proof. unfold stopPythonServer. intros ->. reflexivity. Qed.

(** An exit that is observed while the application is not quitting clears
    the handle and sets one timer of 2000 ms. *)
Lemma close_schedules_one_restart (c : nat) (code : option Z) (s : Supervisor) :
  registered c s = true -> isQuitting s = false ->
  pythonProcess (fst (on_service_close c code s)) = None
  /\ restart_timers (fst (on_service_close c code s)) = S (restart_timers s)
  /\ List.filter (fun e => match e with SetTimeout _ => true | _ => false end)
       (snd (on_service_close c code s)) = [SetTimeout 2000%N].
Proof.
  intros Hr Hq. unfold on_service_close. rewrite Hr, Hq. simpl. auto.
Qed.

(** While the application is quitting the exit clears the handle and sets no
    timer. *)
Lemma close_while_quitting (c : nat) (code : option Z) (s : Supervisor) :
  registered c s = true -> isQuitting s = true ->
  pythonProcess (fst (on_service_close c code s)) = None
  /\ restart_timers (fst (on_service_close c code s)) = restart_timers s
  /\ ~ In (SetTimeout 2000%N) (snd (on_service_close c code s)).
Proof.
  intros Hr Hq. unfold on_service_close. rewrite Hr, Hq. simpl.
  repeat split. intros [H|[]]. discriminate H.
Qed.

Lemma registered_set_status_terminating (c : nat) (procs : list (ChildProcess * ProcStatus)) :
  existsb (fun '(p, st) => (obj p =? c)%nat && negb (status_eqb st Exited))
    (set_status c Terminating procs)
  = existsb (fun '(p, st) => (obj p =? c)%nat && negb (status_eqb st Exited)) procs.
Proof.
  unfold set_status. induction procs as [|[p st] rest IH]; simpl; [reflexivity|].
  rewrite IH. destruct (obj p =? c)%nat eqn:E, st; simpl; rewrite ?E; reflexivity.
Qed.

(** A stop does not keep the close handler from restarting: whenever the
    child in the handle is alive and the application is not quitting, its exit
    after [stopPythonServer] sets the restart timer. *)
Lemma stop_then_exit_restarts (h : Host) (threw : bool) (s : Supervisor)
    (child : ChildProcess) (code : option Z) :
  pythonProcess s = Some child -> registered (obj child) s = true -> isQuitting s = false ->
  let stopped := fst (stopPythonServer h threw s) in
  pythonProcess stopped = None
  /\ restart_timers (fst (on_service_close (obj child) code stopped)) = S (restart_timers s)
  /\ In (SetTimeout 2000%N) (snd (on_service_close (obj child) code stopped)).
Proof.
  intros Hp Hr Hq. unfold stopPythonServer. rewrite Hp. cbn [fst].
  split; [reflexivity|].
  unfold on_service_close, registered in *. cbn [service_procs isQuitting restart_timers].
  rewrite registered_set_status_terminating, Hr, Hq. cbn. auto.
Qed.

Lemma running_procs_app (s : Supervisor) (child : ChildProcess) (flag : option ChildProcess)
    (q : bool) (t n : nat) :
  running_procs {| pythonProcess := flag; isQuitting := q;
                   service_procs := service_procs s ++ [(child, Running)];
                   restart_timers := t; next_obj := n |}
  = running_procs s ++ [child].
Proof.
  unfold running_procs. cbn [service_procs].
  rewrite List.filter_app, map_app. reflexivity.
Qed.

(** A start spawns whatever the handle holds: with the program in place and
    a pid given, the handle is overwritten by a new child and one more
    process runs. *)
Lemma startPythonServer_spawns_always (h : Host) (port : Z) (p : positive) (s : Supervisor) :
  server_found h = true ->
  exists fresh,
    pythonProcess (fst (fst (startPythonServer_sync h port (Some p) s))) = Some fresh
    /\ obj fresh = next_obj s /\ pid fresh = Some p
    /\ running_procs (fst (fst (startPythonServer_sync h port (Some p) s)))
       = running_procs s ++ [fresh]
    /\ spawned (snd (fst (startPythonServer_sync h port (Some p) s))) = [fresh].
Proof.
  unfold startPythonServer_sync, server_found, spawn_server.
  destruct (isDev h).
  - destruct (existsSync h (serverScript h)); simpl; [|discriminate].
    destruct (findPython h) as [cmd|]; simpl; [|discriminate]. intros _.
    eexists. split; [reflexivity|]. cbn [obj pid]. repeat split.
    apply running_procs_app.
  - destruct (existsSync h (serverExe h)); simpl; [|discriminate]. intros _.
    eexists. split; [reflexivity|]. cbn [obj pid]. repeat split.
    apply running_procs_app.
Qed.

(** C1, at the failing input. After a restart from the control channel, the
    exit of the process the restart killed clears the handle of its
    successor and sets the restart timer; when the timer fires a third
    process is spawned while the second still runs: two service processes
    run, and the handle knows the last one only. *)
Theorem restart_leaves_two_running :
  let s := fst (steps packaged_host initial_supervisor restart_then_exit_then_timer) in
  map pid (running_procs s) = [Some 101%positive; Some 102%positive]
  /\ option_map pid (pythonProcess s) = Some (Some 102%positive)
  /\ length (spawned (snd (steps packaged_host initial_supervisor
                             restart_then_exit_then_timer))) = 3.
Proof. vm_compute. repeat split; reflexivity. Qed.

(** The same with a start that finds a running handle: the timer of a crash
    fires after a restart from the control channel has put a new process in
    the handle. *)
Example start_with_running_handle :
  let before := fst (steps packaged_host initial_supervisor
                       (firstn 3 crash_restart_timer)) in
  let after := fst (steps packaged_host initial_supervisor crash_restart_timer) in
  option_map pid (pythonProcess before) = Some (Some 101%positive)
  /\ map pid (running_procs before) = [Some 101%positive]
  /\ option_map pid (pythonProcess after) = Some (Some 102%positive)
  /\ map pid (running_procs after) = [Some 101%positive; Some 102%positive].
Proof. vm_compute. repeat split; reflexivity. Qed.

(** Two starts in a row spawn two processes. *)
Example start_twice :
  let s1 := fst (fst (startPythonServer_sync packaged_host 8080 (Some 100%positive)
                        initial_supervisor)) in
  let s2 := fst (fst (startPythonServer_sync packaged_host 8080 (Some 101%positive) s1)) in
  map pid (running_procs s2) = [Some 100%positive; Some 101%positive]
  /\ option_map obj (pythonProcess s1) = Some 0
  /\ option_map obj (pythonProcess s2) = Some 1.
Proof. vm_compute. repeat split; reflexivity. Qed.

(** C3, at the failing input. The stop of a restart sets no flag: when the
    process it killed exits, the close handler finds [isQuitting] false,
    clears the handle (which by then is the handle of the new process) and
    sets the restart timer; the timer then spawns a replacement although a
    stop came before the exit. *)
Theorem stop_does_not_suppress_restart :
  let s := fst (steps packaged_host initial_supervisor restart_then_exit) in
  isQuitting s = false
  /\ restart_timers s = 1
  /\ pythonProcess s = None
  /\ map pid (running_procs s) = [Some 101%positive]
  /\ List.filter (fun e => match e with SetTimeout _ => true | _ => false end)
       (snd (steps packaged_host initial_supervisor restart_then_exit)) = [SetTimeout 2000%N]
  /\ map pid (spawned (snd (step packaged_host s (TimerFires 8080 (Some 102%positive)))))
     = [Some 102%positive].
Proof. vm_compute. repeat split; reflexivity. Qed.

(** The shutdown path sets the flag before it stops: no timer is set. *)
Example quit_suppresses_restart :
  let s := fst (steps packaged_host initial_supervisor
                  [AppReady 8080 (Some 100%positive); BeforeQuit false; ServiceClose 0 None]) in
  restart_timers s = 0 /\ pythonProcess s = None /\ running_procs s = [].
Proof. vm_compute. repeat split; reflexivity. Qed.

(** A crash: the handle is cleared, one timer is set, and the timer spawns
    one replacement. *)
Example crash_restarts_once :
  let run1 := steps packaged_host initial_supervisor
                [AppReady 8080 (Some 100%positive); ServiceClose 0 (Some 1%Z)] in
  let run2 := step packaged_host (fst run1) (TimerFires 8080 (Some 101%positive)) in
  pythonProcess (fst run1) = None /\ restart_timers (fst run1) = 1
  /\ map pid (spawned (snd run2)) = [Some 101%positive]
  /\ restart_timers (fst run2) = 0
  /\ map pid (running_procs (fst run2)) = [Some 101%positive].
Proof. vm_compute. repeat split; reflexivity. Qed.

Lemma quiescent_not_registered (s : Supervisor) (c : nat) :
  quiescent s = true -> registered c s = false.
Proof.
  unfold quiescent, registered. intros H. apply andb_prop in H as [H _].
  induction (service_procs s) as [|[p st] rest IH]; simpl in *; [reflexivity|].
  apply andb_prop in H as [Hst Hrest]. rewrite Hst, IH by assumption.
  simpl. rewrite andb_false_r. reflexivity.
Qed.


(** In a quiescent state the events that are no start or stop request
    change nothing. *)
Lemma quiescent_steps (h : Host) (s : Supervisor) (evs : list Event) :
  quiescent s = true -> forallb (fun ev => negb (is_control ev)) evs = true ->
  fst (steps h s evs) = s.
Proof.
  intros Hq. induction evs as [|ev rest IH]; simpl; [reflexivity|].
  intros H. apply andb_prop in H as [Hev Hrest].
  assert (Hstep : step h s ev = (s, [])).
  { destruct ev; simpl in Hev; try discriminate; simpl.
    - reflexivity.
    - unfold on_service_close. rewrite quiescent_not_registered by assumption. reflexivity.
    - unfold quiescent in Hq. apply andb_prop in Hq as [_ Ht].
      apply Nat.eqb_eq in Ht. rewrite Ht. reflexivity. }
  rewrite Hstep. specialize (IH Hrest).
  destruct (steps h s rest) as [s2 e2]. simpl in *. exact IH.
Qed.

(** *** A spawn without pid *)

Lemma fresh_objs_set_status (c : nat) (st : ProcStatus)
    (procs : list (ChildProcess * ProcStatus)) (n : nat) :
  Forall (fun '(p, _) => obj p < n) procs ->
  Forall (fun '(p, _) => obj p < n) (set_status c st procs).
Proof.
  unfold set_status. induction 1 as [|[p s0] rest Hp _ IH]; simpl; constructor; auto.
  destruct (_ && _); exact Hp.
Qed.

Lemma fresh_objs_stop (h : Host) (threw : bool) (s : Supervisor) :
  fresh_objs s -> fresh_objs (fst (stopPythonServer h threw s)).
Proof.
  unfold stopPythonServer, fresh_objs. destruct (pythonProcess s); simpl; auto.
  apply fresh_objs_set_status.
Qed.

Lemma fresh_objs_close (c : nat) (code : option Z) (s : Supervisor) :
  fresh_objs s -> fresh_objs (fst (on_service_close c code s)).
Proof.
  unfold on_service_close, fresh_objs.
  destruct (registered c s); simpl; auto.
  destruct (isQuitting s); simpl; apply fresh_objs_set_status.
Qed.

Lemma fresh_objs_start (h : Host) (port : Z) (os_pid : option positive) (s : Supervisor) :
  fresh_objs s -> fresh_objs (fst (fst (startPythonServer_sync h port os_pid s))).
Proof.
  intros Hs.
  assert (Hspawn : forall cmd argv,
             fresh_objs (fst (fst (spawn_server cmd argv port os_pid s)))).
  { intros cmd argv. unfold spawn_server, fresh_objs in *.
    destruct os_pid; simpl.
    - apply Forall_app. split.
      + eapply List.Forall_impl; [|exact Hs]. intros [q st]. lia.
      + constructor; [simpl; lia | constructor].
    - eapply List.Forall_impl; [|exact Hs]. intros [q st]. lia. }
  unfold startPythonServer_sync. destruct (isDev h).
  - destruct (existsSync h (serverScript h)); simpl; [|exact Hs].
    destruct (findPython h) as [cmd|]; [|exact Hs].
    specialize (Hspawn cmd [serverScript h; "--port"; string_of_Z port]).
    destruct (spawn_server _ _ _ _ _) as [[s' eff] out]. exact Hspawn.
  - destruct (existsSync h (serverExe h)); simpl; [|exact Hs].
    specialize (Hspawn (serverExe h) ["--port"; string_of_Z port]).
    destruct (spawn_server _ _ _ _ _) as [[s' eff] out]. exact Hspawn.
Qed.

Lemma fresh_objs_step (h : Host) (s : Supervisor) (ev : Event) :
  fresh_objs s -> fresh_objs (fst (step h s ev)).
Proof.
  intros Hs. destruct ev as [port p|threw port p| |c code|port p|threw]; simpl.
  - pose proof (fresh_objs_start h port p s Hs) as H.
    destruct (startPythonServer_sync h port p s) as [[s' eff] out]. exact H.
  - unfold restart_server.
    pose proof (fresh_objs_stop h threw s Hs) as H1.
    destruct (stopPythonServer h threw s) as [s1 e1].
    pose proof (fresh_objs_start h port p s1 H1) as H2.
    destruct (startPythonServer_sync h port p s1) as [[s2 e2] out]. exact H2.
  - exact Hs.
  - apply fresh_objs_close, Hs.
  - destruct (restart_timers s) as [|t] eqn:Ht; [exact Hs|].
    assert (H0 : fresh_objs (take_timer s)) by exact Hs.
    pose proof (fresh_objs_start h port p _ H0) as H.
    destruct (startPythonServer_sync h port p (take_timer s)) as [[s' eff] out]. exact H.
  - apply fresh_objs_stop. exact Hs.
Qed.

Lemma fresh_objs_steps (h : Host) (evs : list Event) :
  forall s, fresh_objs s -> fresh_objs (fst (steps h s evs)).
Proof.
  induction evs as [|ev rest IH]; intros s Hs; simpl; [exact Hs|].
  pose proof (fresh_objs_step h s ev Hs) as H1.
  destruct (step h s ev) as [s1 e1]. specialize (IH s1 H1).
  destruct (steps h s1 rest) as [s2 e2]. exact IH.
Qed.













(** The same exit after a failed spawn by a restart timer: the child of an
    earlier restart is alive when the timer of a crash fires and its spawn
    gets no pid. *)
Example failed_timer_spawn_then_exit :
  let s1 := fst (steps packaged_host initial_supervisor
                   [AppReady 8080 (Some 100%positive); ServiceClose 0 (Some 1%Z);
                    RestartServer false 8080 (Some 101%positive);
                    TimerFires 8080 None]) in
  let s2 := fst (step packaged_host s1 (ServiceClose 1 (Some 1%Z))) in
  option_map pid (pythonProcess s1) = Some None
  /\ map pid (running_procs s1) = [Some 101%positive]
  /\ get_server_status s1 = true
  /\ get_server_status s2 = false.
Proof. vm_compute. repeat split; reflexivity. Qed.

(** ** The pool *)

Lemma spawn_counts (os_pid : nat -> option positive) (remaining i : nat) :
  spawn_successes os_pid remaining i + spawn_failures os_pid remaining i = remaining.
Proof.
  revert i. induction remaining as [|r IH]; intros i; simpl; [reflexivity|].
  specialize (IH (S i)). destruct (os_pid i); lia.
Qed.

Lemma worker_id_arg_args (h : Host) (cfg : PoolSettings) (isScript : bool) (id : string)
    (o : nat) (p : option positive) :
  worker_id_arg isScript {| obj := o; pid := p; args := worker_args h cfg isScript id |} = id.
Proof. unfold worker_id_arg, worker_args. destruct isScript; reflexivity. Qed.

(** The spawn loop: one spawn per iteration, one error line per spawn
    without a pid, and the children with a pid pushed in order. *)
Lemma spawn_workers_spec (h : Host) (cfg : PoolSettings) (cmd : string) (isScript : bool)
    (now : nat -> Z) (os_pid : nat -> option positive) (remaining : nat) :
  forall i s,
    let r := spawn_workers h cfg cmd isScript now os_pid remaining i s in
    length (transcriptionWorkers (fst r))
    = length (transcriptionWorkers s) + spawn_successes os_pid remaining i
    /\ length (spawned (snd r)) = remaining
    /\ length (List.filter is_console_error (snd r)) = spawn_failures os_pid remaining i
    /\ map (worker_id_arg isScript) (spawned (snd r))
       = map (fun j => workerId j (now j)) (seq i remaining).
Proof.
  induction remaining as [|r IH]; intros i s.
  - simpl. rewrite Nat.add_0_r. repeat split; reflexivity.
  - cbn [spawn_workers spawn_successes spawn_failures seq map].
    destruct (os_pid i) as [p|] eqn:Hp.
    + match goal with
      | |- context [spawn_workers h cfg cmd isScript now os_pid r (S i) ?s1] =>
          specialize (IH (S i) s1); cbv zeta in IH;
          destruct (spawn_workers h cfg cmd isScript now os_pid r (S i) s1) as [s2 eff]
      end.
      cbn [fst snd transcriptionWorkers] in *.
      destruct IH as (Hlen & Hsp & Herr & Hids).
      rewrite length_app in Hlen. simpl in Hlen.
      unfold spawned in *. cbn [omap list_omap List.filter is_console_error is_spawn
                                 negb andb length map] in *.
      rewrite worker_id_arg_args.
      repeat split; [lia | lia | lia | congruence].
    + match goal with
      | |- context [spawn_workers h cfg cmd isScript now os_pid r (S i) ?s1] =>
          specialize (IH (S i) s1); cbv zeta in IH;
          destruct (spawn_workers h cfg cmd isScript now os_pid r (S i) s1) as [s2 eff]
      end.
      cbn [fst snd transcriptionWorkers] in *.
      destruct IH as (Hlen & Hsp & Herr & Hids).
      unfold spawned in *. cbn [omap list_omap List.filter is_console_error is_spawn
                                 negb andb length map] in *.
      rewrite worker_id_arg_args.
      repeat split; [lia | lia | lia | congruence].
Qed.

Lemma spawned_app (l1 l2 : list Effect) : spawned (l1 ++ l2) = spawned l1 ++ spawned l2.
Proof. unfold spawned. apply omap_app. Qed.

(** What a call of [startTranscriptionWorker] on an empty pool does once the
    worker program is found: the loop runs, between the banner lines and the
    status message. *)
Lemma startTranscriptionWorker_found (h : Host) (cfg : PoolSettings) (win : bool)
    (now : nat -> Z) (os_pid : nat -> option positive) (s : Pool) :
  transcriptionWorkers s = [] -> worker_found h = true ->
  exists cmd banner tail,
    let loop := spawn_workers h cfg cmd (isDev h) now os_pid (workerCount cfg) 0 s in
    startTranscriptionWorker h cfg win now os_pid s
    = (fst loop, banner ++ snd loop ++ tail, PoolStarted)
    /\ spawned banner = [] /\ spawned tail = []
    /\ List.filter is_console_error banner = []
    /\ List.filter is_console_error tail = [].
Proof.
  intros Hs Hf. unfold startTranscriptionWorker, worker_found in *. rewrite Hs.
  destruct (isDev h).
  - destruct (existsSync h (workerScript h)); simpl in Hf; [|discriminate].
    destruct (findPython h) as [cmd|]; simpl in Hf; [|discriminate].
    exists cmd. eexists [_; _; _; _].
    exists (if win
            then [Send "transcriber-status"
                    (status_payload true "workerCount"
                       (Some (Z.of_nat (length (transcriptionWorkers
                          (fst (spawn_workers h cfg cmd true now os_pid
                                  (workerCount cfg) 0 s)))))))]
            else []).
    cbv zeta. cbn [negb].
    destruct (spawn_workers h cfg cmd true now os_pid (workerCount cfg) 0 s) as [s' eff].
    cbn [fst snd app]. split; [reflexivity|].
    destruct win; repeat split; reflexivity.
  - destruct (existsSync h (workerExe h)); simpl in Hf; [|discriminate].
    exists (workerExe h). eexists [_; _; _; _].
    exists (if win
            then [Send "transcriber-status"
                    (status_payload true "workerCount"
                       (Some (Z.of_nat (length (transcriptionWorkers
                          (fst (spawn_workers h cfg (workerExe h) false now os_pid
                                  (workerCount cfg) 0 s)))))))]
            else []).
    cbv zeta. cbn [negb].
    destruct (spawn_workers h cfg (workerExe h) false now os_pid (workerCount cfg) 0 s)
      as [s' eff].
    cbn [fst snd app]. split; [reflexivity|].
    destruct win; repeat split; reflexivity.
Qed.

Lemma startTranscriptionWorker_missing (h : Host) (cfg : PoolSettings) (win : bool)
    (now : nat -> Z) (os_pid : nat -> option positive) (s : Pool) :
  worker_found h = false ->
  fst (fst (startTranscriptionWorker h cfg win now os_pid s)) = s
  /\ spawned (snd (fst (startTranscriptionWorker h cfg win now os_pid s))) = [].
Proof.
  intros Hf. unfold startTranscriptionWorker, worker_found in *.
  destruct (transcriptionWorkers s); [|split; reflexivity].
  destruct (isDev h).
  - destruct (existsSync h (workerScript h)); simpl in *; [|split; reflexivity].
    destruct (findPython h); simpl in *; [discriminate|split; reflexivity].
  - destruct (existsSync h (workerExe h)); simpl in *; [discriminate|split; reflexivity].
Qed.



(** Four workers requested, the second spawn gets no pid: three workers, one
    error line. *)
Example startPool_one_failure :
  let r := startTranscriptionWorker packaged_host four_workers true
             (fun _ => 1700000000000%Z)
             (fun i => if (i =? 1)%nat then None else Some (Pos.of_nat (500 + i)))
             initial_pool in
  status_workerCount (get_transcription_status (fst (fst r))) = 3
  /\ status_pids (get_transcription_status (fst (fst r))) = [500; 502; 503]%positive
  /\ List.filter is_console_error (snd (fst r))
     = [ConsoleError "ERROR: Failed to spawn transcription worker 2"]
  /\ sent_on "transcriber-status" (snd (fst r))
     = [status_payload true "workerCount" (Some 3%Z)].
Proof. vm_compute. repeat split; reflexivity. Qed.

(** *** Worker identifiers *)

(** A decimal numeral followed by a dash: the numeral ends at the dash. *)
Lemma string_of_uint_dash (d1 : Decimal.uint) :
  forall (d2 : Decimal.uint) (r1 r2 : string),
    (NilEmpty.string_of_uint d1 +:+ String "-" r1
     = NilEmpty.string_of_uint d2 +:+ String "-" r2)%string ->
    d1 = d2 /\ r1 = r2.
Proof.
  induction d1 as [|d1 IH|d1 IH|d1 IH|d1 IH|d1 IH|d1 IH|d1 IH|d1 IH|d1 IH|d1 IH];
    intros [|d2|d2|d2|d2|d2|d2|d2|d2|d2|d2] r1 r2 H; simpl in H;
    try discriminate H;
    try (injection H as H; apply IH in H as [-> ->]; split; reflexivity).
  injection H as ->. split; reflexivity.
Qed.

Lemma string_of_Z_inj (t u : Z) : string_of_Z t = string_of_Z u -> t = u.
Proof.
  unfold string_of_Z. intros H. apply DecimalZ.to_int_inj.
  apply (f_equal NilEmpty.int_of_string) in H. rewrite !NilEmpty.isi in H. congruence.
Qed.

(** The identifier determines the ordinal and the clock reading it was made
    of, and nothing else enters it. *)
Lemma workerId_inj (i j : nat) (t u : Z) :
  workerId i t = workerId j u <-> i = j /\ t = u.
Proof.
  split; [|intros [-> ->]; reflexivity].
  unfold workerId, string_of_nat. intros H. simpl in H. injection H as H.
  apply string_of_uint_dash in H as [Hn Hz].
  apply DecimalNat.Unsigned.to_uint_inj in Hn. apply string_of_Z_inj in Hz.
  split; [lia | assumption].
Qed.

Lemma NoDup_map_injective {A B : Type} (f : A -> B) (l : list A) :
  (forall x y, f x = f y -> x = y) -> List.NoDup l -> List.NoDup (map f l).
Proof.
  intros Hinj. induction 1 as [|x l Hx Hl IH]; simpl; constructor; [|assumption].
  intros Hin. apply in_map_iff in Hin as (y & Hy & Hin). apply Hinj in Hy. subst.
  contradiction.
Qed.

(** A call of [startTranscriptionWorker] that runs its loop gives the
    worker of iteration [j] the identifier made of [j + 1] and of the clock
    reading of that iteration; the identifiers of one call are pairwise
    distinct; two identifiers, of one call or of two, are equal exactly when
    ordinal and clock reading are both equal. *)
Lemma worker_ids_by_ordinal_and_clock (h : Host) (cfg : PoolSettings) (win : bool)
    (now : nat -> Z) (os_pid : nat -> option positive) (s : Pool) :
  transcriptionWorkers s = [] -> worker_found h = true ->
  let ids := map (worker_id_arg (isDev h))
               (spawned (snd (fst (startTranscriptionWorker h cfg win now os_pid s)))) in
  ids = map (fun j => workerId j (now j)) (seq 0 (workerCount cfg))
  /\ List.NoDup ids
  /\ (forall i j t u, workerId i t = workerId j u <-> i = j /\ t = u).
Proof.
  intros Hs Hf. cbv zeta.
  destruct (startTranscriptionWorker_found h cfg win now os_pid s Hs Hf)
    as (cmd & banner & tail & Heq & Hb & Ht & _ & _).
  cbv zeta in Heq. rewrite Heq. cbn [fst snd].
  rewrite !spawned_app, Hb, Ht, app_nil_r. simpl.
  pose proof (spawn_workers_spec h cfg cmd (isDev h) now os_pid (workerCount cfg) 0 s)
    as Hloop.
  cbv zeta in Hloop. destruct Hloop as (_ & _ & _ & Hids).
  rewrite Hids. split; [reflexivity|]. split; [|apply workerId_inj].
  apply NoDup_map_injective; [|apply List.seq_NoDup].
  intros x y Hxy. apply workerId_inj in Hxy. tauto.
Qed.

(** C7, at the failing input. Four workers are started while the clock
    reads T, T+12, T+24 and T+36 ms, the pool is stopped, the wall clock is
    set back, and four workers are started again while it reads T-36, T-12,
    T+12 and T+36: the fourth worker of the second call is a new process with
    the identifier the fourth worker of the first call was given. Nothing but
    the ordinal and the clock reading enters an identifier, and no identifier
    handed out is kept on record. *)
Theorem worker_id_reused_across_calls :
  let clock1 := fun i : nat => (1700000000000 + 12 * Z.of_nat i)%Z in
  let clock2 := fun i : nat => (1699999999964 + 24 * Z.of_nat i)%Z in
  let r1 := startTranscriptionWorker packaged_host four_workers true clock1
              (fun i => Some (Pos.of_nat (500 + i))) initial_pool in
  let stopped := fst (stopTranscriptionWorker packaged_host (fun _ => false) (fst (fst r1))) in
  let r2 := startTranscriptionWorker packaged_host four_workers true clock2
              (fun i => Some (Pos.of_nat (600 + i))) stopped in
  map (worker_id_arg false) (spawned (snd (fst r1)))
  = ["worker-1-1700000000000"; "worker-2-1700000000012";
     "worker-3-1700000000024"; "worker-4-1700000000036"]
  /\ map (worker_id_arg false) (spawned (snd (fst r2)))
     = ["worker-1-1699999999964"; "worker-2-1699999999988";
        "worker-3-1700000000012"; "worker-4-1700000000036"]
  /\ map obj (spawned (snd (fst r1))) = [0; 1; 2; 3]
  /\ map obj (spawned (snd (fst r2))) = [4; 5; 6; 7]
  /\ map pid (spawned (snd (fst r2)))
     = [Some 600%positive; Some 601%positive; Some 602%positive; Some 603%positive]
  /\ ~ List.NoDup (map (worker_id_arg false)
                     (spawned (snd (fst r1)) ++ spawned (snd (fst r2)))).
Proof.
  cbv zeta.
  assert (E1 : map (worker_id_arg false)
                 (spawned (snd (fst (startTranscriptionWorker packaged_host four_workers true
                    (fun i : nat => (1700000000000 + 12 * Z.of_nat i)%Z)
                    (fun i => Some (Pos.of_nat (500 + i))) initial_pool))))
               = ["worker-1-1700000000000"; "worker-2-1700000000012";
                  "worker-3-1700000000024"; "worker-4-1700000000036"])
    by (vm_compute; reflexivity).
  match goal with
  | |- _ /\ map (worker_id_arg false) (spawned (snd (fst ?r2))) = _ /\ _ =>
      assert (E2 : map (worker_id_arg false) (spawned (snd (fst r2)))
                   = ["worker-1-1699999999964"; "worker-2-1699999999988";
                      "worker-3-1700000000012"; "worker-4-1700000000036"])
        by (vm_compute; reflexivity)
  end.
  split; [exact E1|]. split; [exact E2|].
  split; [vm_compute; reflexivity|]. split; [vm_compute; reflexivity|].
  split; [vm_compute; reflexivity|].
  rewrite map_app, E1, E2. intros H.
  apply List.NoDup_remove_2 with (l := ["worker-1-1700000000000"; "worker-2-1700000000012";
                                        "worker-3-1700000000024"])
                                 (l' := ["worker-1-1699999999964"; "worker-2-1699999999988";
                                         "worker-3-1700000000012"; "worker-4-1700000000036"])
                                 (a := "worker-4-1700000000036") in H.
  apply H. apply in_or_app. right. cbn. tauto.
Qed.

(** ** Output of the workers *)

Lemma sent_on_stdout (i : nat) (lines : list string) :
  sent_on "transcriber-log"
    (flat_map (fun line =>
                 ConsoleLog ("[Worker " ++ string_of_nat (i + 1) ++ "] " ++ line)
                 :: [Send "transcriber-log" (VString line)]) lines)
  = map VString lines.
Proof.
  induction lines as [|l rest IH]; [reflexivity|].
  unfold sent_on in *. cbn [flat_map app omap list_omap map]. simpl String.eqb.
  cbn iota. f_equal. exact IH.
Qed.

Lemma deliver_stdout (i : nat) (win : bool) (lines : list string) :
  forall logs,
    deliver_all logs
      (flat_map (fun line =>
                   ConsoleLog ("[Worker " ++ string_of_nat (i + 1) ++ "] " ++ line)
                   :: (if win then [Send "transcriber-log" (VString line)] else [])) lines)
    = fold_left (fun acc line => if win then onTranscriberLog line acc else acc) lines logs.
Proof.
  induction lines as [|l rest IH]; intros logs; [reflexivity|].
  unfold deliver_all in *. cbn [flat_map fold_left]. rewrite fold_left_app.
  rewrite IH. destruct win; reflexivity.
Qed.

Lemma classify_worker_line_markers (t : string) :
  (includes "COMPLETED" t || includes "SUCCESS" t = true
   /\ classify_worker_line t = Success)
  \/ (includes "COMPLETED" t || includes "SUCCESS" t = false
      /\ includes "ERROR" t || includes "FAILED" t = true
      /\ classify_worker_line t = Error)
  \/ (includes "COMPLETED" t || includes "SUCCESS" t = false
      /\ includes "ERROR" t || includes "FAILED" t = false
      /\ includes "Processing:" t || includes "Transcribing" t = true
      /\ classify_worker_line t = Progress)
  \/ (includes "COMPLETED" t || includes "SUCCESS" t = false
      /\ includes "ERROR" t || includes "FAILED" t = false
      /\ includes "Processing:" t || includes "Transcribing" t = false
      /\ classify_worker_line t = Info).
Proof.
  unfold classify_worker_line.
  destruct (includes "COMPLETED" t || includes "SUCCESS" t); [left; auto|].
  destruct (includes "ERROR" t || includes "FAILED" t); [right; left; auto|].
  destruct (includes "Processing:" t || includes "Transcribing" t);
    [right; right; left; auto | right; right; right; auto].
Qed.

Lemma nonblank_lines_trim (data : string) :
  Forall (fun line => truthy_string (trim line) = true) (nonblank_lines data).
Proof.
  unfold nonblank_lines. apply List.Forall_forall. intros line Hin.
  apply List.filter_In in Hin as [_ H]. exact H.
Qed.

Lemma console_lines_stdout (i : nat) (win : bool) (lines : list string) :
  console_lines
    (flat_map (fun line =>
                 ConsoleLog ("[Worker " ++ string_of_nat (i + 1) ++ "] " ++ line)
                 :: (if win then [Send "transcriber-log" (VString line)] else [])) lines)
  = map (fun line => ConsoleLog ("[Worker " ++ string_of_nat (i + 1) ++ "] " ++ line)) lines.
Proof.
  induction lines as [|l rest IH]; [reflexivity|].
  cbn [flat_map map]. unfold console_lines in *.
  change (?x :: ?l ++ ?r) with ([x] ++ l ++ r). rewrite !List.filter_app, IH.
  destruct win; reflexivity.
Qed.

Lemma sends_stdout (i : nat) (win : bool) (lines : list string) :
  sends
    (flat_map (fun line =>
                 ConsoleLog ("[Worker " ++ string_of_nat (i + 1) ++ "] " ++ line)
                 :: (if win then [Send "transcriber-log" (VString line)] else [])) lines)
  = if win then map (fun line => ("transcriber-log", VString line)) lines else [].
Proof.
  induction lines as [|l rest IH]; [destruct win; reflexivity|].
  cbn [flat_map]. unfold sends in *.
  change (?x :: ?l ++ ?r) with ([x] ++ l ++ r). rewrite !omap_app, IH.
  destruct win; reflexivity.
Qed.

Lemma fold_onTranscriberLog (lines : list string) :
  Forall (fun line => truthy_string (trim line) = true) lines ->
  forall logs,
    fold_left (fun acc line => onTranscriberLog line acc) lines logs
    = fold_left (fun acc line =>
                   addLog ("[Worker] " ++ trim line) (classify_worker_line (trim line)) acc)
                lines logs.
Proof.
  induction 1 as [|l rest Hl _ IH]; intros logs; [reflexivity|].
  cbn [fold_left]. rewrite <- IH. unfold onTranscriberLog at 2. cbv zeta.
  rewrite Hl. reflexivity.
Qed.

(** C8, as the code has it. Every line of a chunk of standard output that
    is not blank is written to the console of the main process with the
    ordinal of its worker and, when the window is there, sent to the renderer
    as it is, noise markers or not, without the ordinal or the identifier of
    the worker; the renderer logs the trimmed line under the fixed prefix
    [[Worker]] with the type its markers give: [COMPLETED] or [SUCCESS] give
    success, else [ERROR] or [FAILED] error, else [Processing:] or
    [Transcribing] progress, else info, and never warning. A chunk of standard
    error that holds one of the six noise markers is written to the console,
    trimmed and cut to 100 characters, and nothing is sent; any other chunk is
    written to the console as an error with the ordinal and sent, and the
    renderer logs it, trimmed, with the type error. *)
Theorem worker_output_classification (i : nat) (win : bool) (data : string)
    (logs : list LogEntry) :
  let ordinal := string_of_nat (i + 1) in
  let lines := List.filter (fun line => truthy_string (trim line)) (split_lines data) in
  let entry_type := fun t : string =>
    if includes "COMPLETED" t || includes "SUCCESS" t then Success
    else if includes "ERROR" t || includes "FAILED" t then Error
    else if includes "Processing:" t || includes "Transcribing" t then Progress
    else Info in
  let noise :=
    existsb (fun marker => includes marker data)
      ["Error while decoding stream"; "Invalid data found when processing input";
       "channel element"; "duplicate"; "Application provided invalid";
       "Last message repeated"] in
  console_lines (on_worker_stdout i win data)
  = map (fun line => ConsoleLog ("[Worker " ++ ordinal ++ "] " ++ line)) lines
  /\ sends (on_worker_stdout i win data)
     = (if win then map (fun line => ("transcriber-log", VString line)) lines else [])
  /\ deliver_all logs (on_worker_stdout i win data)
     = (if win
        then fold_left (fun acc line =>
                          addLog ("[Worker] " ++ trim line) (entry_type (trim line)) acc)
                       lines logs
        else logs)
  /\ (forall t, entry_type t <> Warning)
  /\ console_lines (on_worker_stderr i win data)
     = [if noise
        then ConsoleLog ("[Worker " ++ ordinal ++ " FFmpeg] "
                         ++ substring0 100 (trim data) ++ "...")
        else ConsoleError ("[Worker " ++ ordinal ++ " Error] " ++ data)]
  /\ sends (on_worker_stderr i win data)
     = (if noise || negb win then [] else [("transcriber-error", VString data)])
  /\ deliver_all logs (on_worker_stderr i win data)
     = (if noise || negb win || negb (truthy_string (trim data)) then logs
        else addLog ("[Worker Error] " ++ trim data) Error logs).
Proof.
  cbv zeta. fold (nonblank_lines data).
  split; [apply console_lines_stdout|].
  split; [apply sends_stdout|].
  split.
  { unfold on_worker_stdout. rewrite deliver_stdout. destruct win.
    - apply (fold_onTranscriberLog _ (nonblank_lines_trim data)).
    - generalize (nonblank_lines data). intros lines. revert logs.
      induction lines as [|l rest IH]; intros logs; [reflexivity|]. cbn [fold_left]. apply IH. }
  split.
  { intros t. destruct (includes "COMPLETED" t || includes "SUCCESS" t); [discriminate|].
    destruct (includes "ERROR" t || includes "FAILED" t); [discriminate|].
    destruct (includes "Processing:" t || includes "Transcribing" t); discriminate. }
  unfold on_worker_stderr.
  change (isFFmpegNoise data) with
    (existsb (fun marker => includes marker data)
       ["Error while decoding stream"; "Invalid data found when processing input";
        "channel element"; "duplicate"; "Application provided invalid";
        "Last message repeated"]).
  destruct (existsb _ _).
  - split; [reflexivity|]. split; reflexivity.
  - destruct win.
    + split; [reflexivity|]. split; [reflexivity|].
      cbn [orb negb]. unfold deliver_all. cbn [fold_left deliver].
      change (String.eqb "transcriber-error" "transcriber-log") with false.
      change (String.eqb "transcriber-error" "transcriber-error") with true.
      cbv iota. unfold onTranscriberError. cbv zeta.
      destruct (truthy_string (trim data)); reflexivity.
    + split; [reflexivity|]. split; reflexivity.
Qed.

(** C8, the failing case: a line of standard output that holds the noise
    marker [duplicate] reaches the renderer, which logs it as [Info]; and the
    completion line of the second worker gives the entry the same line of the
    first worker gives. *)
Lemma stdout_noise_reaches_renderer :
  isFFmpegNoise "duplicate frame dropped" = true
  /\ on_worker_stdout 0 true "duplicate frame dropped"
     = [ConsoleLog "[Worker 1] duplicate frame dropped";
        Send "transcriber-log" (VString "duplicate frame dropped")]
  /\ deliver_all [] (on_worker_stdout 0 true "duplicate frame dropped")
     = [{| message := "[Worker] duplicate frame dropped"; type := Info |}]
  /\ deliver_all [] (on_worker_stdout 1 true "COMPLETED: Course A")
     = [{| message := "[Worker] COMPLETED: Course A"; type := Success |}]
  /\ deliver_all [] (on_worker_stdout 0 true "COMPLETED: Course A")
     = [{| message := "[Worker] COMPLETED: Course A"; type := Success |}].
Proof. vm_compute. repeat split; reflexivity. Qed.

Example stderr_noise_suppressed :
  on_worker_stderr 1 true "[aac @ 0x55] channel element 1.0 is not allocated"
  = [ConsoleLog "[Worker 2 FFmpeg] [aac @ 0x55] channel element 1.0 is not allocated..."].
Proof. vm_compute. reflexivity. Qed.

Example stderr_error_forwarded :
  deliver_all [] (on_worker_stderr 0 true "Traceback: out of memory")
  = [{| message := "[Worker Error] Traceback: out of memory"; type := Error |}].
Proof. vm_compute. reflexivity. Qed.
(** * Further properties *)

(** ** The settings store over a session *)

Lemma valid_setting_name (key : string) (value : Value) :
  valid_setting key value -> In key setting_names.
Proof.
  unfold valid_setting.
  intros [[-> _]|[[-> _]|[[-> _]|[[-> _]|[[-> _]|[[-> _]|[[-> _]|[[-> _]|[-> _]]]]]]]]];
    simpl; tauto.
Qed.

Lemma is_integer_num (z : Z) : is_integer (VNumber (num z)) z.
Proof. exists (inject_Z z). split; reflexivity. Qed.

Lemma is_number_num (z : Z) : is_number (VNumber (num z)).
Proof. eexists. split; [reflexivity|discriminate]. Qed.

(** A value that is valid for a name other than [windowBounds] is what a
    request for it leaves in the store. *)
Lemma stored_setting_plain (key : string) (value : Value) :
  key <> "windowBounds" -> stored_setting key value value.
Proof. intros H. left. split; [exact H|reflexivity]. Qed.

(** The bounds a resize stores, and the default: what the request with the
    same two integers leaves. *)
Lemma stored_setting_bounds (width height : Z) :
  let value := VObject [("width", VNumber (num width)); ("height", VNumber (num height))] in
  valid_setting "windowBounds" value /\ stored_setting "windowBounds" value value.
Proof.
  cbv zeta.
  assert (Fw : field_of "width" (VNumber (num width))
                 [("width", VNumber (num width)); ("height", VNumber (num height))]).
  { exists [], [("height", VNumber (num height))]. split; [reflexivity|constructor]. }
  assert (Fh : field_of "height" (VNumber (num height))
                 [("width", VNumber (num width)); ("height", VNumber (num height))]).
  { exists [("width", VNumber (num width))], []. split; [reflexivity|].
    constructor; [cbn; discriminate|constructor]. }
  split.
  - do 8 right. split; [reflexivity|]. eexists _, _, _.
    split; [reflexivity|]. split; [exact Fw|]. split; [exact Fh|].
    split; apply is_number_num.
  - right. split; [reflexivity|]. eexists _, _, _.
    split; [reflexivity|]. split; [exact Fw|]. split; [exact Fh|reflexivity].
Qed.

Lemma store_defaults_valid (transcripts docs : string) :
  store_valid (store_defaults transcripts docs).
Proof.
  split.
  - unfold store_defaults.
    repeat (apply map_Forall_insert_2; [|]);
      [ | | | | | | | | | apply map_Forall_empty];
      try (eexists; split; [|apply stored_setting_plain; discriminate]; unfold valid_setting).
    + left. eauto.
    + right; left. split; [reflexivity|]. exists [docs]. reflexivity.
    + do 2 right; left. split; [reflexivity|]. exists 8080%Z.
      split; [apply is_integer_num | lia].
    + do 3 right; left. auto.
    + do 4 right; left. auto.
    + do 5 right; left. eauto.
    + do 6 right; left. eauto.
    + do 7 right; left. split; [reflexivity|]. exists 1%Z.
      split; [apply is_integer_num | lia].
    + eexists. exact (stored_setting_bounds 1400 900).
  - unfold setting_names, store_defaults. simpl.
    repeat (constructor; [simplify_map_eq; eauto|]). constructor.
Qed.

Lemma store_step_valid (store : gmap string Value) (ev : StoreEvent) :
  store_valid store -> store_valid (store_step store ev).
Proof.
  intros [Hv Hn]. destruct ev as [key value|w ht]; simpl.
  - unfold set_settings. destruct (safeParse key value) as [data|] eqn:E; simpl;
      [|split; assumption].
    destruct (safeParse_inv _ _ _ E) as [Hvalid Ha].
    split.
    + apply map_Forall_insert_2; [|exact Hv]. exists value.
      split; [exact Hvalid|]. exact (json_image_stored _ _ _ Hvalid Ha).
    + eapply List.Forall_impl; [|exact Hn]. intros k Hk.
      apply lookup_insert_is_Some. destruct (decide (key = k)); auto.
  - unfold on_resize. split.
    + apply map_Forall_insert_2; [|exact Hv]. eexists.
      exact (stored_setting_bounds w ht).
    + eapply List.Forall_impl; [|exact Hn]. intros k Hk.
      apply lookup_insert_is_Some. destruct (decide ("windowBounds" = k)); auto.
Qed.

Lemma store_run_valid (transcripts docs : string) (evs : list StoreEvent) :
  store_valid (store_run (store_defaults transcripts docs) evs).
Proof.
  unfold store_run.
  generalize (store_defaults_valid transcripts docs).
  generalize (store_defaults transcripts docs).
  induction evs as [|ev rest IH]; intros st Hst; simpl; [exact Hst|].
  apply IH, store_step_valid, Hst.
Qed.

Lemma number_as_stored_or_null (w : Value) : is_number w -> number_or_null (number_as_stored w).
Proof.
  intros (n & -> & Hn). destruct n; [right; eauto|congruence|left; reflexivity].
Qed.

(** X1. From the defaults on, whatever [set-settings] requests arrive and
    however the window is resized, every setting name of the schema has a
    value in the store and no other name is stored; every stored value is what
    a valid request for its name leaves in the store; for every name but
    [windowBounds] it passes the validator of the name, and [windowBounds] is
    an object of a width and a height that are each a finite number or the
    [null] an infinite number is stored as. *)
Theorem store_stays_valid (transcripts docs : string) (evs : list StoreEvent) :
  let store := get_settings (store_run (store_defaults transcripts docs) evs) in
  Forall (fun k => is_Some (store !! k)) setting_names
  /\ (forall k v,
        store !! k = Some v ->
        In k setting_names
        /\ (exists value, valid_setting k value /\ stored_setting k value v)
        /\ (k <> "windowBounds" -> valid_setting k v)
        /\ (k = "windowBounds" ->
            exists w h, v = VObject [("width", w); ("height", h)]
                        /\ number_or_null w /\ number_or_null h)).
Proof.
  cbv zeta. unfold get_settings.
  destruct (store_run_valid transcripts docs evs) as [Hv Hn]. split; [exact Hn|].
  intros k v Hk. destruct (Hv k v Hk) as (value & Hvalid & Hs).
  split; [eapply valid_setting_name; exact Hvalid|]. split; [eauto|]. split.
  - intros Hne. destruct Hs as [[_ ->]|[-> _]]; [exact Hvalid|contradiction].
  - intros ->. destruct Hs as [[Hne _]|(_ & fields & w & h & -> & Fw & Fh & ->)];
      [contradiction|].
    destruct Hvalid as [[[=] _]|[[[=] _]|[[[=] _]|[[[=] _]|[[[=] _]|[[[=] _]|[[[=] _]|
      [[[=] _]|(_ & fields' & w' & h' & [= <-] & Fw' & Fh' & Hw & Hh)]]]]]]]].
    pose proof (get_field_of _ _ _ Fw) as E1. pose proof (get_field_of _ _ _ Fw') as E1'.
    pose proof (get_field_of _ _ _ Fh) as E2. pose proof (get_field_of _ _ _ Fh') as E2'.
    assert (w' = w) as -> by congruence. assert (h' = h) as -> by congruence.
    eexists _, _. split; [reflexivity|]. split; apply number_as_stored_or_null; assumption.
Qed.

Example store_after_infinite_bounds :
  let store := store_run (store_defaults "/home/user/Documents/CourseVault/transcripts"
                            "/home/user/Documents")
                 [Resize 1200 800;
                  SetSettings "windowBounds"
                    (VObject [("height", VNumber (num 900)); ("depth", VNumber (num 1));
                              ("width", VNumber (Infinity false))])] in
  store !! "windowBounds" = Some (VObject [("width", VNull); ("height", VNumber (num 900))]).
Proof. vm_compute. reflexivity. Qed.

Lemma store_run_snoc (store : gmap string Value) (evs : list StoreEvent) (ev : StoreEvent) :
  store_run store (evs ++ [ev]) = store_step (store_run store evs) ev.
Proof. unfold store_run. rewrite fold_left_app. reflexivity. Qed.

(** X2. After any sequence of [set-settings] requests, [get-settings] shows
    under each name what the last request for that name that passed
    validation leaves in the store (its value, or for [windowBounds] the two
    numbers with an infinite one stored as [null]), and the value the store had
    before when no request for that name passed: rejected requests and
    requests for other names leave a setting as it is. *)
Theorem get_settings_last_accepted (store : gmap string Value)
    (reqs : list (string * Value)) (key : string) :
  let shown :=
    get_settings (store_run store (map (fun '(k, v) => SetSettings k v) reqs)) !! key in
  (exists before value after stored,
      reqs = before ++ (key, value) :: after
      /\ valid_setting key value
      /\ Forall (fun '(k, v) => k = key -> ~ valid_setting k v) after
      /\ stored_setting key value stored
      /\ shown = Some stored)
  \/ (Forall (fun '(k, v) => k = key -> ~ valid_setting k v) reqs
      /\ shown = store !! key).
Proof.
  cbv zeta. unfold get_settings.
  induction reqs as [|[k v] reqs IH] using rev_ind.
  - right. split; [constructor|reflexivity].
  - rewrite map_app. cbn [map]. rewrite store_run_snoc. cbn [store_step].
    set (st := store_run store (map (fun '(k0, v0) => SetSettings k0 v0) reqs)) in *.
    destruct (set_settings_validated st k v) as [(Hv & stored & Hs & Hset & Hk & Ho)
                                                 |(Hn & Hf & Hsame)].
    + rewrite Hset. cbn [fst snd].
      destruct (String.eqb_spec k key) as [->|Hne].
      * left. exists reqs, v, [], stored. rewrite Hk. repeat split; auto.
      * rewrite (Ho key) by congruence.
        destruct IH as [(before & value & after & stored' & -> & Hval & Hafter & Hst & Hshown)
                       |[Hall Hshown]].
        -- left. exists before, value, (after ++ [(k, v)]), stored'.
           rewrite <- app_assoc. split; [reflexivity|]. split; [exact Hval|].
           split; [|split; [exact Hst|exact Hshown]].
           apply Forall_app. split; [exact Hafter|]. constructor; [|constructor].
           intros E. congruence.
        -- right. split; [|exact Hshown].
           apply Forall_app. split; [exact Hall|]. constructor; [|constructor].
           intros E. congruence.
    + rewrite Hsame.
      destruct IH as [(before & value & after & stored' & -> & Hval & Hafter & Hst & Hshown)
                     |[Hall Hshown]].
      * left. exists before, value, (after ++ [(k, v)]), stored'.
        rewrite <- app_assoc. split; [reflexivity|]. split; [exact Hval|].
        split; [|split; [exact Hst|exact Hshown]].
        apply Forall_app. split; [exact Hafter|]. constructor; [|constructor].
        intros _. exact Hn.
      * right. split; [|exact Hshown].
        apply Forall_app. split; [exact Hall|]. constructor; [|constructor].
        intros _. exact Hn.
Qed.

Example get_settings_after_requests :
  let reqs := [("theme", VString "light"); ("theme", VString "ultraviolet");
               ("parallelWorkers", VNumber (num 4)); ("parallelWorkers", VNumber (num 9))] in
  let store := store_run (store_defaults "/home/user/Documents/CourseVault/transcripts"
                            "/home/user/Documents")
                 (map (fun '(k, v) => SetSettings k v) reqs) in
  store !! "theme" = Some (VString "light")
  /\ store !! "parallelWorkers" = Some (VNumber (num 4))
  /\ store !! "serverPort" = Some (VNumber (num 8080)).
Proof.
  vm_compute. repeat split; reflexivity.
Qed.

(** ** The worker pool over a session *)

Lemma NoDup_snoc_fresh (l : list nat) (n : nat) :
  Forall (fun x => x < n) l -> List.NoDup l -> List.NoDup (l ++ [n]).
Proof.
  intros Hlt Hnd. induction Hnd as [|x l Hx Hl IH]; simpl.
  - constructor; [intros []|constructor].
  - inversion Hlt as [|? ? Hxn Hrest]; subst. constructor; [|auto].
    intros Hin. apply in_app_or in Hin as [Hin|[<-|[]]]; [contradiction|lia].
Qed.

Lemma spawn_workers_wf (h : Host) (cfg : PoolSettings) (cmd : string) (isScript : bool)
    (now : nat -> Z) (os_pid : nat -> option positive) (remaining : nat) :
  forall i s, pool_wf s ->
              pool_wf (fst (spawn_workers h cfg cmd isScript now os_pid remaining i s)).
Proof.
  induction remaining as [|r IH]; intros i s Hs; [exact Hs|].
  cbn [spawn_workers]. destruct (os_pid i) as [p|] eqn:Hp.
  - match goal with
    | |- context [spawn_workers h cfg cmd isScript now os_pid r (S i) ?s1] =>
        assert (H1 : pool_wf s1); [|specialize (IH (S i) s1 H1);
          destruct (spawn_workers h cfg cmd isScript now os_pid r (S i) s1) as [s2 eff];
          exact IH]
    end.
    destruct Hs as [Hall Hnd]. split; cbn [transcriptionWorkers pool_next_obj].
    + apply Forall_app. split.
      * eapply List.Forall_impl; [|exact Hall]. intros w [? ?]. split; [assumption|lia].
      * constructor; [|constructor]. cbn. split; [eauto|lia].
    + rewrite map_app. cbn. apply NoDup_snoc_fresh; [|exact Hnd].
      apply Forall_map. eapply List.Forall_impl; [|exact Hall]. intros w [_ ?]. assumption.
  - match goal with
    | |- context [spawn_workers h cfg cmd isScript now os_pid r (S i) ?s1] =>
        assert (H1 : pool_wf s1); [|specialize (IH (S i) s1 H1);
          destruct (spawn_workers h cfg cmd isScript now os_pid r (S i) s1) as [s2 eff];
          exact IH]
    end.
    destruct Hs as [Hall Hnd]. split; cbn [transcriptionWorkers pool_next_obj];
      [|exact Hnd].
    eapply List.Forall_impl; [|exact Hall]. intros w [? ?]. split; [assumption|lia].
Qed.

(** What a start does, whatever the host: nothing to a pool that is not
    empty, and on an empty pool either nothing or the spawn loop. *)
Lemma startTranscriptionWorker_cases (h : Host) (cfg : PoolSettings) (win : bool)
    (now : nat -> Z) (os_pid : nat -> option positive) (s : Pool) :
  fst (fst (startTranscriptionWorker h cfg win now os_pid s)) = s
  \/ (transcriptionWorkers s = []
      /\ exists cmd,
           fst (fst (startTranscriptionWorker h cfg win now os_pid s))
           = fst (spawn_workers h cfg cmd (isDev h) now os_pid (workerCount cfg) 0 s)).
Proof.
  destruct (transcriptionWorkers s) as [|w ws] eqn:Hs.
  - destruct (worker_found h) eqn:Hf.
    + right. split; [reflexivity|].
      destruct (startTranscriptionWorker_found h cfg win now os_pid s Hs Hf)
        as (cmd & banner & tail & Heq & _).
      cbv zeta in Heq. exists cmd. rewrite Heq. reflexivity.
    + left. apply (startTranscriptionWorker_missing h cfg win now os_pid s Hf).
  - left. unfold startTranscriptionWorker. rewrite Hs. reflexivity.
Qed.

Lemma filter_wf (worker : nat) (ws : list ChildProcess) (n : nat) :
  Forall (fun w => is_Some (pid w) /\ obj w < n) ws -> List.NoDup (map obj ws) ->
  Forall (fun w => is_Some (pid w) /\ obj w < n)
    (List.filter (fun w => negb (obj w =? worker)%nat) ws)
  /\ List.NoDup (map obj (List.filter (fun w => negb (obj w =? worker)%nat) ws)).
Proof.
  induction ws as [|w ws IH]; intros Hall Hnd; simpl; [split; constructor|].
  inversion Hall as [|? ? Hw Hrest]; subst. inversion Hnd as [|? ? Hnin Hnd']; subst.
  destruct (IH Hrest Hnd') as [IH1 IH2].
  destruct (negb (obj w =? worker)%nat); [|split; assumption].
  split; [constructor; assumption|]. simpl. constructor; [|exact IH2].
  intros Hin. apply Hnin. apply in_map_iff in Hin as (x & Hx & Hin).
  apply in_map_iff. exists x. split; [exact Hx|].
  apply List.filter_In in Hin. tauto.
Qed.

Lemma pool_step_wf (h : Host) (s : Pool) (ev : PoolEvent) :
  pool_wf s -> pool_wf (fst (pool_step h s ev)).
Proof.
  intros Hs. destruct ev as [cfg win now os_pid|threw|worker i code win|]; simpl.
  - destruct (startTranscriptionWorker_cases h cfg win now os_pid s) as [->|[_ [cmd ->]]];
      [exact Hs|]. apply spawn_workers_wf, Hs.
  - unfold stopTranscriptionWorker. destruct (transcriptionWorkers s); [exact Hs|].
    split; constructor.
  - destruct Hs as [Hall Hnd]. unfold pool_wf. cbn. apply filter_wf; assumption.
  - exact Hs.
Qed.

Lemma pool_run_wf (h : Host) (evs : list PoolEvent) :
  forall s, pool_wf s -> pool_wf (fst (pool_run h s evs)).
Proof.
  induction evs as [|ev rest IH]; intros s Hs; simpl; [exact Hs|].
  pose proof (pool_step_wf h s ev Hs) as H1.
  destruct (pool_step h s ev) as [s1 e1]. specialize (IH s1 H1).
  destruct (pool_run h s1 rest) as [s2 e2]. exact IH.
Qed.

Lemma filter_length_le {A : Type} (f : A -> bool) (l : list A) :
  length (List.filter f l) <= length l.
Proof. induction l as [|x l IH]; simpl; [lia|]. destruct (f x); simpl; lia. Qed.

Lemma pool_step_size (h : Host) (s : Pool) (ev : PoolEvent) :
  length (transcriptionWorkers (fst (pool_step h s ev)))
  <= Nat.max (length (transcriptionWorkers s)) (requested ev).
Proof.
  destruct ev as [cfg win now os_pid|threw|worker i code win|]; simpl.
  - destruct (startTranscriptionWorker_cases h cfg win now os_pid s)
      as [->|[Hs [cmd ->]]]; [lia|].
    pose proof (spawn_workers_spec h cfg cmd (isDev h) now os_pid (workerCount cfg) 0 s)
      as Hloop. cbv zeta in Hloop. destruct Hloop as (Hlen & _).
    pose proof (spawn_counts os_pid (workerCount cfg) 0). rewrite Hlen, Hs.
    cbn [length requested]. lia.
  - unfold stopTranscriptionWorker.
    destruct (transcriptionWorkers s) eqn:E; cbn [fst transcriptionWorkers length];
      rewrite ?E; cbn [length]; lia.
  - pose proof (filter_length_le (fun w => negb (obj w =? worker)%nat)
                  (transcriptionWorkers s)). lia.
  - lia.
Qed.

Lemma pool_run_size (h : Host) (evs : list PoolEvent) :
  forall s, length (transcriptionWorkers (fst (pool_run h s evs)))
            <= Nat.max (length (transcriptionWorkers s)) (list_max (map requested evs)).
Proof.
  induction evs as [|ev rest IH]; intros s; simpl; [lia|].
  pose proof (pool_step_size h s ev) as H1.
  destruct (pool_step h s ev) as [s1 e1]. specialize (IH s1).
  destruct (pool_run h s1 rest) as [s2 e2]. simpl in *. lia.
Qed.

Lemma omap_pid_length (ws : list ChildProcess) :
  Forall (fun w => is_Some (pid w)) ws -> length (omap pid ws) = length ws.
Proof.
  induction 1 as [|w ws [p Hp] _ IH]; [reflexivity|].
  cbn [omap list_omap]. fold (omap pid ws). rewrite Hp. simpl. rewrite IH. reflexivity.
Qed.

(** X3. Through every sequence of starts, stops, worker exits and status
    queries, the pool never tracks more workers than the largest worker count
    a start was given; every tracked worker has a pid, no child object is
    tracked twice, and the status query reports one pid per tracked worker and
    [running] exactly when that number is not zero. *)
Theorem pool_session_bounded (h : Host) (evs : list PoolEvent) :
  let s := fst (pool_run h initial_pool evs) in
  let status := get_transcription_status s in
  status_workerCount status <= list_max (map requested evs)
  /\ Forall (fun w => is_Some (pid w)) (transcriptionWorkers s)
  /\ List.NoDup (map obj (transcriptionWorkers s))
  /\ length (status_pids status) = status_workerCount status
  /\ (status_running status = true <-> 0 < status_workerCount status).
Proof.
  cbv zeta.
  pose proof (pool_run_size h evs initial_pool) as Hsize. simpl in Hsize.
  assert (Hwf : pool_wf (fst (pool_run h initial_pool evs))).
  { apply pool_run_wf. split; constructor. }
  destruct Hwf as [Hall Hnd].
  assert (Hpid : Forall (fun w => is_Some (pid w))
                   (transcriptionWorkers (fst (pool_run h initial_pool evs)))).
  { eapply List.Forall_impl; [|exact Hall]. intros w [? _]. assumption. }
  unfold get_transcription_status. cbn [status_workerCount status_pids status_running].
  split; [exact Hsize|]. split; [exact Hpid|]. split; [exact Hnd|].
  split; [apply omap_pid_length; exact Hpid|].
  destruct (length _) as [|n]; simpl; split; intros H; try discriminate; try lia; reflexivity.
Qed.

Lemma filter_other_length (worker : nat) (ws : list ChildProcess) :
  List.NoDup (map obj ws) ->
  length (List.filter (fun w => negb (obj w =? worker)%nat) ws)
  = length ws - (if existsb (fun w => (obj w =? worker)%nat) ws then 1 else 0).
Proof.
  induction ws as [|w ws IH]; intros Hnd; [reflexivity|].
  inversion Hnd as [|? ? Hnin Hnd']; subst. specialize (IH Hnd').
  cbn [List.filter existsb length]. destruct (obj w =? worker)%nat eqn:E; cbn [negb orb].
  - apply Nat.eqb_eq in E.
    assert (Hno : existsb (fun w0 => (obj w0 =? worker)%nat) ws = false).
    { destruct (existsb _ ws) eqn:Hex; [|reflexivity].
      apply existsb_exists in Hex as (x & Hin & Hx). apply Nat.eqb_eq in Hx.
      exfalso. apply Hnin. apply in_map_iff. exists x. split; [congruence|exact Hin]. }
    rewrite Hno in IH. rewrite IH. lia.
  - cbn [length]. rewrite IH.
    destruct (existsb _ ws) eqn:Hex; [|lia].
    apply existsb_exists in Hex as (x & Hin & _). destruct ws; [destruct Hin|simpl; lia].
Qed.

(** X4. In every state of a pool session, the exit of a worker removes that
    worker from the tracked set and no other worker (one fewer when it was
    tracked, none when it was not, as for a worker of a pool that was stopped
    before); the status message [running: false] with the exit code goes to
    the renderer exactly when the tracked set is then empty and the window
    alive. *)
Theorem worker_close_removes_own (h : Host) (history : list PoolEvent)
    (worker i : nat) (code : option Z) (win : bool) :
  let s := fst (pool_run h initial_pool history) in
  let r := on_worker_close worker i code win s in
  (forall w, In w (transcriptionWorkers (fst r))
             <-> In w (transcriptionWorkers s) /\ obj w <> worker)
  /\ length (transcriptionWorkers (fst r))
     = length (transcriptionWorkers s)
       - (if existsb (fun w => (obj w =? worker)%nat) (transcriptionWorkers s)
          then 1 else 0)
  /\ sent_on "transcriber-status" (snd r)
     = (if (length (transcriptionWorkers (fst r)) =? 0)%nat && win
        then [status_payload false "exitCode" code] else []).
Proof.
  cbv zeta.
  assert (Hwf : pool_wf (fst (pool_run h initial_pool history))).
  { apply pool_run_wf. split; constructor. }
  destruct Hwf as [_ Hnd]. unfold on_worker_close. cbn [fst snd transcriptionWorkers].
  split; [|split].
  - intros w. rewrite List.filter_In. split; intros [Hin Hne]; split; try assumption.
    + intros Heq. rewrite Heq, Nat.eqb_refl in Hne. discriminate.
    + apply Bool.negb_true_iff, Nat.eqb_neq. exact Hne.
  - apply filter_other_length. exact Hnd.
  - destruct ((length _ =? 0)%nat && win); reflexivity.
Qed.

Lemma sigterms_kill (h : Host) (threw : nat -> bool) (ws : list ChildProcess) :
  win32 h = false ->
  sigterms (flat_map (kill_worker h threw) ws) = flat_map (sigterm_requests threw) ws
  /\ taskkills (flat_map (kill_worker h threw) ws) = [].
Proof.
  intros Hw. induction ws as [|w ws [IH1 IH2]]; [split; reflexivity|].
  cbn [flat_map]. unfold sigterms, taskkills in *. rewrite !omap_app, IH1, IH2.
  unfold kill_worker, sigterm_requests. rewrite Hw.
  destruct (threw (obj w)); split; reflexivity.
Qed.

Lemma taskkills_kill (h : Host) (threw : nat -> bool) (ws : list ChildProcess) :
  win32 h = true ->
  taskkills (flat_map (kill_worker h threw) ws) = omap pid ws
  /\ sigterms (flat_map (kill_worker h threw) ws)
     = map obj (List.filter (fun w => threw (obj w)) ws).
Proof.
  intros Hw. induction ws as [|w ws [IH1 IH2]]; [split; reflexivity|].
  cbn [flat_map List.filter]. unfold taskkills, sigterms in *. rewrite !omap_app, IH1, IH2.
  unfold kill_worker. rewrite Hw.
  cbn [omap list_omap]. fold (omap pid ws).
  destruct (pid w), (threw (obj w)); split; reflexivity.
Qed.

Lemma kills_after_log (msg : string) (effs : list Effect) :
  taskkills (ConsoleLog msg :: effs) = taskkills effs
  /\ sigterms (ConsoleLog msg :: effs) = sigterms effs.
Proof. split; reflexivity. Qed.

Lemma sigterm_requests_once (threw : nat -> bool) (ws : list ChildProcess) :
  (forall w, In w ws -> threw (obj w) = false) ->
  flat_map (sigterm_requests threw) ws = map obj ws
  /\ List.filter (fun w => threw (obj w)) ws = [].
Proof.
  induction ws as [|w ws IH]; intros H; [split; reflexivity|].
  destruct IH as [IH1 IH2]; [intros w' Hw'; apply H; right; exact Hw'|].
  cbn [flat_map map List.filter]. unfold sigterm_requests at 1.
  rewrite (H w (or_introl eq_refl)), IH1, IH2. split; reflexivity.
Qed.

(** X5. In every state of a pool session, a stop empties the tracked set and
    asks every tracked worker to terminate, in order. Off Windows each worker
    is sent SIGTERM, and once more by the fallback [kill()] when the first
    request throws; on Windows there is one taskkill per tracked worker, and a
    SIGTERM by the fallback for each worker whose taskkill throws. When
    nothing throws every worker gets exactly one request. A stop that follows
    does nothing, and the status query then reports no worker. *)
Theorem stop_terminates_every_worker (h : Host) (history : list PoolEvent)
    (threw threw' : nat -> bool) :
  let s := fst (pool_run h initial_pool history) in
  let r := stopTranscriptionWorker h threw s in
  transcriptionWorkers (fst r) = []
  /\ (if win32 h
      then taskkills (snd r) = omap pid (transcriptionWorkers s)
           /\ length (taskkills (snd r)) = length (transcriptionWorkers s)
           /\ sigterms (snd r)
              = map obj (List.filter (fun w => threw (obj w)) (transcriptionWorkers s))
      else sigterms (snd r) = flat_map (sigterm_requests threw) (transcriptionWorkers s)
           /\ taskkills (snd r) = [])
  /\ ((forall w, In w (transcriptionWorkers s) -> threw (obj w) = false) ->
      sigterms (snd r) = if win32 h then [] else map obj (transcriptionWorkers s))
  /\ stopTranscriptionWorker h threw' (fst r) = (fst r, [])
  /\ status_running (get_transcription_status (fst r)) = false
  /\ status_workerCount (get_transcription_status (fst r)) = 0.
Proof.
  cbv zeta.
  assert (Hwf : pool_wf (fst (pool_run h initial_pool history))).
  { apply pool_run_wf. split; constructor. }
  destruct Hwf as [Hall _].
  assert (Hpid : Forall (fun w => is_Some (pid w))
                   (transcriptionWorkers (fst (pool_run h initial_pool history)))).
  { eapply List.Forall_impl; [|exact Hall]. intros w [? _]. assumption. }
  unfold stopTranscriptionWorker.
  destruct (transcriptionWorkers (fst (pool_run h initial_pool history)))
    as [|w ws] eqn:E.
  - cbn [fst snd]. unfold get_transcription_status.
    cbn [status_running status_workerCount]. rewrite !E. cbn.
    destruct (win32 h); repeat split; reflexivity.
  - cbn [fst snd transcriptionWorkers]. split; [reflexivity|].
    destruct (kills_after_log
                ("Stopping " ++ string_of_nat (length (w :: ws))
                 ++ " transcription worker(s)...")
                (flat_map (kill_worker h threw) (w :: ws))) as [-> ->].
    destruct (win32 h) eqn:Hw.
    + destruct (taskkills_kill h threw (w :: ws) Hw) as [-> ->].
      split; [split; [reflexivity|]; split; [apply omap_pid_length; exact Hpid|reflexivity]|].
      split; [|repeat split; reflexivity].
      intros Hno. destruct (sigterm_requests_once threw (w :: ws) Hno) as [_ ->]. reflexivity.
    + destruct (sigterms_kill h threw (w :: ws) Hw) as [-> ->].
      split; [split; reflexivity|]. split; [|repeat split; reflexivity].
      intros Hno. destruct (sigterm_requests_once threw (w :: ws) Hno) as [-> _]. reflexivity.
Qed.

Example stop_with_throwing_kill :
  let started := fst (pool_run packaged_host initial_pool
                        [StartTranscription four_workers true (fun _ => 1700000000000%Z)
                           (fun i => Some (Pos.of_nat (500 + i)))]) in
  let r := stopTranscriptionWorker packaged_host (fun c => (c =? 1)%nat) started in
  sigterms (snd r) = [0; 1; 1; 2; 3]
  /\ List.filter is_console_error (snd r)
     = [ConsoleError "Error stopping transcription worker:"].
Proof. vm_compute. split; reflexivity. Qed.

(** ** From the settings to the pool *)

Lemma as_strings_map (dirs : list string) : as_strings (map VString dirs) = Some dirs.
Proof. induction dirs as [|d dirs IH]; simpl; [reflexivity|]. rewrite IH. reflexivity. Qed.

Lemma read_integer (q : Q) (z : Z) :
  Qeq q (inject_Z z) -> (0 <= z)%Z ->
  Number_isInteger (Finite q) && Qle_bool 0 q = true
  /\ (Qnum q / Z.pos (Qden q))%Z = z.
Proof.
  intros Hq Hz. split.
  - apply andb_true_intro. split; [apply isInteger_iff; eauto|].
    apply Qle_bool_iff. rewrite Hq. change 0%Q with (inject_Z 0). rewrite <- Zle_Qle. exact Hz.
  - unfold Qeq in Hq. simpl in Hq. rewrite Z.mul_1_r in Hq. rewrite Hq.
    apply Z.div_mul. lia.
Qed.

Lemma pool_settings_of_valid_store (h : Host) (store : gmap string Value) :
  store_valid store ->
  exists cfg, pool_settings_of_store h store = Some cfg
              /\ 1 <= parallelWorkers cfg <= 8
              /\ workerCount cfg = parallelWorkers cfg
              /\ store !! "sourceDirectories"
                 = Some (VArray (map VString (sourceDirectories cfg)))
              /\ store !! "gpuAcceleration" = Some (VBool (gpuAcceleration cfg))
              /\ exists q, store !! "parallelWorkers" = Some (VNumber (Finite q))
                           /\ Qeq q (inject_Z (Z.of_nat (parallelWorkers cfg))).
Proof.
  intros [Hv Hn]. unfold setting_names in Hn. simpl in Hn.
  assert (Hd : is_Some (store !! "sourceDirectories")).
  { inversion Hn as [|? ? _ H1]; subst. inversion H1; subst. assumption. }
  assert (Hg : is_Some (store !! "gpuAcceleration")).
  { do 6 (inversion Hn as [|? ? _ H1]; subst; clear Hn; rename H1 into Hn).
    inversion Hn; subst. assumption. }
  assert (Hp : is_Some (store !! "parallelWorkers")).
  { do 7 (inversion Hn as [|? ? _ H1]; subst; clear Hn; rename H1 into Hn).
    inversion Hn; subst. assumption. }
  destruct Hd as [vd Hd], Hg as [vg Hg], Hp as [vp Hp].
  assert (Hplain : forall k v, store !! k = Some v -> k <> "windowBounds" ->
                               valid_setting k v).
  { intros k v Hk Hne. destruct (Hv _ _ Hk) as (value & Hvalid & [[_ ->]|[-> _]]);
      [exact Hvalid|contradiction]. }
  pose proof (Hplain _ _ Hd ltac:(discriminate)) as Vd.
  pose proof (Hplain _ _ Hg ltac:(discriminate)) as Vg.
  pose proof (Hplain _ _ Hp ltac:(discriminate)) as Vp.
  unfold valid_setting in Vd, Vg, Vp.
  destruct Vd as [[E _]|[[_ [dirs ->]]|[[E _]|[[E _]|[[E _]|[[E _]|[[E _]|[[E _]|[E _]]]]]]]]];
    try discriminate E.
  destruct Vg as [[E _]|[[E _]|[[E _]|[[E _]|[[E _]|[[E _]|[[_ [b ->]]|[[E _]|[E _]]]]]]]]];
    try discriminate E.
  destruct Vp as [[E _]|[[E _]|[[E _]|[[E _]|[[E _]|[[E _]|[[E _]|[[_ Hz]|[E _]]]]]]]]];
    try discriminate E.
  destruct Hz as (z & (q & -> & Hq) & Hz).
  destruct (read_integer q z Hq ltac:(lia)) as [Hi Hdiv].
  exists {| sourceDirectories := dirs; gpuAcceleration := b;
            parallelWorkers := Z.to_nat z |}.
  unfold pool_settings_of_store, read_sourceDirectories, read_gpuAcceleration,
    read_parallelWorkers.
  rewrite Hd, Hg, Hp, as_strings_map, Hi, Hdiv. cbn [parallelWorkers sourceDirectories
    gpuAcceleration].
  split; [reflexivity|]. split; [lia|]. split; [|split; [reflexivity|split; [reflexivity|]]].
  - unfold workerCount. cbn [parallelWorkers].
    destruct (Z.to_nat z) eqn:Ez; [lia|reflexivity].
  - exists q. split; [reflexivity|]. rewrite Z2Nat.id by lia. exact Hq.
Qed.

(** X6. Whatever [set-settings] requests and resizes came before, the pool
    settings read from the store are well typed, the worker count is the
    stored number, between 1 and 8 (the fallback [|| 1] never applies), and a
    start of the pool with them tracks at most 8 workers. *)
Theorem session_settings_bound_pool (h : Host) (transcripts : string)
    (evs : list StoreEvent) (win : bool) (now : nat -> Z)
    (os_pid : nat -> option positive) :
  let store := store_run (store_defaults transcripts (documents h)) evs in
  exists cfg,
    pool_settings_of_store h store = Some cfg
    /\ (exists q, store !! "parallelWorkers" = Some (VNumber (Finite q))
                  /\ Qeq q (inject_Z (Z.of_nat (workerCount cfg))))
    /\ 1 <= workerCount cfg <= 8
    /\ length (transcriptionWorkers
                 (fst (fst (startTranscriptionWorker h cfg win now os_pid initial_pool))))
       <= 8.
Proof.
  cbv zeta.
  destruct (pool_settings_of_valid_store h _ (store_run_valid transcripts (documents h) evs))
    as (cfg & Hcfg & Hrange & Hcount & _ & _ & Hq).
  exists cfg. split; [exact Hcfg|]. rewrite Hcount. split; [exact Hq|]. split; [exact Hrange|].
  pose proof (pool_step_size h initial_pool (StartTranscription cfg win now os_pid)) as H.
  cbn [pool_step requested] in H.
  change (length (transcriptionWorkers initial_pool)) with 0 in H. lia.
Qed.

(** ** The encrypted store of secrets *)

Lemma Value_nested_ind (P : Value -> Prop) :
  P VUndefined -> P VNull -> (forall b, P (VBool b)) -> (forall n, P (VNumber n)) ->
  (forall s, P (VString s)) ->
  (forall items, Forall P items -> P (VArray items)) ->
  (forall fields, Forall (fun kv => P (snd kv)) fields -> P (VObject fields)) ->
  forall v, P v.
Proof.
  intros H1 H2 H3 H4 H5 H6 H7. fix IH 1.
  intros [| |b|n|s|items|fields];
    [exact H1|exact H2|apply H3|apply H4|apply H5| |].
  - apply H6. revert items. fix IHl 1. intros [|x rest]; constructor; [apply IH|apply IHl].
  - apply H7. revert fields. fix IHl 1. intros [|[k x] rest]; constructor;
      [apply IH|apply IHl].
Qed.

(** A JSON value is its own image, and an image is a JSON value. *)
Lemma json_image_id (v : Value) : is_json v = true -> json_image v = v.
Proof.
  induction v as [| |b|n|s|items IH|fields IH] using Value_nested_ind;
    cbn [is_json json_image]; try reflexivity; try discriminate.
  - destruct n; [reflexivity|discriminate|discriminate].
  - intros H. f_equal. induction IH as [|x rest Hx _ IHrest]; [reflexivity|].
    cbn [forallb] in H. apply andb_prop in H as [H1 H2]. cbn [map].
    rewrite (IHrest H2). destruct x; try discriminate H1; rewrite <- (Hx H1) at 2; reflexivity.
  - intros H. f_equal. induction IH as [|[k x] rest Hx _ IHrest]; [reflexivity|].
    cbn [forallb snd] in H. apply andb_prop in H as [H1 H2]. cbn [flat_map].
    rewrite (IHrest H2). cbn [snd] in Hx.
    destruct x; try discriminate H1; rewrite <- (Hx H1) at 2; reflexivity.
Qed.

Lemma json_image_is_json (v : Value) : v <> VUndefined -> is_json (json_image v) = true.
Proof.
  induction v as [| |b|n|s|items IH|fields IH] using Value_nested_ind;
    cbn [is_json json_image]; try reflexivity; try congruence.
  - destruct n; reflexivity.
  - intros _. induction IH as [|x rest Hx _ IHrest]; [reflexivity|].
    cbn [map forallb]. rewrite IHrest, andb_true_r.
    destruct x; try reflexivity; apply Hx; discriminate.
  - intros _. induction IH as [|[k x] rest Hx _ IHrest]; [reflexivity|].
    cbn [flat_map]. cbn [snd] in Hx.
    destruct x; cbn [app forallb snd]; try exact IHrest;
      rewrite IHrest, andb_true_r; try reflexivity; apply Hx; discriminate.
Qed.

(** X7. The two handlers of the encrypted store serve the one name
    [openaiApiKey]: for any other name a write answers [false] and leaves the
    store as it is, and a read answers [null] whatever the store holds under
    that name. A write of [undefined] under [openaiApiKey] throws without a
    change; any other value is written and what is read back is its JSON
    image: the value itself when it is a JSON value, as a string or [null]
    is, and in any case a JSON value, so that [NaN] or an infinity written
    is read back as [null]. *)
Theorem secure_settings_guarded (secureStore : gmap string Value) (key : string)
    (value : Value) :
  let w := set_secure_setting secureStore key value in
  let read := fst (get_secure_setting (snd (fst w)) key) in
  if String.eqb key "openaiApiKey" then
    match value with
    | VUndefined => fst (fst w) = None /\ snd (fst w) = secureStore
    | _ => fst (fst w) = Some true
           /\ read = json_image value
           /\ is_json read = true
           /\ (is_json value = true -> read = value)
           /\ (forall s, value = VString s -> read = VString s)
           /\ (forall n, value = VNumber n -> n = NaN \/ (exists neg, n = Infinity neg) ->
                         read = VNull)
           /\ (forall k, k <> key -> snd (fst w) !! k = secureStore !! k)
    end
  else
    fst (fst w) = Some false /\ snd (fst w) = secureStore
    /\ fst (get_secure_setting secureStore key) = VNull
    /\ (forall other v, fst (get_secure_setting
                              (snd (fst (set_secure_setting secureStore other v))) key)
                        = VNull).
Proof.
  cbv zeta. unfold set_secure_setting, get_secure_setting, SECURE_KEYS.
  cbn [existsb]. rewrite !orb_false_r.
  destruct (String.eqb_spec key "openaiApiKey") as [->|Hne].
  - assert (Hgen : value <> VUndefined ->
             let st := <["openaiApiKey" := json_image value]> secureStore in
             default VUndefined (st !! "openaiApiKey") = json_image value
             /\ is_json (default VUndefined (st !! "openaiApiKey")) = true
             /\ (is_json value = true -> default VUndefined (st !! "openaiApiKey") = value)
             /\ (forall s, value = VString s ->
                           default VUndefined (st !! "openaiApiKey") = VString s)
             /\ (forall n, value = VNumber n -> n = NaN \/ (exists neg, n = Infinity neg) ->
                           default VUndefined (st !! "openaiApiKey") = VNull)
             /\ (forall k, k <> "openaiApiKey" -> st !! k = secureStore !! k)).
    { intros Hu. cbv zeta. rewrite lookup_insert_eq. cbn [default].
      split; [reflexivity|]. split; [apply json_image_is_json, Hu|].
      split; [apply json_image_id|]. split; [intros s ->; reflexivity|].
      split; [intros n -> [->|[neg ->]]; reflexivity|].
      intros k Hk. apply lookup_insert_ne. congruence. }
    destruct value; cbn [fst snd]; try (split; reflexivity);
      (split; [reflexivity|]; apply Hgen; discriminate).
  - cbn [fst snd]. repeat split.
Qed.

(** ** The service over a session *)

Lemma start_effects (h : Host) (port : Z) (os_pid : option positive) (s : Supervisor) :
  List.filter is_timeout (snd (fst (startPythonServer_sync h port os_pid s))) = []
  /\ signalled (snd (fst (startPythonServer_sync h port os_pid s))) = []
  /\ taskkills (snd (fst (startPythonServer_sync h port os_pid s))) = []
  /\ length (spawned (snd (fst (startPythonServer_sync h port os_pid s)))) <= 1
  /\ isQuitting (fst (fst (startPythonServer_sync h port os_pid s))) = isQuitting s
  /\ restart_timers (fst (fst (startPythonServer_sync h port os_pid s))) = restart_timers s.
Proof.
  unfold startPythonServer_sync, spawn_server.
  destruct (isDev h).
  - destruct (existsSync h (serverScript h)); cbn [negb]; [|cbn; repeat split; lia].
    destruct (findPython h); [|cbn; repeat split; lia].
    destruct os_pid; cbn; repeat split; lia.
  - destruct (existsSync h (serverExe h)); cbn [negb]; [|cbn; repeat split; lia].
    destruct os_pid; cbn; repeat split; lia.
Qed.

Lemma stop_effects (h : Host) (threw : bool) (s : Supervisor) :
  List.filter is_timeout (snd (stopPythonServer h threw s)) = []
  /\ spawned (snd (stopPythonServer h threw s)) = []
  /\ isQuitting (fst (stopPythonServer h threw s)) = isQuitting s
  /\ restart_timers (fst (stopPythonServer h threw s)) = restart_timers s
  /\ pythonProcess (fst (stopPythonServer h threw s)) = None.
Proof.
  unfold stopPythonServer. destruct (pythonProcess s) as [c|] eqn:E; [|cbn; auto].
  cbn [fst snd isQuitting restart_timers pythonProcess].
  destruct (win32 h); [destruct (pid c)|]; destruct threw; cbn; auto.
Qed.

(** A step taken while the application quits: the flag stays, no timer is
    set, and a spawn takes a pending timer. *)
Lemma step_while_quitting (h : Host) (s : Supervisor) (ev : Event) :
  isQuitting s = true -> requests_start ev = false ->
  isQuitting (fst (step h s ev)) = true
  /\ List.filter is_timeout (snd (step h s ev)) = []
  /\ length (spawned (snd (step h s ev))) + restart_timers (fst (step h s ev))
     <= restart_timers s.
Proof.
  intros Hq Hev. destruct ev as [port p|threw port p| |c code|port p|threw];
    try discriminate Hev; cbn [step].
  - cbn. repeat split; [assumption|lia].
  - unfold on_service_close. destruct (registered c s); [|cbn; repeat split; [assumption|lia]].
    rewrite Hq. cbn. repeat split. lia.
  - destruct (restart_timers s) as [|t] eqn:Ht; [cbn; repeat split; [assumption|lia]|].
    destruct (start_effects h port p (take_timer s)) as (H1 & _ & _ & H4 & H5 & H6).
    destruct (startPythonServer_sync h port p (take_timer s)) as [[s' eff] out].
    cbn [fst snd] in *. rewrite H5, H6. cbn [take_timer isQuitting restart_timers].
    rewrite Ht. cbn [pred]. repeat split; [assumption|assumption|lia].
  - destruct (stop_effects h threw (set_quitting s)) as (H1 & H2 & H3 & H4 & _).
    rewrite H1, H2, H3, H4. cbn. repeat split. lia.
Qed.

Lemma steps_while_quitting (h : Host) (evs : list Event) :
  forall s, isQuitting s = true -> forallb (fun ev => negb (requests_start ev)) evs = true ->
            isQuitting (fst (steps h s evs)) = true
            /\ List.filter is_timeout (snd (steps h s evs)) = []
            /\ length (spawned (snd (steps h s evs))) + restart_timers (fst (steps h s evs))
               <= restart_timers s.
Proof.
  induction evs as [|ev rest IH]; intros s Hq Hevs; cbn [steps].
  - cbn. repeat split; [assumption|lia].
  - cbn [forallb] in Hevs. apply andb_prop in Hevs as [Hev Hrest].
    apply Bool.negb_true_iff in Hev.
    destruct (step_while_quitting h s ev Hq Hev) as (H1 & H2 & H3).
    destruct (step h s ev) as [s1 e1]. cbn [fst snd] in *.
    destruct (IH s1 H1 Hrest) as (I1 & I2 & I3).
    destruct (steps h s1 rest) as [s2 e2]. cbn [fst snd] in *.
    rewrite List.filter_app, H2, I2, spawned_app, length_app.
    repeat split; [assumption|lia].
Qed.

(** X8. Once the application quits ([before-quit]: the flag is set, then the
    service is stopped), the handle is empty and, through every later sequence
    of exits, timers, status queries and further stops, the flag stays set, no
    restart timer is set any more, and the service is spawned at most as many
    times as restart timers were pending when the quit began. *)
Theorem quit_ends_restarts (h : Host) (s : Supervisor) (threw : bool) (evs : list Event) :
  forallb (fun ev => negb (requests_start ev)) evs = true ->
  let quitting := fst (step h s (BeforeQuit threw)) in
  let later := steps h quitting evs in
  pythonProcess quitting = None
  /\ isQuitting (fst later) = true
  /\ List.filter is_timeout (snd later) = []
  /\ length (spawned (snd later)) <= restart_timers s.
Proof.
  intros Hevs. cbv zeta. cbn [step].
  destruct (stop_effects h threw (set_quitting s)) as (_ & _ & H3 & H4 & H5).
  split; [exact H5|].
  destruct (steps_while_quitting h evs (fst (stopPythonServer h threw (set_quitting s)))
              ltac:(rewrite H3; reflexivity) Hevs) as (I1 & I2 & I3).
  rewrite H4 in I3. cbn [set_quitting restart_timers] in I3.
  split; [exact I1|]. split; [exact I2|]. lia.
Qed.

Lemma quit_ends_restarts_witness :
  let s := fst (steps packaged_host initial_supervisor
                  [AppReady 8080 (Some 100%positive); ServiceClose 0 (Some 1%Z);
                   TimerFires 8080 (Some 101%positive)]) in
  let evs := [ServiceClose 1 None; TimerFires 8080 (Some 102%positive); GetServerStatus;
              BeforeQuit false] in
  let quitting := fst (step packaged_host s (BeforeQuit false)) in
  let later := steps packaged_host quitting evs in
  forallb (fun ev => negb (requests_start ev)) evs = true
  /\ pythonProcess quitting = None
  /\ isQuitting (fst later) = true
  /\ List.filter is_timeout (snd later) = []
  /\ length (spawned (snd later)) <= restart_timers s.
Proof.
  cbv zeta. split; [reflexivity|].
  apply (quit_ends_restarts packaged_host
           (fst (steps packaged_host initial_supervisor
                   [AppReady 8080 (Some 100%positive); ServiceClose 0 (Some 1%Z);
                    TimerFires 8080 (Some 101%positive)]))
           false
           [ServiceClose 1 None; TimerFires 8080 (Some 102%positive); GetServerStatus;
            BeforeQuit false]).
  reflexivity.
Defined.

(** A restart timer that is pending when the quit begins still spawns. *)
Example quit_with_pending_timer_spawns :
  let s := fst (steps packaged_host initial_supervisor
                  [AppReady 8080 (Some 100%positive); ServiceClose 0 (Some 1%Z)]) in
  let later := steps packaged_host (fst (step packaged_host s (BeforeQuit false)))
                 [TimerFires 8080 (Some 101%positive)] in
  restart_timers s = 1
  /\ map pid (spawned (snd later)) = [Some 101%positive]
  /\ map pid (running_procs (fst later)) = [Some 101%positive]
  /\ isQuitting (fst later) = true.
Proof. vm_compute. repeat split; reflexivity. Qed.

(** *** Children out of the handle *)

Lemma set_status_other (c : nat) (st : ProcStatus) (p : ChildProcess)
    (procs : list (ChildProcess * ProcStatus)) :
  obj p <> c -> In (p, Running) procs -> In (p, Running) (set_status c st procs).
Proof.
  intros Hne Hin. unfold set_status. apply in_map_iff. exists (p, Running).
  split; [|exact Hin]. apply Nat.eqb_neq in Hne. rewrite Hne. reflexivity.
Qed.

Lemma running_procs_In (p : ChildProcess) (s : Supervisor) :
  In p (running_procs s) <-> In (p, Running) (service_procs s).
Proof.
  unfold running_procs. rewrite in_map_iff. split.
  - intros ([q st] & <- & Hin). apply List.filter_In in Hin as [Hin Hst].
    destruct st; try discriminate. exact Hin.
  - intros Hin. exists (p, Running). split; [reflexivity|].
    apply List.filter_In. split; [exact Hin|reflexivity].
Qed.

Lemma out_of_handle_start (h : Host) (port : Z) (os_pid : option positive)
    (p : ChildProcess) (s : Supervisor) :
  out_of_handle p s -> out_of_handle p (fst (fst (startPythonServer_sync h port os_pid s))).
Proof.
  intros (Hin & Hlt & Hh).
  assert (Hspawn : forall cmd argv,
             out_of_handle p (fst (fst (spawn_server cmd argv port os_pid s)))).
  { intros cmd argv. unfold spawn_server, out_of_handle.
    destruct os_pid; cbn [fst service_procs next_obj pythonProcess].
    - split; [apply in_or_app; left; exact Hin|]. split; [lia|].
      intros child [= <-]. cbn. lia.
    - split; [exact Hin|]. split; [lia|]. intros child [= <-]. cbn. lia. }
  unfold startPythonServer_sync. destruct (isDev h).
  - destruct (existsSync h (serverScript h)); cbn [negb]; [|split; auto].
    destruct (findPython h) as [cmd|]; [|split; auto].
    specialize (Hspawn cmd [serverScript h; "--port"; string_of_Z port]).
    destruct (spawn_server _ _ _ _ _) as [[s' eff] out]. exact Hspawn.
  - destruct (existsSync h (serverExe h)); cbn [negb]; [|split; auto].
    specialize (Hspawn (serverExe h) ["--port"; string_of_Z port]).
    destruct (spawn_server _ _ _ _ _) as [[s' eff] out]. exact Hspawn.
Qed.

Lemma out_of_handle_stop (h : Host) (threw : bool) (p : ChildProcess) (s : Supervisor) :
  out_of_handle p s -> out_of_handle p (fst (stopPythonServer h threw s)).
Proof.
  intros (Hin & Hlt & Hh). unfold stopPythonServer.
  destruct (pythonProcess s) as [c|] eqn:E; [|split; [exact Hin|split; [exact Hlt|]]].
  - split; [|split; [exact Hlt|intros child [=]]].
    cbn [fst service_procs]. apply set_status_other; [|exact Hin].
    intros Heq. exact (Hh c eq_refl (eq_sym Heq)).
  - cbn [fst]. rewrite E. intros child [=].
Qed.

Lemma out_of_handle_step (h : Host) (p : ChildProcess) (s : Supervisor) (ev : Event) :
  out_of_handle p s -> is_close_of (obj p) ev = false ->
  out_of_handle p (fst (step h s ev)).
Proof.
  intros Ho Hev. destruct ev as [port q|threw port q| |c code|port q|threw]; cbn [step].
  - pose proof (out_of_handle_start h port q p s Ho) as H.
    destruct (startPythonServer_sync h port q s) as [[s' eff] out]. exact H.
  - unfold restart_server.
    pose proof (out_of_handle_stop h threw p s Ho) as H1.
    destruct (stopPythonServer h threw s) as [s1 e1].
    pose proof (out_of_handle_start h port q p s1 H1) as H2.
    destruct (startPythonServer_sync h port q s1) as [[s2 e2] out]. exact H2.
  - exact Ho.
  - cbn in Hev. apply Nat.eqb_neq in Hev. destruct Ho as (Hin & Hlt & Hh).
    unfold on_service_close. destruct (registered c s); [|split; auto].
    destruct (isQuitting s); cbn [fst]; (split; [|split; [exact Hlt|intros child [=]]]);
      cbn [service_procs]; apply set_status_other; auto.
  - destruct (restart_timers s) as [|t] eqn:Ht; [exact Ho|].
    assert (H0 : out_of_handle p (take_timer s)) by exact Ho.
    pose proof (out_of_handle_start h port q p _ H0) as H.
    destruct (startPythonServer_sync h port q (take_timer s)) as [[s' eff] out]. exact H.
  - apply out_of_handle_stop. exact Ho.
Qed.

Lemma out_of_handle_steps (h : Host) (p : ChildProcess) (evs : list Event) :
  forall s, out_of_handle p s -> forallb (fun ev => negb (is_close_of (obj p) ev)) evs = true ->
            out_of_handle p (fst (steps h s evs)).
Proof.
  induction evs as [|ev rest IH]; intros s Ho Hevs; cbn [steps]; [exact Ho|].
  cbn [forallb] in Hevs. apply andb_prop in Hevs as [Hev Hrest].
  apply Bool.negb_true_iff in Hev.
  pose proof (out_of_handle_step h p s ev Ho Hev) as H1.
  destruct (step h s ev) as [s1 e1]. specialize (IH s1 H1 Hrest).
  destruct (steps h s1 rest) as [s2 e2]. exact IH.
Qed.

Lemma fresh_objs_running (p : ChildProcess) (s : Supervisor) :
  fresh_objs s -> In (p, Running) (service_procs s) -> obj p < next_obj s.
Proof.
  unfold fresh_objs. intros Hf Hin. rewrite List.Forall_forall in Hf.
  exact (Hf (p, Running) Hin).
Qed.

(** X9. In every state the supervisor can reach, a running service process
    that the handle does not hold stays running, and out of the handle,
    through every sequence of events other than its own exit: no stop, restart
    or quit request sends it a termination request. *)
Theorem child_out_of_handle_keeps_running (h : Host) (history evs : list Event)
    (p : ChildProcess) :
  let s := fst (steps h initial_supervisor history) in
  let later := steps h s evs in
  In p (running_procs s) ->
  (forall child, pythonProcess s = Some child -> obj child <> obj p) ->
  forallb (fun ev => negb (is_close_of (obj p) ev)) evs = true ->
  In p (running_procs (fst later))
  /\ (forall child, pythonProcess (fst later) = Some child -> obj child <> obj p).
Proof.
  cbv zeta. intros Hrun Hh Hevs.
  assert (Hfresh : fresh_objs (fst (steps h initial_supervisor history))).
  { apply fresh_objs_steps. constructor. }
  apply running_procs_In in Hrun.
  assert (Ho : out_of_handle p (fst (steps h initial_supervisor history))).
  { split; [exact Hrun|]. split; [eapply fresh_objs_running; eassumption|exact Hh]. }
  destruct (out_of_handle_steps h p evs _ Ho Hevs) as (H1 & _ & H3).
  split; [apply running_procs_In; exact H1|exact H3].
Qed.

Lemma child_out_of_handle_keeps_running_witness :
  let p := {| obj := 1; pid := Some 101%positive; args := ["--port"; "8080"] |} in
  let evs := [RestartServer false 8080 (Some 103%positive); ServiceClose 2 None;
              BeforeQuit false; ServiceClose 3 None] in
  let s := fst (steps packaged_host initial_supervisor restart_then_exit_then_timer) in
  let later := steps packaged_host s evs in
  In p (running_procs s)
  /\ (forall child, pythonProcess s = Some child -> obj child <> obj p)
  /\ forallb (fun ev => negb (is_close_of (obj p) ev)) evs = true
  /\ In p (running_procs (fst later))
  /\ (forall child, pythonProcess (fst later) = Some child -> obj child <> obj p).
Proof.
  cbv zeta.
  assert (H1 : In {| obj := 1; pid := Some 101%positive; args := ["--port"; "8080"] |}
                 (running_procs
                    (fst (steps packaged_host initial_supervisor
                            restart_then_exit_then_timer)))).
  { vm_compute. left. reflexivity. }
  assert (H2 : forall child,
             pythonProcess (fst (steps packaged_host initial_supervisor
                                   restart_then_exit_then_timer)) = Some child ->
             obj child <> 1).
  { intros child. vm_compute. intros [= <-]. cbn. discriminate. }
  split; [exact H1|]. split; [exact H2|]. split; [reflexivity|].
  exact (child_out_of_handle_keeps_running packaged_host restart_then_exit_then_timer
           [RestartServer false 8080 (Some 103%positive); ServiceClose 2 None;
            BeforeQuit false; ServiceClose 3 None]
           {| obj := 1; pid := Some 101%positive; args := ["--port"; "8080"] |}
           H1 H2 eq_refl).
Defined.

(** *** The console of the health wait *)

Lemma consoles_wait_loop (port : Z) (probe : nat -> bool) (remaining : nat) :
  forall i n,
    consoles (fst (run (waitForServer_loop port remaining i) probe n))
    = map still_initializing (tenth_iterations i (failed_probes probe n remaining))
      ++ [if (failed_probes probe n remaining <? remaining)%nat
          then ConsoleLog "Python server is ready!"
          else ConsoleWarn
                 "Server taking longer than expected, but React app will keep retrying..."].
Proof.
  induction remaining as [|r IH]; intros i n; [reflexivity|].
  cbn [waitForServer_loop run failed_probes]. destruct (probe n) eqn:Hp; [reflexivity|].
  specialize (IH (S i) (S n)).
  destruct (run (waitForServer_loop port r (S i)) probe (S n)) as [t res] eqn:E.
  cbn [fst] in IH.
  change (S (failed_probes probe (S n) r) <? S r)%nat
    with (failed_probes probe (S n) r <? r)%nat.
  unfold tenth_iterations in *. cbn [seq List.filter].
  destruct (i mod 10 =? 0)%nat; cbn [run]; rewrite E; cbn [fst];
    unfold consoles in *; cbn [omap list_omap map app];
    fold (omap (fun x => match x with TConsole e => Some e | _ => None end) t);
    rewrite IH; reflexivity.
Qed.

(** X10. Whatever the service answers, the console of the health wait is: one
    progress line before the timer of each failed request whose index is 0, 10,
    20, ..., with twice that index as the elapsed seconds, and then exactly one
    last line, the ready line when one of the 60 requests succeeded and the
    warning when none did. *)
Theorem waitForServer_console (port : Z) (probe : nat -> bool) :
  let failed := failed_probes probe 0 60 in
  consoles (fst (run (waitForServer port) probe 0))
  = map still_initializing (tenth_iterations 0 failed)
    ++ [if (failed <? 60)%nat
        then ConsoleLog "Python server is ready!"
        else ConsoleWarn
               "Server taking longer than expected, but React app will keep retrying..."]
  /\ length (tenth_iterations 0 failed) <= 6.
Proof.
  cbv zeta. split; [exact (consoles_wait_loop port probe 60 0 0)|].
  pose proof (failed_probes_le probe 60 0) as Hle.
  assert (Hmono : forall n d, length (tenth_iterations 0 n)
                              <= length (tenth_iterations 0 (n + d))).
  { intros n d. unfold tenth_iterations.
    rewrite seq_app, List.filter_app, length_app. lia. }
  assert (H60 : length (tenth_iterations 0 60) = 6) by (vm_compute; reflexivity).
  specialize (Hmono (failed_probes probe 0 60) (60 - failed_probes probe 0 60)).
  replace (failed_probes probe 0 60 + (60 - failed_probes probe 0 60)) with 60
    in Hmono by lia.
  lia.
Qed.

Example waitForServer_console_15 :
  consoles (fst (run (waitForServer 8080) (fun n => 15 <=? n)%nat 0))
  = [ConsoleLog "Server still initializing... (0s elapsed)";
     ConsoleLog "Server still initializing... (20s elapsed)";
     ConsoleLog "Python server is ready!"].
Proof. vm_compute. reflexivity. Qed.

(** ** Looking up programs *)

(** X11. [findPython] answers with the first of [python], [python3], [py]
    whose version output holds [Python 3], the commands before it having
    failed or answered otherwise; it throws exactly when no command of the
    three qualifies. *)
Theorem findPython_first_match (version : string -> option string) :
  match findPython_search version with
  | Some cmd =>
      exists before after,
        pythonCommands = before ++ cmd :: after
        /\ (exists result, version cmd = Some result /\ includes "Python 3" result = true)
        /\ Forall (fun c => forall result, version c = Some result ->
                                           includes "Python 3" result = false) before
  | None =>
      Forall (fun c => forall result, version c = Some result ->
                                      includes "Python 3" result = false) pythonCommands
  end.
Proof.
  unfold findPython_search. generalize pythonCommands. intros cmds.
  induction cmds as [|c rest IH]; cbn [first_python]; [constructor|].
  destruct (version c) as [result|] eqn:Ev.
  - destruct (includes "Python 3" result) eqn:Ei.
    + exists [], rest. split; [reflexivity|]. split; [eauto|constructor].
    + destruct (first_python version rest) as [cmd|].
      * destruct IH as (before & after & -> & Hcmd & Hbefore).
        exists (c :: before), after. split; [reflexivity|]. split; [exact Hcmd|].
        constructor; [|exact Hbefore]. intros r Hr. congruence.
      * constructor; [|exact IH]. intros r Hr. congruence.
  - destruct (first_python version rest) as [cmd|].
    + destruct IH as (before & after & -> & Hcmd & Hbefore).
      exists (c :: before), after. split; [reflexivity|]. split; [exact Hcmd|].
      constructor; [|exact Hbefore]. intros r Hr. congruence.
    + constructor; [|exact IH]. intros r Hr. congruence.
Qed.

(** Any Python 3 is taken, whatever its minor version. *)
Example findPython_takes_old_python3 :
  findPython_search (fun cmd => if String.eqb cmd "python" then Some "Python 2.7.18"
                                else if String.eqb cmd "python3" then Some "Python 3.6.9"
                                else None)
  = Some "python3".
Proof. vm_compute. reflexivity. Qed.

(** X12. [findOllamaPath] answers, on Windows, with the first of its three
    candidate paths that exists, and with the bare command [ollama] when none
    exists; elsewhere it answers [ollama] without looking at the disk. *)
Theorem findOllamaPath_result (h : Host) (user_install : string) :
  let path := findOllamaPath h user_install in
  if win32 h then
    (exists before after,
        ollama_candidates user_install = before ++ path :: after
        /\ existsSync h path = true
        /\ Forall (fun c => existsSync h c = false) before)
    \/ (path = "ollama"
        /\ Forall (fun c => existsSync h c = false) (ollama_candidates user_install))
  else path = "ollama".
Proof.
  cbv zeta. unfold findOllamaPath. destruct (win32 h); [|reflexivity].
  generalize (ollama_candidates user_install). intros cs.
  induction cs as [|c rest IH]; cbn [List.find]; [right; split; [reflexivity|constructor]|].
  destruct (existsSync h c) eqn:Ec.
  - left. exists [], rest. cbn. split; [reflexivity|]. split; [exact Ec|constructor].
  - destruct IH as [(before & after & Hrest & He & Hb)|[Hp Hall]].
    + left. exists (c :: before), after.
      split; [cbn [app]; f_equal; exact Hrest|]. split; [exact He|].
      constructor; assumption.
    + right. split; [exact Hp|]. constructor; assumption.
Qed.

(** ** Starting the dependent services *)


(** X14. The [start-ollama] handler makes no request before it spawns: when
    [spawn] returns it has spawned [ollama serve] once, with the path
    [findOllamaPath] gives, and waited 3000 ms, whether or not a server runs
    already. On Windows it then makes one request and answers [success]
    exactly for the status 200: another status gives no [error], an error of
    the request gives [Ollama not responding], the time-out gives [Timeout].
    Elsewhere it makes no request and answers [success]. When [spawn] throws
    nothing is spawned and the answer carries the text of the exception. *)
Theorem start_ollama_answer (h : Host) (user_install : string)
    (spawn_result : string + (nat * option positive)) (answer : TagsAnswer) :
  let r := start_ollama h user_install spawn_result answer in
  match spawn_result with
  | inl err =>
      spawned_while (fst r) = [] /\ slept (fst r) = 0%N /\ count_fetch (fst r) = 0
      /\ snd r = {| reply_success := false; reply_error := Some err |}
  | inr (o, p) =>
      let child := {| obj := o; pid := p; args := ["serve"] |} in
      spawned_while (fst r) = [child]
      /\ In (TConsole (Spawn (findOllamaPath h user_install) child)) (fst r)
      /\ slept (fst r) = 3000%N
      /\ count_fetch (fst r) = (if win32 h then 1 else 0)
      /\ (reply_success (snd r) = true
          <-> (win32 h = true -> answer = TagsStatus 200))
      /\ (reply_error (snd r)
          = if win32 h
            then match answer with
                 | TagsStatus _ => None
                 | TagsError => Some "Ollama not responding"
                 | TagsTimeout => Some "Timeout"
                 end
            else None)
  end.
Proof.
  cbv zeta. unfold start_ollama. destruct spawn_result as [err|[o p]].
  - destruct (win32 h); cbn; auto.
  - destruct (win32 h); cbn.
    + split; [reflexivity|]. split; [auto|]. split; [reflexivity|]. split; [reflexivity|].
      split; [|destruct answer; reflexivity].
      destruct answer as [code| |]; cbn; split; intros H; try discriminate;
        try (specialize (H eq_refl); discriminate).
      * intros _. apply Z.eqb_eq in H. congruence.
      * specialize (H eq_refl). injection H as ->. reflexivity.
    + split; [reflexivity|]. split; [auto|]. split; [reflexivity|]. split; [reflexivity|].
      split; [|reflexivity]. split; [discriminate|reflexivity].
Qed.

Example start_ollama_answers :
  let windows := {| isDev := false; win32 := true; existsSync := fun _ => false;
                    findPython := None; pythonPath := EmptyString;
                    serverScript := EmptyString; serverExe := EmptyString;
                    workerScript := EmptyString; workerExe := EmptyString;
                    dirname := fun p => p; documents := EmptyString |} in
  let reply := fun a => snd (start_ollama windows "ollama.exe" (inr (0, Some 7%positive)) a) in
  reply (TagsStatus 200) = {| reply_success := true; reply_error := None |}
  /\ reply (TagsStatus 503) = {| reply_success := false; reply_error := None |}
  /\ reply TagsError = {| reply_success := false; reply_error := Some "Ollama not responding" |}
  /\ reply TagsTimeout = {| reply_success := false; reply_error := Some "Timeout" |}
  /\ snd (start_ollama packaged_host "ollama.exe" (inr (0, Some 7%positive)) TagsError)
     = {| reply_success := true; reply_error := None |}.
Proof. vm_compute. repeat split; reflexivity. Qed.

(** *** The automatic start of the pool *)

(** X15. [autoStartTranscriptionWorker] waits 3000 ms and asks for the status
    until an answer is [ok], three times at most, pausing 2000 ms after the
    first and after the second request when that request throws. It does not
    start the pool when the first [ok] answer reports neither pending nor
    in-progress work. When that answer reports work, or no answer is [ok], it
    calls the pool start once, and a second time from its [catch] block when
    the first call throws; its promise is rejected when that second call
    throws as well. When the body of the [ok] answer cannot be read it calls
    the pool start once, from the [catch] block. *)
Theorem autoStart_pool_unless_no_work (port : Z) (answers : nat -> StatusFetch)
    (start_throws : nat -> bool) :
  let r := autoStartTranscriptionWorker port answers start_throws in
  let starts := length (List.filter is_start_pool (fst r)) in
  length (List.filter is_cfetch (fst r)) = length (attempts_made answers)
  /\ csleeps (fst r)
     = 3000%N :: map (fun _ => 2000%N)
                     (List.filter (fun a => answer_throws (answers a) && (a <? 3)%nat)
                                  (attempts_made answers))
  /\ match first_ok_body answers with
     | Some (Some (pending, in_progress)) =>
         if (0 <? default 0%Z pending)%Z || (0 <? default 0%Z in_progress)%Z
         then starts = (if start_throws 0 then 2 else 1)
              /\ snd r = negb (start_throws 0 && start_throws 1)
         else starts = 0 /\ snd r = true
     | Some None => starts = 1 /\ snd r = negb (start_throws 0)
     | None => starts = (if start_throws 0 then 2 else 1)
               /\ snd r = negb (start_throws 0 && start_throws 1)
     end.
Proof.
  cbv zeta. unfold autoStartTranscriptionWorker, attempts_made, first_ok_body.
  cbn [fetch_status_loop].
  destruct (answers 1) as [|[|] b1] eqn:E1; destruct (answers 2) as [|[|] b2] eqn:E2;
    destruct (answers 3) as [|[|] b3] eqn:E3; cbn [answer_ok answer_throws];
    repeat match goal with
           | |- context [match ?b with Some _ => _ | None => _ end] =>
               is_var b; destruct b as [[? ?]|]
           end;
    repeat match goal with
           | |- context [((0 <? ?x)%Z || (0 <? ?y)%Z)] =>
               destruct ((0 <? x)%Z || (0 <? y)%Z)
           end;
    destruct (start_throws 0); cbn; rewrite ?E1, ?E2, ?E3; cbn; repeat split; reflexivity.
Qed.

Example autoStart_all_requests_fail :
  autoStartTranscriptionWorker 8080 (fun _ => FetchThrows) (fun _ => false)
  = ([CSleep 3000;
      CFetch "http://127.0.0.1:8080/api/transcription-status" 10000;
      CConsole (ConsoleLog "Transcription status check attempt 1/3 failed:");
      CSleep 2000;
      CFetch "http://127.0.0.1:8080/api/transcription-status" 10000;
      CConsole (ConsoleLog "Transcription status check attempt 2/3 failed:");
      CSleep 2000;
      CFetch "http://127.0.0.1:8080/api/transcription-status" 10000;
      CConsole (ConsoleLog "Transcription status check attempt 3/3 failed:");
      CConsole (ConsoleLog
        "Could not fetch transcription status, starting worker anyway (may have pending work)");
      CStartPool]%N, true).
Proof. vm_compute. reflexivity. Qed.

Example autoStart_work_and_throwing_start :
  let answers := fun _ : nat => FetchResponse true (Some (Some 2%Z, None)) in
  let r := autoStartTranscriptionWorker 8080 answers (fun k => (k =? 0)%nat) in
  length (List.filter is_cfetch (fst r)) = 1
  /\ length (List.filter is_start_pool (fst r)) = 2
  /\ snd r = true.
Proof. vm_compute. repeat split; reflexivity. Qed.

(** ** Licence keys *)

Lemma append_cons (a : ascii) (s t : string) :
  (String a s ++ t)%string = String a (s ++ t)%string.
Proof. reflexivity. Qed.

Lemma startsWith_app (p s : string) :
  startsWith p s = true -> s = (p ++ substring_from (String.length p) s)%string.
Proof.
  revert s. induction p as [|a p IH]; intros s; [reflexivity|].
  destruct s as [|b s]; [discriminate|]. cbn [startsWith String.length substring_from].
  destruct (Ascii.eqb_spec a b) as [->|]; [|discriminate].
  intros H. rewrite append_cons. f_equal. apply IH, H.
Qed.

Lemma indexOf_split (c : ascii) (s : string) (i : nat) :
  indexOf c s = Some i ->
  s = (substring0 i s ++ String c (substring_from (i + 1) s))%string
  /\ indexOf c (substring0 i s) = None.
Proof.
  revert i. induction s as [|a s IH]; intros i; [discriminate|]. cbn [indexOf].
  destruct (Ascii.eqb_spec a c) as [->|Hne].
  - intros [= <-]. split; reflexivity.
  - destruct (indexOf c s) as [j|]; [|discriminate]. intros [= <-].
    destruct (IH j eq_refl) as [H1 H2].
    cbn [substring0 substring_from Nat.add indexOf]. rewrite append_cons.
    split; [f_equal; exact H1|].
    destruct (Ascii.eqb_spec a c); [contradiction|]. rewrite H2. reflexivity.
Qed.

Lemma lastIndexOf_split (c : ascii) (s : string) (i : nat) :
  lastIndexOf c s = Some i ->
  s = (substring0 i s ++ String c (substring_from (i + 1) s))%string
  /\ indexOf c (substring_from (i + 1) s) = None.
Proof.
  revert i. induction s as [|a s IH]; intros i; [discriminate|]. cbn [lastIndexOf].
  destruct (lastIndexOf c s) as [j|] eqn:E.
  - intros [= <-]. destruct (IH j eq_refl) as [H1 H2].
    cbn [substring0 substring_from Nat.add]. rewrite append_cons.
    split; [f_equal; exact H1|]. exact H2.
  - destruct (Ascii.eqb_spec a c) as [->|Hne]; [|discriminate]. intros [= <-].
    cbn. split; [reflexivity|].
    clear IH. induction s as [|b s IHs]; [reflexivity|].
    cbn [lastIndexOf] in E. cbn [indexOf].
    destruct (lastIndexOf c s); [discriminate|].
    destruct (Ascii.eqb b c); [discriminate|]. rewrite IHs; reflexivity.
Qed.

(** A key that is reported valid has the signed shape. *)
Lemma license_valid_inv (verify : string -> string -> string + bool)
    (decode_payload : string -> string + LicensePayload) (expired : string -> bool)
    (key : string) :
  let r := validateLicenseKey verify decode_payload expired key in
  valid r = true ->
  exists tierPart payloadBase64 signature payload,
    key = ("CV-" ++ tierPart ++ "-" ++ payloadBase64 ++ "." ++ signature)%string
    /\ indexOf "-" tierPart = None
    /\ indexOf "." signature = None
    /\ verify (tierPart ++ "-" ++ payloadBase64)%string signature = inr true
    /\ decode_payload payloadBase64 = inr payload
    /\ payload_expired expired payload = false
    /\ status r = "valid" /\ error r = None
    /\ tier r = payload_tier payload /\ features r = payload_features payload.
Proof.
  cbv zeta. unfold validateLicenseKey.
  destruct (truthy_string key); cbn [negb orb]; [|discriminate].
  destruct (startsWith "CV-" key) eqn:Hs; cbn [negb]; [|discriminate].
  apply startsWith_app in Hs. cbn [String.length] in Hs.
  destruct (indexOf "-" (substring_from 3 key)) as [dashIndex|] eqn:Hd; [|discriminate].
  apply indexOf_split in Hd as [Hd1 Hd2].
  destruct (lastIndexOf "." (substring_from (dashIndex + 1) (substring_from 3 key)))
    as [dotIndex|] eqn:Hdot; [|discriminate].
  apply lastIndexOf_split in Hdot as [Hdot1 Hdot2].
  destruct (verify _ _) as [verr|[|]] eqn:Hv; [discriminate| |discriminate].
  destruct (decode_payload _) as [err|payload] eqn:Hp; [discriminate|].
  fold (payload_expired expired payload).
  destruct (payload_expired expired payload) eqn:He; [discriminate|]. intros _.
  set (W := substring_from 3 key) in *.
  set (T := substring0 dashIndex W) in *.
  set (R := substring_from (dashIndex + 1) W) in *.
  set (P := substring0 dotIndex R) in *.
  set (G := substring_from (dotIndex + 1) R) in *.
  exists T, P, G, payload.
  split; [|split; [exact Hd2|split; [exact Hdot2|split; [exact Hv|split;
    [exact Hp|split; [exact He|repeat split]]]]]].
  transitivity ("CV-" ++ W)%string; [exact Hs|]. f_equal.
  transitivity (T ++ String "-" R)%string; [exact Hd1|]. f_equal.
  change (String "-" R = String "-" (P ++ String "." G)%string). f_equal. exact Hdot1.
Qed.

Lemma indexOf_app_found (c : ascii) (a b : string) :
  indexOf c a = None ->
  indexOf c (a ++ String c b)%string = Some (String.length a)
  /\ substring0 (String.length a) (a ++ String c b)%string = a
  /\ substring_from (String.length a + 1) (a ++ String c b)%string = b.
Proof.
  induction a as [|x a IH]; intros Ha.
  - change ("" ++ String c b)%string with (String c b).
    cbn [indexOf substring0 substring_from String.length Nat.add].
    destruct (Ascii.eqb_spec c c); [auto|contradiction].
  - cbn [indexOf] in Ha. destruct (Ascii.eqb x c) eqn:E; [discriminate|].
    destruct (indexOf c a) eqn:Ei; [discriminate|].
    destruct (IH eq_refl) as (I1 & I2 & I3).
    rewrite append_cons. cbn [indexOf substring0 substring_from String.length Nat.add].
    rewrite E, I1, I2, I3. auto.
Qed.

Lemma lastIndexOf_none (c : ascii) (s : string) :
  indexOf c s = None -> lastIndexOf c s = None.
Proof.
  induction s as [|x s IH]; [reflexivity|]. cbn [indexOf lastIndexOf].
  destruct (Ascii.eqb x c); [discriminate|].
  destruct (indexOf c s); [discriminate|]. intros _. rewrite IH; reflexivity.
Qed.

Lemma lastIndexOf_app_found (c : ascii) (a b : string) :
  indexOf c b = None ->
  lastIndexOf c (a ++ String c b)%string = Some (String.length a)
  /\ substring0 (String.length a) (a ++ String c b)%string = a
  /\ substring_from (String.length a + 1) (a ++ String c b)%string = b.
Proof.
  intros Hb. induction a as [|x a (I1 & I2 & I3)].
  - change ("" ++ String c b)%string with (String c b).
    cbn [lastIndexOf substring0 substring_from String.length Nat.add].
    rewrite (lastIndexOf_none c b Hb).
    destruct (Ascii.eqb_spec c c); [auto|contradiction].
  - rewrite append_cons.
    cbn [lastIndexOf substring0 substring_from String.length Nat.add].
    rewrite I1, I2, I3. auto.
Qed.

(** The result for a key of the signed shape. *)
Lemma validateLicenseKey_signed (verify : string -> string -> string + bool)
    (decode_payload : string -> string + LicensePayload) (expired : string -> bool)
    (T P G : string) (payload : LicensePayload) :
  indexOf "-" T = None ->
  indexOf "." G = None ->
  verify (T ++ "-" ++ P)%string G = inr true ->
  decode_payload P = inr payload ->
  validateLicenseKey verify decode_payload expired
    ("CV-" ++ T ++ "-" ++ P ++ "." ++ G)%string
  = if payload_expired expired payload then
      {| valid := false; tier := payload_tier payload; status := "expired";
         email := Some (payload_email payload); expiresAt := payload_expires payload;
         features := FREE_FEATURES; error := Some "License has expired" |}
    else
      {| valid := true; tier := payload_tier payload; status := "valid";
         email := Some (payload_email payload); expiresAt := payload_expires payload;
         features := payload_features payload; error := None |}.
Proof.
  intros HT HG Hv Hp. unfold validateLicenseKey.
  change (truthy_string ("CV-" ++ T ++ "-" ++ P ++ "." ++ G)%string) with true.
  change (startsWith "CV-" ("CV-" ++ T ++ "-" ++ P ++ "." ++ G)%string) with true.
  cbn [negb orb].
  change (substring_from 3 ("CV-" ++ T ++ "-" ++ P ++ "." ++ G)%string)
    with (T ++ String "-" (P ++ String "." G))%string.
  destruct (indexOf_app_found "-" T (P ++ String "." G)%string HT) as (-> & -> & ->).
  destruct (lastIndexOf_app_found "." P G HG) as (-> & -> & ->).
  change (T ++ "-" ++ P)%string with (T ++ String "-" P)%string in Hv |- *.
  rewrite Hv, Hp. reflexivity.
Qed.

(** X16. A licence key is reported valid exactly when it reads
    [CV-<tier>-<payload>.<signature>] with no dash in the tier part and no dot
    in the signature, the signature verifies over exactly [<tier>-<payload>],
    the payload decodes and is not expired; the result then carries the tier
    and the features of the signed payload and no error. *)
Theorem license_valid_iff_signed (verify : string -> string -> string + bool)
    (decode_payload : string -> string + LicensePayload) (expired : string -> bool)
    (key : string) :
  let r := validateLicenseKey verify decode_payload expired key in
  valid r = true
  <-> exists tierPart payloadBase64 signature payload,
        key = ("CV-" ++ tierPart ++ "-" ++ payloadBase64 ++ "." ++ signature)%string
        /\ indexOf "-" tierPart = None
        /\ indexOf "." signature = None
        /\ verify (tierPart ++ "-" ++ payloadBase64)%string signature = inr true
        /\ decode_payload payloadBase64 = inr payload
        /\ payload_expired expired payload = false
        /\ status r = "valid" /\ error r = None
        /\ tier r = payload_tier payload /\ features r = payload_features payload.
Proof.
  cbv zeta. split; [apply license_valid_inv|].
  intros (T & P & G & payload & -> & HT & HG & Hv & Hp & He & _).
  rewrite (validateLicenseKey_signed _ _ _ T P G payload HT HG Hv Hp), He.
  reflexivity.
Qed.

(** The result for a key of the signed shape, whatever the signature check
    and the decoding give. *)
Lemma validateLicenseKey_shape (verify : string -> string -> string + bool)
    (decode_payload : string -> string + LicensePayload) (expired : string -> bool)
    (T P G : string) :
  indexOf "-" T = None ->
  indexOf "." G = None ->
  validateLicenseKey verify decode_payload expired
    ("CV-" ++ T ++ "-" ++ P ++ "." ++ G)%string
  = match verify (T ++ "-" ++ P)%string G with
    | inl err => invalidResult ("License validation error: " ++ err)
    | inr false => invalidResult "Invalid license key: signature verification failed"
    | inr true =>
        match decode_payload P with
        | inl err => invalidResult ("License validation error: " ++ err)
        | inr payload =>
            if payload_expired expired payload then
              {| valid := false; tier := payload_tier payload; status := "expired";
                 email := Some (payload_email payload);
                 expiresAt := payload_expires payload;
                 features := FREE_FEATURES; error := Some "License has expired" |}
            else
              {| valid := true; tier := payload_tier payload; status := "valid";
                 email := Some (payload_email payload);
                 expiresAt := payload_expires payload;
                 features := payload_features payload; error := None |}
        end
    end.
Proof.
  intros HT HG. unfold validateLicenseKey.
  change (truthy_string ("CV-" ++ T ++ "-" ++ P ++ "." ++ G)%string) with true.
  change (startsWith "CV-" ("CV-" ++ T ++ "-" ++ P ++ "." ++ G)%string) with true.
  cbn [negb orb].
  change (substring_from 3 ("CV-" ++ T ++ "-" ++ P ++ "." ++ G)%string)
    with (T ++ String "-" (P ++ String "." G))%string.
  destruct (indexOf_app_found "-" T (P ++ String "." G)%string HT) as (-> & -> & ->).
  destruct (lastIndexOf_app_found "." P G HG) as (-> & -> & ->).
  change (T ++ "-" ++ P)%string with (T ++ String "-" P)%string.
  destruct (verify _ _) as [err|[|]]; [reflexivity| |reflexivity].
  destruct (decode_payload P); reflexivity.
Qed.

(** A key has the signed shape, or is refused for its format. *)
Lemma validateLicenseKey_format (verify : string -> string -> string + bool)
    (decode_payload : string -> string + LicensePayload) (expired : string -> bool)
    (key : string) :
  (exists T P G, key = ("CV-" ++ T ++ "-" ++ P ++ "." ++ G)%string
                 /\ indexOf "-" T = None /\ indexOf "." G = None)
  \/ (exists e, validateLicenseKey verify decode_payload expired key = invalidResult e).
Proof.
  unfold validateLicenseKey.
  destruct (truthy_string key); cbn [negb orb]; [|right; eauto].
  destruct (startsWith "CV-" key) eqn:Hs; cbn [negb]; [|right; eauto].
  apply startsWith_app in Hs. cbn [String.length] in Hs.
  destruct (indexOf "-" (substring_from 3 key)) as [dashIndex|] eqn:Hd; [|right; eauto].
  apply indexOf_split in Hd as [Hd1 Hd2].
  destruct (lastIndexOf "." (substring_from (dashIndex + 1) (substring_from 3 key)))
    as [dotIndex|] eqn:Hdot; [|right; eauto].
  apply lastIndexOf_split in Hdot as [Hdot1 Hdot2].
  left.
  set (W := substring_from 3 key) in *.
  set (T := substring0 dashIndex W) in *.
  set (R := substring_from (dashIndex + 1) W) in *.
  set (P := substring0 dotIndex R) in *.
  set (G := substring_from (dotIndex + 1) R) in *.
  exists T, P, G. split; [|split; assumption].
  transitivity ("CV-" ++ W)%string; [exact Hs|]. f_equal.
  transitivity (T ++ String "-" R)%string; [exact Hd1|]. f_equal.
  change (String "-" R = String "-" (P ++ String "." G)%string). f_equal. exact Hdot1.
Qed.

(** X17. Whatever the key, a result that is not valid grants the three free
    features only and names an error, and a valid result has the status
    [valid] and no error. The status is [expired] exactly for a key of the
    signed shape whose signature verifies and whose payload decodes with a
    date that has passed; every other failure is the [invalid] result with
    the tier [free]. For a key of the signed shape, an exception of the
    signature check or of the decoding ends in the [invalid] result that
    carries the text of the exception, and a signature that does not verify
    in the one that says so. *)
Theorem license_failure_is_free (verify : string -> string -> string + bool)
    (decode_payload : string -> string + LicensePayload) (expired : string -> bool)
    (key : string) :
  let r := validateLicenseKey verify decode_payload expired key in
  let signed := fun T P G : string =>
    key = ("CV-" ++ T ++ "-" ++ P ++ "." ++ G)%string
    /\ indexOf "-" T = None /\ indexOf "." G = None in
  (valid r = false -> features r = FREE_FEATURES /\ is_Some (error r))
  /\ (valid r = true -> status r = "valid" /\ error r = None)
  /\ (status r = "expired"
      <-> exists T P G payload,
            signed T P G
            /\ verify (T ++ "-" ++ P)%string G = inr true
            /\ decode_payload P = inr payload
            /\ payload_expired expired payload = true)
  /\ (status r = "expired" -> valid r = false /\ error r = Some "License has expired")
  /\ (valid r = false -> status r <> "expired" ->
      status r = "invalid" /\ tier r = "free" /\ email r = None /\ expiresAt r = None)
  /\ (forall T P G err,
        signed T P G -> verify (T ++ "-" ++ P)%string G = inl err ->
        r = invalidResult ("License validation error: " ++ err))
  /\ (forall T P G,
        signed T P G -> verify (T ++ "-" ++ P)%string G = inr false ->
        r = invalidResult "Invalid license key: signature verification failed")
  /\ (forall T P G err,
        signed T P G -> verify (T ++ "-" ++ P)%string G = inr true ->
        decode_payload P = inl err ->
        r = invalidResult ("License validation error: " ++ err)).
Proof.
  cbv zeta.
  assert (Hshape : forall T P G,
             key = ("CV-" ++ T ++ "-" ++ P ++ "." ++ G)%string
             /\ indexOf "-" T = None /\ indexOf "." G = None ->
             validateLicenseKey verify decode_payload expired key
             = match verify (T ++ "-" ++ P)%string G with
               | inl err => invalidResult ("License validation error: " ++ err)
               | inr false =>
                   invalidResult "Invalid license key: signature verification failed"
               | inr true =>
                   match decode_payload P with
                   | inl err => invalidResult ("License validation error: " ++ err)
                   | inr payload =>
                       if payload_expired expired payload then
                         {| valid := false; tier := payload_tier payload;
                            status := "expired"; email := Some (payload_email payload);
                            expiresAt := payload_expires payload;
                            features := FREE_FEATURES;
                            error := Some "License has expired" |}
                       else
                         {| valid := true; tier := payload_tier payload; status := "valid";
                            email := Some (payload_email payload);
                            expiresAt := payload_expires payload;
                            features := payload_features payload; error := None |}
                   end
               end).
  { intros T P G (-> & HT & HG). apply validateLicenseKey_shape; assumption. }
  assert (Hcases :
            (exists e, validateLicenseKey verify decode_payload expired key = invalidResult e)
            \/ (exists T P G payload,
                   (key = ("CV-" ++ T ++ "-" ++ P ++ "." ++ G)%string
                    /\ indexOf "-" T = None /\ indexOf "." G = None)
                   /\ verify (T ++ "-" ++ P)%string G = inr true
                   /\ decode_payload P = inr payload)).
  { destruct (validateLicenseKey_format verify decode_payload expired key)
      as [(T & P & G & Hs)|He]; [|left; exact He].
    pose proof (Hshape T P G Hs) as E.
    destruct (verify (T ++ "-" ++ P)%string G) as [err|[|]] eqn:Hv; [left; eauto| |left; eauto].
    destruct (decode_payload P) as [err|payload] eqn:Hp; [left; eauto|].
    right. exists T, P, G, payload. auto. }
  split; [|split; [|split; [|split; [|split; [|split; [|split]]]]]].
  - destruct Hcases as [[e ->]|(T & P & G & payload & Hs & Hv & Hp)]; [cbn; eauto|].
    rewrite (Hshape T P G Hs), Hv, Hp.
    destruct (payload_expired expired payload); cbn; [eauto|discriminate].
  - destruct Hcases as [[e ->]|(T & P & G & payload & Hs & Hv & Hp)]; [discriminate|].
    rewrite (Hshape T P G Hs), Hv, Hp.
    destruct (payload_expired expired payload); cbn; [discriminate|auto].
  - split.
    + destruct Hcases as [[e ->]|(T & P & G & payload & Hs & Hv & Hp)]; [discriminate|].
      rewrite (Hshape T P G Hs), Hv, Hp.
      destruct (payload_expired expired payload) eqn:He; cbn; [|discriminate].
      intros _. exists T, P, G, payload. auto.
    + intros (T & P & G & payload & Hs & Hv & Hp & He).
      rewrite (Hshape T P G Hs), Hv, Hp, He. reflexivity.
  - destruct Hcases as [[e ->]|(T & P & G & payload & Hs & Hv & Hp)]; [discriminate|].
    rewrite (Hshape T P G Hs), Hv, Hp.
    destruct (payload_expired expired payload); cbn; [auto|discriminate].
  - destruct Hcases as [[e ->]|(T & P & G & payload & Hs & Hv & Hp)]; [cbn; auto|].
    rewrite (Hshape T P G Hs), Hv, Hp.
    destruct (payload_expired expired payload); cbn; [congruence|discriminate].
  - intros T P G err Hs Hv. rewrite (Hshape T P G Hs), Hv. reflexivity.
  - intros T P G Hs Hv. rewrite (Hshape T P G Hs), Hv. reflexivity.
  - intros T P G err Hs Hv Hp. rewrite (Hshape T P G Hs), Hv, Hp. reflexivity.
Qed.

Example license_examples :
  let verify := fun data signature : string =>
    if String.eqb signature "!" then inl "TypeError"
    else inr (String.eqb data "PRO-e30" && String.eqb signature "c2ln") in
  let decode := fun p : string =>
    if String.eqb p "e30"
    then inr {| payload_tier := "pro"; payload_email := "a@b.c";
                payload_issued := "2026-01-01"; payload_expires := None;
                payload_machineLimit := 2; payload_features := ["transcribe"; "export"] |}
    else inl "SyntaxError" in
  let check := validateLicenseKey verify decode (fun _ => false) in
  valid (check "CV-PRO-e30.c2ln") = true
  /\ features (check "CV-PRO-e30.c2ln") = ["transcribe"; "export"]
  /\ error (check "CV-PRO-e30.bad") = Some "Invalid license key: signature verification failed"
  /\ error (check "PRO-e30.c2ln") = Some "Invalid key format: must start with CV-"
  /\ error (check "CV-PROe30.c2ln") = Some "Invalid key format: missing tier separator"
  /\ error (check "CV-PRO-e30c2ln") = Some "Invalid key format: missing signature"
  /\ error (check "CV-PRO-e30.!") = Some "License validation error: TypeError"
  /\ error (check "CV-PRO-e31.c2ln") = Some "Invalid license key: signature verification failed".
Proof. vm_compute. repeat split; reflexivity. Qed.

(** X18. A key printed by the generator of the tools is accepted by the
    application whenever the signature verifies, the payload decodes back and
    the signature holds no dot: the result carries the tier and the mail
    address that were asked for, it is valid unless the signed date has
    passed, a valid result grants the features of the tier, and a [pro] key
    never expires. *)
Theorem generated_key_validates (sign : string -> string)
    (encode_payload : LicensePayload -> string) (today : string)
    (expiry_in : Z -> option string)
    (verify : string -> string -> string + bool)
    (decode_payload : string -> string + LicensePayload) (expired : string -> bool)
    (t : Tier) (mail : string) (months : option Z) (payload : LicensePayload) :
  license_payload today expiry_in t mail months = Some payload ->
  indexOf "." (sign (tierPrefix t ++ "-" ++ encode_payload payload)%string) = None ->
  verify (tierPrefix t ++ "-" ++ encode_payload payload)%string
         (sign (tierPrefix t ++ "-" ++ encode_payload payload)%string) = inr true ->
  decode_payload (encode_payload payload) = inr payload ->
  exists key,
    generateLicenseKey sign encode_payload today expiry_in t mail months = Some key
    /\ let r := validateLicenseKey verify decode_payload expired key in
       tier r = tier_name t /\ email r = Some mail
       /\ valid r = negb (payload_expired expired payload)
       /\ (valid r = true -> features r = TIER_FEATURES t /\ status r = "valid")
       /\ (t = pro -> valid r = true).
Proof.
  intros Hpay Hdot Hv Hd. unfold generateLicenseKey. rewrite Hpay.
  eexists; split; [reflexivity|]. cbv zeta.
  assert (HT : indexOf "-" (tierPrefix t) = None) by (destruct t; reflexivity).
  rewrite (validateLicenseKey_signed _ _ _ _ _ _ payload HT Hdot Hv Hd).
  assert (Hfields : payload_tier payload = tier_name t /\ payload_email payload = mail
                    /\ payload_features payload = TIER_FEATURES t
                    /\ (t = pro -> payload_expires payload = None)).
  { unfold license_payload in Hpay. destruct t.
    - injection Hpay as <-. cbn. auto.
    - destruct (expiry_in _); [|discriminate]. injection Hpay as <-. cbn.
      repeat split; discriminate. }
  destruct Hfields as (Ht & Hm & Hf & Hx).
  assert (Hpro : t = pro -> payload_expired expired payload = false).
  { intros E. unfold payload_expired. rewrite (Hx E). reflexivity. }
  destruct (payload_expired expired payload) eqn:He; cbn.
  - rewrite Ht, Hm. repeat split; try discriminate. intros E. specialize (Hpro E).
    discriminate.
  - rewrite Ht, Hm, Hf. repeat split.
Qed.

Lemma generated_key_validates_witness :
  let sign := fun data : string => "c2ln" in
  let encode_payload := fun p : LicensePayload => payload_email p in
  let expiry_in := fun m : Z => Some "2027-01-02" in
  let verify := fun data signature : string =>
    @inr string bool (String.eqb data "PROPLUS-a@b.c" && String.eqb signature "c2ln") in
  let payload :=
    {| payload_tier := "pro_plus"; payload_email := "a@b.c";
       payload_issued := "2026-11-02"; payload_expires := Some "2027-01-02";
       payload_machineLimit := 3; payload_features := TIER_FEATURES pro_plus |} in
  let decode_payload := fun p : string =>
    if String.eqb p "a@b.c" then inr payload else @inl string LicensePayload "SyntaxError" in
  exists key,
    generateLicenseKey sign encode_payload "2026-11-02" expiry_in pro_plus "a@b.c" (Some 2%Z)
    = Some key
    /\ let r := validateLicenseKey verify decode_payload (fun _ => false) key in
       tier r = "pro_plus" /\ email r = Some "a@b.c"
       /\ valid r = negb (payload_expired (fun _ => false) payload)
       /\ (valid r = true -> features r = TIER_FEATURES pro_plus /\ status r = "valid")
       /\ (pro_plus = pro -> valid r = true).
Proof.
  cbv zeta.
  apply (generated_key_validates (fun _ => "c2ln") (fun p => payload_email p)
           "2026-11-02" (fun _ => Some "2027-01-02")
           (fun data signature =>
              inr (String.eqb data "PROPLUS-a@b.c" && String.eqb signature "c2ln"))
           _ (fun _ => false) pro_plus "a@b.c" (Some 2%Z));
    reflexivity.
Defined.

Lemma startsWith_trimEnd (n s : string) :
  startsWith n (trimEnd s) = true -> startsWith n s = true.
Proof.
  revert n. induction s as [|c s IH]; intros n; [trivial|].
  destruct n as [|a n]; [reflexivity|]. cbn [trimEnd].
  destruct (trimEnd s) as [|d r] eqn:E.
  - destruct (is_white c); [discriminate|]. cbn [startsWith].
    destruct (Ascii.eqb a c); [|discriminate].
    destruct n; [reflexivity|discriminate].
  - cbn [startsWith]. destruct (Ascii.eqb a c); [|discriminate]. apply IH.
Qed.

Lemma includes_tail (n : string) (c : ascii) (s : string) :
  includes n s = true -> includes n (String c s) = true.
Proof.
  intros H. cbn [includes]. destruct (startsWith n (String c s)); [reflexivity|exact H].
Qed.

Lemma includes_empty (n : string) : includes n "" = true -> n = "".
Proof. destruct n; [reflexivity|discriminate]. Qed.

Lemma includes_empty_needle (s : string) : includes "" s = true.
Proof. destruct s; reflexivity. Qed.

Lemma includes_trimStart (n s : string) :
  includes n (trimStart s) = true -> includes n s = true.
Proof.
  induction s as [|c s IH]; [trivial|]. cbn [trimStart].
  destruct (is_white c); [|trivial]. intros H. apply includes_tail, IH, H.
Qed.

Lemma includes_trimEnd (n s : string) :
  includes n (trimEnd s) = true -> includes n s = true.
Proof.
  induction s as [|c s IH]; [trivial|]. intros H.
  destruct (startsWith n (trimEnd (String c s))) eqn:Es.
  - apply startsWith_trimEnd in Es. cbn [includes]. rewrite Es. reflexivity.
  - cbn [trimEnd] in H, Es. destruct (trimEnd s) as [|d r] eqn:E.
    + destruct (is_white c).
      * apply includes_empty in H as ->. apply includes_empty_needle.
      * cbn [includes] in H. rewrite Es in H. apply includes_empty in H as ->.
        apply includes_empty_needle.
    + cbn [includes] in H. rewrite Es in H. apply includes_tail, IH, H.
Qed.

Lemma includes_trim (n s : string) :
  includes n (trim s) = true -> includes n s = true.
Proof. intros H. apply includes_trimStart, includes_trimEnd, H. Qed.

Lemma includes_trim_false (n s : string) :
  includes n s = false -> includes n (trim s) = false.
Proof.
  intros H. destruct (includes n (trim s)) eqn:E; [|reflexivity].
  apply includes_trim in E. congruence.
Qed.

(** X19. What a chunk of the standard error of the service does to the console
    of the renderer: nothing when it is an access log with status 200, 304 or
    204, when the window is gone or when it is blank; otherwise exactly one
    call of [addLog] with the trimmed text, typed [error] when the text holds
    that word in any case and [info] when not.  The filter of the renderer
    never drops what the main process sent. *)
Theorem service_stderr_console (win : bool) (message : string) (logs : list LogEntry) :
  deliver_python_all logs (on_python_stderr win message)
  = if negb (isAccessLog message) && win && truthy_string (trim message)
    then addLog (trim message)
                (if includes "error" (toLowerCase (trim message)) then Error else Info)
                logs
    else logs.
Proof.
  unfold on_python_stderr.
  destruct (isAccessLog message) eqn:Ea; [reflexivity|].
  destruct win; [|reflexivity]. cbn [negb andb].
  unfold isAccessLog in Ea.
  apply orb_false_iff in Ea as [Ea _]. apply orb_false_iff in Ea as [E200 E304].
  apply includes_trim_false in E200, E304.
  unfold deliver_python_all. cbn [fold_left deliver_python].
  change (String.eqb "python-error" "python-log") with false.
  change (String.eqb "python-error" "python-error") with true.
  cbv iota. unfold onPythonError. cbv zeta. rewrite E200, E304.
  cbn [negb]. rewrite !andb_true_r. reflexivity.
Qed.

(** What a chunk of the standard output of the service does to the
    console: it is written to the console of the main process in any case,
    and, when the window exists and the chunk is not blank, the trimmed text
    is added once, typed by its marker: [DONE] before [ERROR] before [WARN]
    or [SKIP]. *)
Lemma service_stdout_console (win : bool) (data : string) (logs : list LogEntry) :
  In (ConsoleLog ("[Python] " ++ data)) (on_python_stdout win data)
  /\ deliver_python_all logs (on_python_stdout win data)
     = (if win && truthy_string (trim data)
        then addLog (trim data)
               (if includes "[DONE]" (trim data) then Success
                else if includes "[ERROR]" (trim data) then Error
                else if includes "[WARN]" (trim data) || includes "[SKIP]" (trim data)
                     then Warning else Info) logs
        else logs).
Proof.
  split; [left; reflexivity|].
  unfold on_python_stdout, deliver_python_all. destruct win; [|reflexivity].
  cbn [fold_left deliver_python andb].
  change (String.eqb "python-log" "python-log") with true. cbv iota.
  unfold onPythonLog, classify_python_line. cbv zeta. reflexivity.
Qed.

Lemma no_repeat_tail (e : LogEntry) (l : list LogEntry) :
  no_repeat (e :: l) = true -> no_repeat l = true.
Proof.
  destruct l as [|e2 l]; [reflexivity|]. cbn [no_repeat].
  intros H. apply andb_true_iff in H as [_ H]. exact H.
Qed.

Lemma no_repeat_drop (k : nat) (l : list LogEntry) :
  no_repeat l = true -> no_repeat (skipn k l) = true.
Proof.
  revert l. induction k as [|k IH]; intros l H; [exact H|].
  destruct l as [|e l]; [reflexivity|]. cbn [skipn]. apply IH.
  apply (no_repeat_tail e), H.
Qed.

Lemma no_repeat_snoc (l : list LogEntry) (new : LogEntry) :
  no_repeat l = true ->
  (forall e, last l = Some e -> String.eqb (message e) (message new) = false) ->
  no_repeat (l ++ [new]) = true.
Proof.
  induction l as [|e1 l IH]; intros Hn Hl; [reflexivity|].
  destruct l as [|e2 l].
  - cbn. rewrite (Hl e1 eq_refl). reflexivity.
  - change ((e1 :: e2 :: l) ++ [new]) with (e1 :: e2 :: (l ++ [new])).
    cbn [no_repeat] in Hn |- *. apply andb_true_iff in Hn as [H1 H2].
    rewrite H1. cbn [andb]. apply (IH H2). intros e He. apply Hl.
    rewrite last_cons_cons. exact He.
Qed.

Lemma last_skipn (k : nat) (l : list LogEntry) :
  (k < length l)%nat -> last (skipn k l) = last l.
Proof.
  revert k. induction l as [|e l IH]; intros k Hk; [cbn in Hk; lia|].
  destruct k as [|k]; [reflexivity|]. cbn [skipn]. cbn [length] in Hk.
  rewrite IH by lia. destruct l as [|e2 l]; [cbn in Hk; lia|].
  rewrite last_cons_cons. reflexivity.
Qed.

Lemma last_length (e : LogEntry) (l : list LogEntry) :
  last l = Some e -> (0 < length l)%nat.
Proof. destruct l; [discriminate|cbn; lia]. Qed.

Lemma addLog_spec (msg : string) (ty : LogType) (prev : list LogEntry) :
  (length (addLog msg ty prev) <= Nat.max (length prev) 201)%nat
  /\ (no_repeat prev = true -> no_repeat (addLog msg ty prev) = true)
  /\ (exists e, last (addLog msg ty prev) = Some e /\ message e = msg).
Proof.
  unfold addLog. destruct (last prev) as [e|] eqn:El.
  - destruct (String.eqb_spec (message e) msg) as [Heq|Hne].
    + split; [lia|]. split; [trivial|]. exists e. auto.
    + pose proof (last_length e prev El) as Hpos.
      split; [|split].
      * rewrite length_app, length_skipn. cbn [length]. lia.
      * intros Hn. apply no_repeat_snoc; [apply no_repeat_drop, Hn|].
        intros e'. rewrite last_skipn by lia. rewrite El. intros [= <-].
        cbn [message]. apply String.eqb_neq, Hne.
      * eexists. rewrite last_snoc. split; reflexivity.
  - split; [cbn; lia|]. split; [reflexivity|]. eexists. split; reflexivity.
Qed.

(** X20. The console of the renderer under any sequence of [addLog] calls,
    from any earlier console: it never grows beyond 201 entries (or beyond the
    length it was restored with), a console without equal neighbours stays
    so, and after a call its last entry carries the message of that call. *)
Theorem console_bounded_without_repeats (calls : list (string * LogType))
    (prev : list LogEntry) :
  (length (log_all calls prev) <= Nat.max (length prev) 201)%nat
  /\ (no_repeat prev = true -> no_repeat (log_all calls prev) = true)
  /\ (forall msg ty, last calls = Some (msg, ty) ->
        exists e, last (log_all calls prev) = Some e /\ message e = msg).
Proof.
  induction calls as [|[msg ty] calls IH] using rev_ind.
  - split; [cbn; lia|]. split; [trivial|]. intros msg ty; discriminate.
  - unfold log_all in *. rewrite fold_left_app. cbn [fold_left fst snd].
    destruct IH as (IH1 & IH2 & _).
    destruct (addLog_spec msg ty (fold_left (fun logs c => addLog (fst c) (snd c) logs)
                                            calls prev)) as (A1 & A2 & A3).
    split; [lia|]. split; [auto|].
    intros msg' ty'. rewrite last_snoc. intros [= <- <-]. exact A3.
Qed.

Example console_keeps_last_200 :
  let calls := map (fun n => (string_of_nat n, Info)) (seq 0 300) in
  length (log_all calls []) = 201%nat
  /\ message <$> head (log_all calls []) = Some "99"
  /\ message <$> last (log_all (calls ++ [("299", Error)]) []) = Some "299"
  /\ length (log_all (calls ++ [("299", Error)]) []) = 201%nat.
Proof. vm_compute. repeat split; reflexivity. Qed.
